(** * generate_talos_configs.py: endpoint resolution and per-node patching

    A shallow embedding of [src/generate_talos_configs.py].

    - Python strings are [string]; [str | None] is [option string] and the
      test [if a.vip:] is [truthy_str].
    - A Python [dict] is an insertion-ordered association list (keys are
      strings, as in the YAML documents the script handles); [d[k] = v]
      replaces the value of an existing key in place and appends a new key
      at the end.
    - Dicts and lists are mutable objects: they live in a store ([heap]),
      values hold references to them, and [copy.deepcopy] allocates.
    - A Python exception is [None] in the store monad [M]. *)

From stdpp Require Import base option list strings pretty gmap sets.
From Stdlib Require Import ZArith Lia Ascii.

Set Warnings "-register-all,-clear-no-such-hyp".
Open Scope string_scope.
Open Scope list_scope.
Open Scope nat_scope.

(** ** Association lists: the content of a Python dict *)

Section kv.
Context {A : Type}.
Implicit Types (k : string) (d : list (string * A)).

(** [d.get(k)] on the content. *)
Fixpoint kv_get k d : option A :=
  match d with
  | [] => None
  | (k', v) :: r => if decide (k = k') then Some v else kv_get k r
  end.

(** [d[k] = v] on the content. *)
Fixpoint kv_set k (v : A) d : list (string * A) :=
  match d with
  | [] => [(k, v)]
  | (k', v') :: r =>
      if decide (k = k') then (k', v) :: r else (k', v') :: kv_set k v r
  end.

(** [d.setdefault(k, v)] on the content (the returned value is
    [kv_get k] of the result). *)
Definition kv_setdefault k (v : A) d : list (string * A) :=
  match kv_get k d with
  | Some _ => d
  | None => kv_set k v d
  end.

Definition kv_keys d : list string := d.*1.
End kv.

(** ** Command-line arguments (the [argparse] namespace [a]) *)

Record args := {
  cluster_name : string;
  endpoint : string;
  vip : option string;
  control_planes : list string;
  workers : list string;
  gateway : string;
  nameserver : string;
  talos_version : string;
  cidr : string;
  ifname : string;
  disk : string;
  enable_ccm : bool;
}.

(** Python truthiness of a [str | None]. *)
Definition truthy_str (o : option string) : bool :=
  match o with
  | Some s => bool_decide (s ≠ "")
  | None => false
  end.

(** [f"{a.vip}"] where [a.vip] is known to be a string. *)
Definition str_of (o : option string) : string := default "None" o.

(** ** gen_base_configs: endpoint and SAN list *)

(** Lines 63-69. [None] is the [IndexError] of [a.control_planes[0]]. *)
Definition endpoint_url (a : args) (bootstrap_phase : bool) : option string :=
  if bootstrap_phase && truthy_str (vip a) then
    match control_planes a with
    | cp0 :: _ => Some ("https://" +:+ cp0 +:+ ":6443")
    | [] => None
    end
  else
    Some (if truthy_str (vip a)
          then "https://" +:+ str_of (vip a) +:+ ":6443"
          else "https://" +:+ endpoint a).

(** [dict.fromkeys(l)]: every key inserted in turn, mapped to [None]. *)
Definition dict_fromkeys (l : list string) : list (string * unit) :=
  foldl (λ d k, kv_set k () d) [] l.

(** Lines 71-74: the candidates, before de-duplication. *)
Definition san_candidates (a : args) : list string :=
  (if truthy_str (vip a) then [str_of (vip a)] else []) ++ control_planes a.

(** Lines 71-75. *)
Definition sans (a : args) : list string :=
  kv_keys (dict_fromkeys (san_candidates a)).

(** Lines 77-93: the [talosctl gen config] command line. *)
Definition gen_config_cmd (a : args) (out : string) (bootstrap_phase : bool)
  : option (list string) :=
  url ← endpoint_url a bootstrap_phase;
  Some (["talosctl"; "gen"; "config"; cluster_name a; url;
         "--output-dir"; out; "--talos-version"; talos_version a;
         "--with-cluster-discovery"; "--with-kubespan"; "--with-secrets";
         "--force"]
        ++ mjoin ((λ san, ["--additional-sans"; san]) <$> sans a)).

(** The spec's wording of the SAN rule: walk the candidates in order and keep
    an address only the first time it is seen. *)
Fixpoint keep_first_seen (seen l : list string) : list string :=
  match l with
  | [] => []
  | x :: r =>
      if decide (x ∈ seen) then keep_first_seen seen r
      else x :: keep_first_seen (x :: seen) r
  end.

(** ** The store: mutable dicts and lists *)

Definition loc := nat.

(** Immutable atoms of a YAML document. *)
Inductive scalar :=
| SNone
| SBool (b : bool)
| SInt (z : Z)
| SStr (s : string).

(** A Python value: an atom, or a reference to a dict or list object. *)
Inductive val :=
| VScal (s : scalar)
| VRef (l : loc).

Inductive obj :=
| ODict (d : list (string * val))
| OList (xs : list val).

(** Object [l] is the [l]-th allocated one; allocation appends. *)
Abbreviation heap := (list obj).

(** A computation over the store; [None] is a raised exception. *)
Definition M (A : Type) : Type := heap → option (A * heap).

#[global] Instance M_ret : MRet M := λ A a h, Some (a, h).
#[global] Instance M_bind : MBind M := λ A B f m h,
  match m h with
  | Some (a, h') => f a h'
  | None => None
  end.

Definition raise {A} : M A := λ _, None.

Definition alloc (o : obj) : M loc := λ h, Some (length h, h ++ [o]).

(** [{...}] and [[...]] displays. *)
Definition new_dict (d : list (string * val)) : M val :=
  l ← alloc (ODict d); mret (VRef l).
Definition new_list (xs : list val) : M val :=
  l ← alloc (OList xs); mret (VRef l).

Definition read (l : loc) : M obj := λ h,
  match h !! l with
  | Some o => Some (o, h)
  | None => None
  end.

Definition store (l : loc) (o : obj) : M unit := λ h, Some ((), <[l := o]> h).

(** The dict behind [x], or [AttributeError]/[TypeError] when [x] is none. *)
Definition as_dict (x : val) : M (loc * list (string * val)) :=
  match x with
  | VRef l =>
      o ← read l;
      match o with
      | ODict d => mret (l, d)
      | OList _ => raise
      end
  | VScal _ => raise
  end.

Definition as_list (x : val) : M (loc * list val) :=
  match x with
  | VRef l =>
      o ← read l;
      match o with
      | OList xs => mret (l, xs)
      | ODict _ => raise
      end
  | VScal _ => raise
  end.

(** [x[k] = v] *)
Definition dict_setitem (x : val) (k : string) (v : val) : M unit :=
  '(l, d) ← as_dict x; store l (ODict (kv_set k v d)).

(** [x[k]] *)
Definition dict_getitem (x : val) (k : string) : M val :=
  '(_, d) ← as_dict x;
  match kv_get k d with
  | Some v => mret v
  | None => raise
  end.

(** [x.get(k, dflt)] *)
Definition dict_get (x : val) (k : string) (dflt : val) : M val :=
  '(_, d) ← as_dict x; mret (default dflt (kv_get k d)).

(** [x.setdefault(k, dflt)] *)
Definition dict_setdefault (x : val) (k : string) (dflt : val) : M val :=
  '(l, d) ← as_dict x;
  match kv_get k d with
  | Some v => mret v
  | None => store l (ODict (kv_set k dflt d));; mret dflt
  end.

(** [x.append(v)] *)
Definition list_append (x : val) (v : val) : M unit :=
  '(l, xs) ← as_list x; store l (OList (xs ++ [v])).

Definition truthy_scalar (s : scalar) : bool :=
  match s with
  | SNone => false
  | SBool b => b
  | SInt z => bool_decide (z ≠ 0%Z)
  | SStr s => bool_decide (s ≠ "")
  end.

(** [bool(x)] *)
Definition truthy (x : val) : M bool :=
  match x with
  | VScal s => mret (truthy_scalar s)
  | VRef l =>
      o ← read l;
      mret (match o with
            | ODict d => bool_decide (d ≠ [])
            | OList xs => bool_decide (xs ≠ [])
            end)
  end.

(** A [for] loop threading an accumulator. *)
Fixpoint foldM {A B} (f : B → A → M B) (b : B) (l : list A) : M B :=
  match l with
  | [] => mret b
  | a :: r => b' ← f b a; foldM f b' r
  end.

(** ** copy.deepcopy

    [memo] maps the identity of an object already copied to its copy. Atoms
    are returned as they are; a dict or list is copied into a fresh object
    that is entered into [memo] before its items are copied. [fuel] bounds
    the nesting of the recursion. *)
Fixpoint deepcopy_memo (fuel : nat) (x : val) (memo : gmap loc loc)
  : M (val * gmap loc loc) :=
  match x with
  | VScal _ => mret (x, memo)
  | VRef l =>
      match memo !! l with
      | Some y => mret (VRef y, memo)
      | None =>
          match fuel with
          | 0 => raise
          | S fuel =>
              o ← read l;
              match o with
              | OList xs =>
                  y ← alloc (OList []);
                  memo ← foldM (λ memo a,
                            '(a', memo) ← deepcopy_memo fuel a memo;
                            list_append (VRef y) a';;
                            mret memo) (<[l := y]> memo) xs;
                  mret (VRef y, memo)
              | ODict d =>
                  y ← alloc (ODict []);
                  memo ← foldM (λ memo '(k, v),
                            '(v', memo) ← deepcopy_memo fuel v memo;
                            dict_setitem (VRef y) k v';;
                            mret memo) (<[l := y]> memo) d;
                  mret (VRef y, memo)
              end
          end
      end
  end.

(** [copy.deepcopy(x)]: the recursion nests at most once per object of the
    store. *)
Definition deepcopy (x : val) : M val := λ h,
  ('(y, _) ← deepcopy_memo (S (length h)) x ∅; mret y) h.

(** ** patch_node (lines 109-179) *)

Definition vstr (s : string) : val := VScal (SStr s).
Definition vbool (b : bool) : val := VScal (SBool b).

Definition qemu_guest_agent_image : string :=
  "ghcr.io/siderolabs/qemu-guest-agent:9.2.0".
Definition ccm_manifest : string :=
  "https://raw.githubusercontent.com/siderolabs/talos-cloud-controller-manager/main/docs/deploy/cloud-controller-manager.yml".
Definition cert_approver_manifest : string :=
  "https://raw.githubusercontent.com/alex1989hu/kubelet-serving-cert-approver/main/deploy/standalone-install.yaml".

Definition patch_node (base : val) (ip cidr gw ns ifname disk : string)
    (vip : option string) (enable_ccm : bool) : M val :=
  cfg ← deepcopy base;
  (* install target *)
  e ← new_dict [];
  machine ← dict_setdefault cfg "machine" e;
  e ← new_dict [];
  install_config ← dict_setdefault machine "install" e;
  dict_setitem install_config "disk" (vstr disk);;
  ext ← new_dict [("image", vstr qemu_guest_agent_image)];
  exts ← new_list [ext];
  dict_setitem install_config "extensions" exts;;
  kargs ← new_list [vstr "net.ifnames=0"];
  dict_setitem install_config "extraKernelArgs" kargs;;
  (* network interface *)
  machine ← dict_getitem cfg "machine";
  e ← new_dict [];
  mnet ← dict_setdefault machine "network" e;
  addresses ← new_list [vstr (ip +:+ "/" +:+ cidr)];
  route ← new_dict [("network", vstr "0.0.0.0/0"); ("gateway", vstr gw)];
  routes ← new_list [route];
  iface ← new_dict [("interface", vstr ifname); ("dhcp", vbool false);
                    ("addresses", addresses); ("routes", routes)];
  (if truthy_str vip then
     v ← new_dict [("ip", vstr (str_of vip))];
     dict_setitem iface "vip" v
   else mret ());;
  ifaces ← new_list [iface];
  dict_setitem mnet "interfaces" ifaces;;
  nss ← new_list [vstr ns];
  dict_setitem mnet "nameservers" nss;;
  (* kubelet *)
  machine ← dict_getitem cfg "machine";
  e ← new_dict [];
  kubelet ← dict_setdefault machine "kubelet" e;
  e ← new_dict [];
  _ ← dict_setdefault kubelet "extraArgs" e;
  extra ← dict_getitem kubelet "extraArgs";
  dict_setitem extra "rotate-server-certificates" (vstr "true");;
  (if enable_ccm then
     extra ← dict_getitem kubelet "extraArgs";
     dict_setitem extra "cloud-provider" (vstr "external");;
     machine ← dict_getitem cfg "machine";
     e ← new_dict [];
     features ← dict_setdefault machine "features" e;
     roles ← new_list [vstr "os:reader"];
     nspaces ← new_list [vstr "kube-system"];
     access ← new_dict [("enabled", vbool true); ("allowedRoles", roles);
                        ("allowedKubernetesNamespaces", nspaces)];
     dict_setitem features "kubernetesTalosAPIAccess" access;;
     (* for control planes *)
     e ← new_dict [];
     c ← dict_get cfg "cluster" e;
     e ← new_dict [];
     cp ← dict_get c "controlPlane" e;
     is_cp ← truthy cp;
     if is_cp : bool then
       e ← new_dict [];
       cluster ← dict_setdefault cfg "cluster" e;
       manifests ← new_list [vstr ccm_manifest; vstr cert_approver_manifest];
       ecp ← new_dict [("enabled", vbool true); ("manifests", manifests)];
       dict_setitem cluster "externalCloudProvider" ecp
     else mret ()
   else mret ());;
  mret cfg.

(** ** YAML documents

    The content of a YAML file (without anchors): a tree of mappings,
    sequences and atoms. [yaml.safe_load] builds fresh objects for it and
    [yaml.safe_dump] writes out what is reachable from a value. *)

Inductive tree :=
| TScal (s : scalar)
| TDict (d : list (string * tree))
| TList (ts : list tree).

(** [yaml.safe_load]: a mapping is filled key by key, a sequence item by
    item. *)
Fixpoint load (t : tree) : M val :=
  match t with
  | TScal s => mret (VScal s)
  | TDict d =>
      y ← new_dict [];
      foldM (λ _ '(k, t), v ← load t; dict_setitem y k v) () d;;
      mret y
  | TList ts =>
      y ← new_list [];
      foldM (λ _ t, v ← load t; list_append y v) () ts;;
      mret y
  end.

(** The document a value stands for, read off the store; [None] when the
    nesting exceeds [fuel] (a cyclic value) or a reference dangles. *)
Fixpoint reify (fuel : nat) (h : heap) (x : val) : option tree :=
  match x with
  | VScal s => Some (TScal s)
  | VRef l =>
      match fuel with
      | 0 => None
      | S fuel =>
          match h !! l with
          | Some (ODict d) =>
              TDict <$> mapM (λ '(k, v), (k,.) <$> reify fuel h v) d
          | Some (OList xs) => TList <$> mapM (reify fuel h) xs
          | None => None
          end
      end
  end.

(** [yaml.safe_dump] of [x]: the nesting of a value without cycles is at most
    the number of objects of the store. *)
Definition dump (x : val) : M tree := λ h,
  t ← reify (S (length h)) h x; Some (t, h).

(** ** create_node_configs and validate_files (lines 182-234)

    The run acts on the store, on the files of the output directory and on
    the outside world; the trace records the documents written and the
    validator calls, in order. *)

Inductive event :=
| EvDump (path : string) (doc : tree)
| EvValidate (path : string).

Record world := World {
  w_heap : heap;
  w_files : list (string * tree);
  w_trace : list event;
}.

(** How a run ends: normally, by an exception, or by [sys.exit(code)]. *)
Inductive outcome (A : Type) :=
| Ret (a : A)
| Raised
| Exited (code : Z).
Arguments Ret {A} a.
Arguments Raised {A}.
Arguments Exited {A} code.

Definition P (A : Type) : Type := world → outcome A * world.

#[global] Instance P_ret : MRet P := λ A a w, (Ret a, w).
#[global] Instance P_bind : MBind P := λ A B f m w,
  match m w with
  | (Ret a, w') => f a w'
  | (Raised, w') => (Raised, w')
  | (Exited c, w') => (Exited c, w')
  end.

(** A store computation inside a run. *)
Definition lift {A} (m : M A) : P A := λ w,
  match m (w_heap w) with
  | Some (a, h') => (Ret a, World h' (w_files w) (w_trace w))
  | None => (Raised, w)
  end.

Definition path_join (out name : string) : string := out +:+ "/" +:+ name.

(** [yaml_load(p)] *)
Definition yaml_load (p : string) : P val := λ w,
  match kv_get p (w_files w) with
  | Some t => lift (load t) w
  | None => (Raised, w)
  end.

Definition write_file (p : string) (t : tree) : P unit := λ w,
  (Ret (), World (w_heap w) (kv_set p t (w_files w))
                 (w_trace w ++ [EvDump p t])).

(** [yaml_dump(data, p)] *)
Definition yaml_dump (data : val) (p : string) : P unit :=
  t ← lift (dump data); write_file p t.

(** [sh(["talosctl", "validate", "--mode=metal", "--config", p])]: the
    validator is the outside world's; it reads the file and answers with a
    return code, and a non-zero one ends the run. *)
Definition sh_validate (validator : string → option tree → Z) (p : string)
  : P unit := λ w,
  let w' := World (w_heap w) (w_files w) (w_trace w ++ [EvValidate p]) in
  let code := validator p (kv_get p (w_files w)) in
  if decide (code = 0%Z) then (Ret (), w') else (Exited code, w').

(** A [for] loop over [enumerate(l, i)] whose body appends one path to
    [generated]; the paths appended are returned. *)
Fixpoint for_enumerate {A} (f : nat → A → P string) (i : nat) (l : list A)
  : P (list string) :=
  match l with
  | [] => mret []
  | x :: r => p ← f i x; ps ← for_enumerate f (S i) r; mret (p :: ps)
  end.

Fixpoint validate_files (validator : string → option tree → Z)
    (paths : list string) : P unit :=
  match paths with
  | [] => mret ()
  | p :: r => sh_validate validator p;; validate_files validator r
  end.

Definition cp_file (out : string) (i : nat) : string :=
  path_join out ("cp" +:+ pretty i +:+ ".yaml").
Definition w_file (out : string) (i : nat) : string :=
  path_join out ("w" +:+ pretty i +:+ ".yaml").

Definition create_node_configs (validator : string → option tree → Z)
    (a : args) (out : string) : P unit :=
  cp_tpl ← yaml_load (path_join out "controlplane.yaml");
  wk_tpl ← yaml_load (path_join out "worker.yaml");
  (* control planes *)
  gen_cp ← for_enumerate (λ i ip,
      let out_file := cp_file out i in
      doc ← lift (patch_node cp_tpl ip (cidr a) (gateway a) (nameserver a)
                    (ifname a) (disk a) (vip a) (enable_ccm a));
      yaml_dump doc out_file;;
      mret out_file)
    1 (control_planes a);
  (* workers *)
  gen_wk ← for_enumerate (λ i ip,
      let out_file := w_file out i in
      doc ← lift (patch_node wk_tpl ip (cidr a) (gateway a) (nameserver a)
                    (ifname a) (disk a) None (enable_ccm a));
      yaml_dump doc out_file;;
      mret out_file)
    1 (workers a);
  validate_files validator (gen_cp ++ gen_wk).

(** The keyword arguments of one [patch_node] call. *)
Record node := Node {
  n_ip : string;
  n_cidr : string;
  n_gw : string;
  n_ns : string;
  n_ifname : string;
  n_disk : string;
  n_vip : option string;
  n_enable_ccm : bool;
}.

Definition patch (base : val) (n : node) : M val :=
  patch_node base (n_ip n) (n_cidr n) (n_gw n) (n_ns n) (n_ifname n)
    (n_disk n) (n_vip n) (n_enable_ccm n).


(** ** Reading the store: references, reachability, growth *)

Definition val_below (n : nat) (v : val) : Prop :=
  match v with
  | VRef l => l < n
  | VScal _ => True
  end.

Definition val_from (n : nat) (v : val) : Prop :=
  match v with
  | VRef l => n ≤ l
  | VScal _ => True
  end.

#[global] Instance val_below_dec n v : Decision (val_below n v).
Proof. destruct v; simpl; apply _. Defined.
#[global] Instance val_from_dec n v : Decision (val_from n v).
Proof. destruct v; simpl; apply _. Defined.

(** The values an object holds. *)
Definition obj_vals (o : obj) : list val :=
  match o with
  | ODict d => d.*2
  | OList xs => xs
  end.

(** No object holds a dangling reference. *)
Definition closed (h : heap) : Prop :=
  Forall (λ o, Forall (val_below (length h)) (obj_vals o)) h.

#[global] Instance closed_dec h : Decision (closed h).
Proof. unfold closed. apply _. Defined.

(** [reach h x l]: object [l] is [x] itself or a part of it, at any depth.
    These are the objects a mutation through [x] can change and the objects
    a reader of [x] can see. *)
Inductive reach (h : heap) : val → loc → Prop :=
| reach_here l : reach h (VRef l) l
| reach_step l o v l' :
    h !! l = Some o → v ∈ obj_vals o → reach h v l' → reach h (VRef l) l'.

(** [grown h0 h]: [h] is [h0] with new objects after it; the objects of [h0]
    are as they were, and the new ones refer to new ones only. *)
Record grown (h0 h : heap) : Prop := Grown {
  grown_len : length h0 ≤ length h;
  grown_old : ∀ l, l < length h0 → h !! l = h0 !! l;
  grown_closed : closed h;
  grown_new : ∀ l o, length h0 ≤ l → h !! l = Some o →
                Forall (val_from (length h0)) (obj_vals o);
}.

(** A value made of new objects only. *)
Definition fresh_val (h0 h : heap) (v : val) : Prop :=
  val_from (length h0) v ∧ val_below (length h) v.

(** What one step of a computation leaves behind: a larger store that has
    grown from [h0], and a result made of new objects. *)
Definition stepped (h0 h h' : heap) : Prop :=
  grown h0 h' ∧ length h ≤ length h'.

Definition memo_fresh (h0 h : heap) (memo : gmap loc loc) : Prop :=
  map_Forall (λ _ y, fresh_val h0 h (VRef y)) memo.

(** ** Reading a run *)

(** The node documents of a run, in the order of the topology: control
    planes first, then workers, each numbered from 1. *)
Definition planned_files (a : args) (out : string) : list string :=
  (cp_file out <$> seq 1 (length (control_planes a)))
  ++ (w_file out <$> seq 1 (length (workers a))).

(** One iteration of either loop of [create_node_configs]. *)
Definition dump_node (file : nat → string) (mk : string → M val)
    (i : nat) (ip : string) : P string :=
  let out_file := file i in
  doc ← lift (mk ip);
  yaml_dump doc out_file;;
  mret out_file.



(** ** patch_node read as a function on documents

    What [patch_node] does to the document its argument stands for, when
    that document is a tree (no object is shared between two places, as
    after [yaml.safe_load]). [Some] is the document returned, [None] an
    exception. The refinement theorem [patch_node_refines] relates the two. *)

Definition tstr (s : string) : tree := TScal (SStr s).
Definition tbool (b : bool) : tree := TScal (SBool b).

Definition as_tdict (t : tree) : option (list (string * tree)) :=
  match t with
  | TDict d => Some d
  | _ => None
  end.

(** [bool(t)] *)
Definition truthy_tree (t : tree) : bool :=
  match t with
  | TScal s => truthy_scalar s
  | TDict d => bool_decide (d ≠ [])
  | TList ts => bool_decide (ts ≠ [])
  end.

(** [x[k] = tv] for a freshly built [tv]. *)
Definition t_setitem (k : string) (tv : tree) (t : tree) : option tree :=
  d ← as_tdict t; Some (TDict (kv_set k tv d)).

(** [sub = x.setdefault(k, {})] followed by the statements [f] on [sub]. *)
Definition t_setdefault (k : string) (f : tree → option tree) (t : tree)
  : option tree :=
  d ← as_tdict t;
  let d := kv_setdefault k (TDict []) d in
  sub ← kv_get k d;
  sub' ← f sub;
  Some (TDict (kv_set k sub' d)).

(** [sub = x[k]] followed by the statements [f] on [sub]. *)
Definition t_getitem (k : string) (f : tree → option tree) (t : tree)
  : option tree :=
  d ← as_tdict t;
  sub ← kv_get k d;
  sub' ← f sub;
  Some (TDict (kv_set k sub' d)).

Definition t_seq (f g : tree → option tree) (t : tree) : option tree :=
  f t ≫= g.

Definition extensions_tree : tree :=
  TList [TDict [("image", tstr qemu_guest_agent_image)]].

Definition iface_base (ip cidr gw ifname : string) : list (string * tree) :=
  [("interface", tstr ifname); ("dhcp", tbool false);
   ("addresses", TList [tstr (ip +:+ "/" +:+ cidr)]);
   ("routes", TList [TDict [("network", tstr "0.0.0.0/0");
                            ("gateway", tstr gw)]])].

Definition vip_tree (vip : option string) : tree :=
  TDict [("ip", tstr (str_of vip))].

Definition iface_tree (ip cidr gw ifname : string) (vip : option string)
  : tree :=
  TDict (if truthy_str vip
         then kv_set "vip" (vip_tree vip) (iface_base ip cidr gw ifname)
         else iface_base ip cidr gw ifname).

Definition talos_api_access : tree :=
  TDict [("enabled", tbool true);
         ("allowedRoles", TList [tstr "os:reader"]);
         ("allowedKubernetesNamespaces", TList [tstr "kube-system"])].

Definition external_cloud_provider : tree :=
  TDict [("enabled", tbool true);
         ("manifests", TList [tstr ccm_manifest; tstr cert_approver_manifest])].

(** Lines 169-177: [cfg.get("cluster", {}).get("controlPlane", {})] decides. *)
Definition is_control_plane (d : list (string * tree)) : option bool :=
  c ← as_tdict (default (TDict []) (kv_get "cluster" d));
  Some (truthy_tree (default (TDict []) (kv_get "controlPlane" c))).

Definition t_cluster (t : tree) : option tree :=
  d ← as_tdict t;
  is_cp ← is_control_plane d;
  if is_cp : bool then
    t_setdefault "cluster"
      (t_setitem "externalCloudProvider" external_cloud_provider) t
  else Some t.

(** Lines 124-177, statement by statement. *)
Definition patch_tree (ip cidr gw ns ifname disk : string)
    (vip : option string) (enable_ccm : bool) : tree → option tree :=
  t_seq
    (t_setdefault "machine"
       (t_setdefault "install"
          (t_seq (t_setitem "disk" (tstr disk))
             (t_seq (t_setitem "extensions" extensions_tree)
                (t_setitem "extraKernelArgs" (TList [tstr "net.ifnames=0"]))))))
  (t_seq
    (t_getitem "machine"
       (t_setdefault "network"
          (t_seq (t_setitem "interfaces" (TList [iface_tree ip cidr gw ifname vip]))
             (t_setitem "nameservers" (TList [tstr ns])))))
  (t_seq
    (t_getitem "machine"
       (t_setdefault "kubelet"
          (t_seq (t_setdefault "extraArgs" Some)
          (t_seq (t_getitem "extraArgs"
                    (t_setitem "rotate-server-certificates" (tstr "true")))
             (if enable_ccm then
                t_getitem "extraArgs" (t_setitem "cloud-provider" (tstr "external"))
              else Some)))))
    (if enable_ccm then
       t_seq
         (t_getitem "machine"
            (t_setdefault "features"
               (t_setitem "kubernetesTalosAPIAccess" talos_api_access)))
         t_cluster
     else Some))).

(** ** Documents in the store *)

(** Nesting depth of a document. *)
Fixpoint depth (t : tree) : nat :=
  match t with
  | TScal _ => 0
  | TDict d => S (max_list ((λ kt, depth kt.2) <$> d))
  | TList ts => S (max_list (depth <$> ts))
  end.

(** A document as a YAML file gives it: no mapping has a key twice. *)
Fixpoint wf_tree (t : tree) : bool :=
  match t with
  | TScal _ => true
  | TDict d => bool_decide (NoDup (kv_keys d)) && forallb (λ kt, wf_tree kt.2) d
  | TList ts => forallb wf_tree ts
  end.

(** [repr h x t F]: in store [h] the value [x] stands for the document [t],
    whose objects are exactly those of [F]; no object occurs at two places
    of the document. *)
Inductive repr (h : heap) : val → tree → gset loc → Prop :=
| repr_scal s : repr h (VScal s) (TScal s) ∅
| repr_dict l d td F0 F :
    h !! l = Some (ODict d) → repr_kvs h d td F0 → l ∉ F0 → F = {[l]} ∪ F0 →
    repr h (VRef l) (TDict td) F
| repr_list l xs ts F0 F :
    h !! l = Some (OList xs) → repr_vs h xs ts F0 → l ∉ F0 → F = {[l]} ∪ F0 →
    repr h (VRef l) (TList ts) F
with repr_kvs (h : heap)
  : list (string * val) → list (string * tree) → gset loc → Prop :=
| repr_kvs_nil : repr_kvs h [] [] ∅
| repr_kvs_cons k v t d td F1 F2 F :
    repr h v t F1 → repr_kvs h d td F2 → F1 ## F2 → k ∉ kv_keys d →
    F = F1 ∪ F2 →
    repr_kvs h ((k, v) :: d) ((k, t) :: td) F
with repr_vs (h : heap) : list val → list tree → gset loc → Prop :=
| repr_vs_nil : repr_vs h [] [] ∅
| repr_vs_cons v t xs ts F1 F2 F :
    repr h v t F1 → repr_vs h xs ts F2 → F1 ## F2 → F = F1 ∪ F2 →
    repr_vs h (v :: xs) (t :: ts) F.

Scheme repr_mind := Minimality for repr Sort Prop
  with repr_kvs_mind := Minimality for repr_kvs Sort Prop
  with repr_vs_mind := Minimality for repr_vs Sort Prop.
Combined Scheme repr_mutind from repr_mind, repr_kvs_mind, repr_vs_mind.

(** [h'] is [h] with new objects after it and changes to objects of [S] at
    most. *)
Definition agree_off (S : gset loc) (h h' : heap) : Prop :=
  length h ≤ length h'
  ∧ ∀ l, l < length h → l ∉ S → h' !! l = h !! l.

(** The entries of a dict other than [k]. *)
Fixpoint kv_del {A} (k : string) (d : list (string * A)) : list (string * A) :=
  match d with
  | [] => []
  | (k', v) :: r => if decide (k = k') then r else (k', v) :: kv_del k r
  end.

(** ** patch_node, its statements grouped

    The statements of [patch_node] grouped by the dict they work on, with
    each literal built where it is used. [patch_node_grouped_eq] shows that
    this is [patch_node] up to the grouping of the sequence. *)

Definition build_extensions : M val :=
  ext ← new_dict [("image", vstr qemu_guest_agent_image)]; new_list [ext].

Definition build_iface (ip cidr gw ifname : string) (vip : option string) : M val :=
  iface ← (addresses ← new_list [vstr (ip +:+ "/" +:+ cidr)];
           routes ← (route ← new_dict [("network", vstr "0.0.0.0/0"); ("gateway", vstr gw)];
                     new_list [route]);
           new_dict [("interface", vstr ifname); ("dhcp", vbool false);
                     ("addresses", addresses); ("routes", routes)]);
  (if truthy_str vip then
     v ← new_dict [("ip", vstr (str_of vip))]; dict_setitem iface "vip" v
   else mret ());;
  mret iface.

Definition build_access : M val :=
  roles ← new_list [vstr "os:reader"];
  nspaces ← new_list [vstr "kube-system"];
  new_dict [("enabled", vbool true); ("allowedRoles", roles);
            ("allowedKubernetesNamespaces", nspaces)].

Definition build_ecp : M val :=
  manifests ← new_list [vstr ccm_manifest; vstr cert_approver_manifest];
  new_dict [("enabled", vbool true); ("manifests", manifests)].

Definition cluster_stmts (cfg : val) : M unit :=
  e ← new_dict [];
  c ← dict_get cfg "cluster" e;
  e ← new_dict [];
  cp ← dict_get c "controlPlane" e;
  is_cp ← truthy cp;
  if is_cp : bool then
    e ← new_dict [];
    cluster ← dict_setdefault cfg "cluster" e;
    (v ← build_ecp; dict_setitem cluster "externalCloudProvider" v)
  else mret ().

Definition patch_stmts (cfg : val) (ip cidr gw ns ifname disk : string)
    (vip : option string) (enable_ccm : bool) : M unit :=
  (e ← new_dict [];
   machine ← dict_setdefault cfg "machine" e;
   e ← new_dict [];
   install_config ← dict_setdefault machine "install" e;
   (v ← mret (vstr disk); dict_setitem install_config "disk" v);;
   (v ← build_extensions; dict_setitem install_config "extensions" v);;
   (v ← new_list [vstr "net.ifnames=0"]; dict_setitem install_config "extraKernelArgs" v));;
  (machine ← dict_getitem cfg "machine";
   e ← new_dict [];
   mnet ← dict_setdefault machine "network" e;
   (v ← (iface ← build_iface ip cidr gw ifname vip; new_list [iface]);
    dict_setitem mnet "interfaces" v);;
   (v ← new_list [vstr ns]; dict_setitem mnet "nameservers" v));;
  (machine ← dict_getitem cfg "machine";
   e ← new_dict [];
   kubelet ← dict_setdefault machine "kubelet" e;
   (e ← new_dict []; _ ← dict_setdefault kubelet "extraArgs" e; mret ());;
   (extra ← dict_getitem kubelet "extraArgs";
    v ← mret (vstr "true"); dict_setitem extra "rotate-server-certificates" v);;
   (if enable_ccm then
      extra ← dict_getitem kubelet "extraArgs";
      v ← mret (vstr "external"); dict_setitem extra "cloud-provider" v
    else mret ()));;
  (if enable_ccm then
     (machine ← dict_getitem cfg "machine";
      e ← new_dict [];
      features ← dict_setdefault machine "features" e;
      v ← build_access; dict_setitem features "kubernetesTalosAPIAccess" v);;
     cluster_stmts cfg
   else mret ()).

Definition patch_node_grouped (base : val) (ip cidr gw ns ifname disk : string)
    (vip : option string) (enable_ccm : bool) : M val :=
  cfg ← deepcopy base;
  patch_stmts cfg ip cidr gw ns ifname disk vip enable_ccm;;
  mret cfg.

(** Computations that agree on every store. *)
Definition eqM {A} (m1 m2 : M A) : Prop := ∀ h, m1 h = m2 h.


(** [builds m t]: [m] builds a new value that stands for [t] and changes no
    object there was. *)
Definition builds (m : M val) (t : tree) : Prop :=
  ∀ h, ∃ v h' F,
    m h = Some (v, h') ∧ repr h' v t F ∧ agree_off ∅ h h'
    ∧ ∀ l, l ∈ F → length h ≤ l.

(** [updates m x f]: run where [x] stands for a document [t], [m] turns [x]
    into a value standing for [f t], changing only objects of [t] and using
    new ones besides; and [m] raises exactly when [f t] is [None]. *)
Definition updates (m : M unit) (x : val) (f : tree → option tree) : Prop :=
  ∀ h t F, repr h x t F →
    match f t with
    | Some t' =>
        ∃ h' F', m h = Some ((), h') ∧ repr h' x t' F' ∧ agree_off F h h'
                 ∧ ∀ l, l ∈ F' → l ∈ F ∨ length h ≤ l
    | None => m h = None
    end.

(** ** Reading a document *)

Inductive step :=
| Key (k : string)
| Idx (i : nat).

(** The part of document [t] at path [p]. *)
Fixpoint tree_at (t : tree) (p : list step) : option tree :=
  match p with
  | [] => Some t
  | Key k :: p =>
      match t with
      | TDict d => kv_get k d ≫= λ t', tree_at t' p
      | _ => None
      end
  | Idx i :: p =>
      match t with
      | TList ts => ts !! i ≫= λ t', tree_at t' p
      | _ => None
      end
  end.

(** The sub-paths [patch_node] writes under: machine.install,
    machine.network, machine.kubelet, machine.features and
    cluster.externalCloudProvider. *)
Definition touched_paths : list (list step) :=
  [[Key "machine"; Key "install"];
   [Key "machine"; Key "network"];
   [Key "machine"; Key "kubelet"];
   [Key "machine"; Key "features"];
   [Key "cluster"; Key "externalCloudProvider"]].

(** A path neither inside a touched sub-path nor leading to one. *)
Definition outside (p : list step) : Prop :=
  ∀ q, q ∈ touched_paths → ¬ q `prefix_of` p ∧ ¬ p `prefix_of` q.

(** [frame_on Q f]: [f] leaves the document as it is at every path of [Q]. *)
Definition frame_on (Q : list step → Prop) (f : tree → option tree) : Prop :=
  ∀ t t', f t = Some t' → ∀ p, Q p → tree_at t' p = tree_at t p.

(** [sets p x f]: after [f] the document holds [x] at path [p]. *)
Definition sets (p : list step) (x : tree) (f : tree → option tree) : Prop :=
  ∀ t t', f t = Some t' → tree_at t' p = Some x.

(** The single network interface of a node document. *)
Definition interface_of (doc : tree) : option (list (string * tree)) :=
  match tree_at doc [Key "machine"; Key "network"; Key "interfaces"] with
  | Some (TList [TDict iface]) => Some iface
  | _ => None
  end.

(** The document has one interface, with a VIP block of exactly [v]. *)
Definition has_vip (v : string) (doc : tree) : Prop :=
  ∃ iface, interface_of doc = Some iface
           ∧ kv_get "vip" iface = Some (TDict [("ip", tstr v)]).

(** The document has one interface, without a VIP block. *)
Definition no_vip (doc : tree) : Prop :=
  ∃ iface, interface_of doc = Some iface ∧ kv_get "vip" iface = None.



(** The cluster-level external-cloud-provider block, if any. *)
Definition ecp_block (doc : tree) : option tree :=
  tree_at doc [Key "cluster"; Key "externalCloudProvider"].


(** ** Reading a run's trace *)

(** [run_writes a out tr0 tr cp_docs wk_docs]: the run extended the trace
    [tr0] to [tr] by writing [cp_docs] to the first control-plane files,
    then [wk_docs] to the first worker files, and then calling the
    validator on some of the planned files, in order. *)
Definition run_writes (a : args) (out : string) (tr0 tr : list event)
    (cp_docs wk_docs : list tree) : Prop :=
  ∃ m,
    tr = tr0
         ++ zip_with EvDump (cp_file out <$> seq 1 (length (control_planes a))) cp_docs
         ++ zip_with EvDump (w_file out <$> seq 1 (length (workers a))) wk_docs
         ++ (EvValidate <$> take m (planned_files a out))
    ∧ length cp_docs ≤ length (control_planes a)
    ∧ length wk_docs ≤ length (workers a)
    ∧ (wk_docs ≠ [] → length cp_docs = length (control_planes a)).

(** The output directory holds the two templates, as YAML documents. *)
Definition templates (out : string) (w : world) (cp_tpl wk_tpl : tree) : Prop :=
  kv_get (path_join out "controlplane.yaml") (w_files w) = Some cp_tpl
  ∧ kv_get (path_join out "worker.yaml") (w_files w) = Some wk_tpl
  ∧ wf_tree cp_tpl = true ∧ wf_tree wk_tpl = true.


(** ** patch_node in closed form *)

Definition is_tdict (t : tree) : bool :=
  match t with
  | TDict _ => true
  | _ => false
  end.

(** What [t.setdefault(k, {})] returns ([{}] also where [t] is no mapping,
    which the callers rule out first). *)
Definition section (k : string) (t : tree) : tree :=
  match t with
  | TDict d => default (TDict []) (kv_get k d)
  | _ => TDict []
  end.

(** The template and each section [patch_node] enters is a mapping, where
    present: machine, machine.install, machine.network, machine.kubelet and
    machine.kubelet.extraArgs, and with CCM enabled machine.features and
    cluster as well. *)
Definition patchable (enable_ccm : bool) (t : tree) : bool :=
  is_tdict t
  && is_tdict (section "machine" t)
  && is_tdict (section "install" (section "machine" t))
  && is_tdict (section "network" (section "machine" t))
  && is_tdict (section "kubelet" (section "machine" t))
  && is_tdict (section "extraArgs" (section "kubelet" (section "machine" t)))
  && (if enable_ccm
      then is_tdict (section "features" (section "machine" t))
           && is_tdict (section "cluster" t)
      else true).

Definition install_closed (disk : string) (i : list (string * tree))
  : list (string * tree) :=
  kv_set "extraKernelArgs" (TList [tstr "net.ifnames=0"])
    (kv_set "extensions" extensions_tree (kv_set "disk" (tstr disk) i)).

Definition network_closed (ip cidr gw ns ifname : string) (vip : option string)
    (nw : list (string * tree)) : list (string * tree) :=
  kv_set "nameservers" (TList [tstr ns])
    (kv_set "interfaces" (TList [iface_tree ip cidr gw ifname vip]) nw).

Definition extra_args_closed (enable_ccm : bool) (ea : list (string * tree))
  : list (string * tree) :=
  let ea := kv_set "rotate-server-certificates" (tstr "true") ea in
  if enable_ccm then kv_set "cloud-provider" (tstr "external") ea else ea.

Definition machine_closed (ip cidr gw ns ifname disk : string)
    (vip : option string) (enable_ccm : bool) (m i nw k ea ft : list (string * tree))
  : list (string * tree) :=
  let m :=
    kv_set "kubelet"
      (TDict (kv_set "extraArgs" (TDict (extra_args_closed enable_ccm ea)) k))
      (kv_set "network" (TDict (network_closed ip cidr gw ns ifname vip nw))
         (kv_set "install" (TDict (install_closed disk i)) m)) in
  if enable_ccm
  then kv_set "features"
         (TDict (kv_set "kubernetesTalosAPIAccess" talos_api_access ft)) m
  else m.

(** The document [patch_node] returns, section by section: every test for a
    mapping first, then each section with its keys set. *)
Definition patch_closed (ip cidr gw ns ifname disk : string)
    (vip : option string) (enable_ccm : bool) (t : tree) : option tree :=
  d ← as_tdict t;
  m ← as_tdict (section "machine" t);
  i ← as_tdict (section "install" (TDict m));
  nw ← as_tdict (section "network" (TDict m));
  k ← as_tdict (section "kubelet" (TDict m));
  ea ← as_tdict (section "extraArgs" (TDict k));
  ft ← (if enable_ccm then as_tdict (section "features" (TDict m)) else Some []);
  c ← (if enable_ccm then as_tdict (section "cluster" t) else Some []);
  let d' :=
    kv_set "machine"
      (TDict (machine_closed ip cidr gw ns ifname disk vip enable_ccm m i nw k ea ft))
      d in
  Some (TDict (if enable_ccm && truthy_tree (section "controlPlane" (TDict c))
               then kv_set "cluster"
                      (TDict (kv_set "externalCloudProvider"
                                external_cloud_provider c)) d'
               else d')).



(** The keys of the mapping at [p], in order. *)
Definition keys_at (t : tree) (p : list step) : option (list string) :=
  match tree_at t p with
  | Some (TDict d) => Some (kv_keys d)
  | _ => None
  end.

(** The keys of a mapping after the keys [new] are set one after the other:
    a key already present keeps its place, a new one goes to the end. *)
Definition add_keys (ks new : list string) : list string :=
  foldl (λ ks k, if decide (k ∈ ks) then ks else ks ++ [k]) ks new.

Definition keys_of (t : tree) : list string :=
  match t with
  | TDict d => kv_keys d
  | _ => []
  end.

(** The key order of the document [t'] patched from [t]: in each mapping
    [patch_node] enters, the keys of the template in their order, then the
    keys it sets that were not there, in the order of the assignments. *)
Definition key_order (enable_ccm : bool) (t t' : tree) : Prop :=
  let cp := enable_ccm
            && truthy_tree (section "controlPlane" (section "cluster" t)) in
  let m := section "machine" t in
  keys_at t' []
  = Some (add_keys (keys_of t) ("machine" :: if cp then ["cluster"] else []))
  ∧ keys_at t' [Key "machine"]
    = Some (add_keys (keys_of m)
              (["install"; "network"; "kubelet"]
               ++ if enable_ccm then ["features"] else []))
  ∧ keys_at t' [Key "machine"; Key "install"]
    = Some (add_keys (keys_of (section "install" m))
              ["disk"; "extensions"; "extraKernelArgs"])
  ∧ keys_at t' [Key "machine"; Key "network"]
    = Some (add_keys (keys_of (section "network" m))
              ["interfaces"; "nameservers"])
  ∧ keys_at t' [Key "machine"; Key "kubelet"]
    = Some (add_keys (keys_of (section "kubelet" m)) ["extraArgs"])
  ∧ keys_at t' [Key "machine"; Key "kubelet"; Key "extraArgs"]
    = Some (add_keys (keys_of (section "extraArgs" (section "kubelet" m)))
              ("rotate-server-certificates"
               :: if enable_ccm then ["cloud-provider"] else []))
  ∧ (enable_ccm = true →
     keys_at t' [Key "machine"; Key "features"]
     = Some (add_keys (keys_of (section "features" m))
               ["kubernetesTalosAPIAccess"]))
  ∧ (cp = true →
     keys_at t' [Key "cluster"]
     = Some (add_keys (keys_of (section "cluster" t))
               ["externalCloudProvider"])).

(** The single interface [patch_node] builds (lines 138-146). *)
Definition interface_doc (ip cidr gw ifname : string) (vip : option string)
  : tree :=
  TDict ([("interface", tstr ifname);
          ("dhcp", tbool false);
          ("addresses", TList [tstr (ip +:+ "/" +:+ cidr)]);
          ("routes", TList [TDict [("network", tstr "0.0.0.0/0");
                                   ("gateway", tstr gw)]])]
         ++ (if truthy_str vip
             then [("vip", TDict [("ip", tstr (str_of vip))])]
             else [])).

(** The fields every patched document has. *)
Definition node_fields (n : node) (doc : tree) : Prop :=
  tree_at doc [Key "machine"; Key "install"; Key "disk"] = Some (tstr (n_disk n))
  ∧ tree_at doc [Key "machine"; Key "install"; Key "extensions"]
    = Some (TList [TDict [("image", tstr "ghcr.io/siderolabs/qemu-guest-agent:9.2.0")]])
  ∧ tree_at doc [Key "machine"; Key "install"; Key "extraKernelArgs"]
    = Some (TList [tstr "net.ifnames=0"])
  ∧ tree_at doc [Key "machine"; Key "network"; Key "interfaces"]
    = Some (TList [interface_doc (n_ip n) (n_cidr n) (n_gw n) (n_ifname n) (n_vip n)])
  ∧ tree_at doc [Key "machine"; Key "network"; Key "nameservers"]
    = Some (TList [tstr (n_ns n)])
  ∧ tree_at doc [Key "machine"; Key "kubelet"; Key "extraArgs";
                 Key "rotate-server-certificates"]
    = Some (tstr "true").

(** ** The documents and files of a run *)

(** The document [patch_node] returns for node [n] on a freshly loaded
    template ([None] when it raises). *)
Definition patched_doc (tpl : tree) (n : node) : option tree :=
  fst <$> (base ← load tpl; d ← patch base n; dump d) [].

Definition cp_node (a : args) (ip : string) : node :=
  Node ip (cidr a) (gateway a) (nameserver a) (ifname a) (disk a) (vip a)
       (enable_ccm a).

Definition worker_node (a : args) (ip : string) : node :=
  Node ip (cidr a) (gateway a) (nameserver a) (ifname a) (disk a) None
       (enable_ccm a).

(** Writing the documents [docs] to the files [paths], in order. *)
Definition write_all (paths : list string) (docs : list tree)
    (files : list (string * tree)) : list (string * tree) :=
  foldl (λ fs pt, kv_set pt.1 pt.2 fs) files (zip paths docs).

(** ** The comma-separated address lists (lines 320-321)

    [[s.strip() for s in x.split(",") if s.strip()]]. The characters that
    [str.strip] removes are those of Python's whitespace table, which the
    definitions take as the parameter [isspace]. *)

(** [s.split(c)] for a one-character separator. *)
Fixpoint split_on (c : ascii) (s : string) : list string :=
  match s with
  | "" => [""]
  | String a r =>
      if decide (a = c) then "" :: split_on c r
      else match split_on c r with
           | p :: ps => String a p :: ps
           | [] => [String a ""]
           end
  end.

Fixpoint lstrip (isspace : ascii → bool) (s : string) : string :=
  match s with
  | "" => ""
  | String a r => if isspace a then lstrip isspace r else s
  end.

Fixpoint rstrip (isspace : ascii → bool) (s : string) : string :=
  match s with
  | "" => ""
  | String a r =>
      match rstrip isspace r with
      | "" => if isspace a then "" else String a ""
      | r' => String a r'
      end
  end.

(** [s.strip()] *)
Definition strip (isspace : ascii → bool) (s : string) : string :=
  lstrip isspace (rstrip isspace s).

Definition csv_items (isspace : ascii → bool) (x : string) : list string :=
  filter (λ s, s ≠ "") (strip isspace <$> split_on "," x).

(** [sep.join(l)] *)
Fixpoint str_join (sep : string) (l : list string) : string :=
  match l with
  | [] => ""
  | [x] => x
  | x :: r => x +:+ sep +:+ str_join sep r
  end.

Fixpoint has_char (c : ascii) (s : string) : bool :=
  match s with
  | "" => false
  | String a r => bool_decide (a = c) || has_char c r
  end.

Definition first_char (s : string) : option ascii :=
  match s with
  | "" => None
  | String a _ => Some a
  end.

Fixpoint last_char (s : string) : option ascii :=
  match s with
  | "" => None
  | String a "" => Some a
  | String _ r => last_char r
  end.

(** An item as [csv_items] returns them: not empty, without a comma, and
    without whitespace at either end. *)
Definition clean_item (isspace : ascii → bool) (s : string) : Prop :=
  s ≠ "" ∧ has_char "," s = false
  ∧ (∀ a, first_char s = Some a → isspace a = false)
  ∧ (∀ a, last_char s = Some a → isspace a = false).

(** ** gen_base_configs (lines 56-106) *)

(** [xs[z]], with Python's negative indices. *)
Definition list_index {A} (xs : list A) (z : Z) : option A :=
  if decide (0 ≤ z)%Z then xs !! Z.to_nat z
  else if decide (- Z.of_nat (length xs) ≤ z)%Z
       then xs !! Z.to_nat (Z.of_nat (length xs) + z)
       else None.

(** A value used as a sequence index: an [int], or a [bool] (which is one). *)
Definition as_index (k : val) : option Z :=
  match k with
  | VScal (SInt z) => Some z
  | VScal (SBool b) => Some (if b then 1 else 0)%Z
  | _ => None
  end.

(** [x[k]] where the subscript [k] is a value: a key of a dict, an index
    into a list or a string; anything else raises. *)
Definition subscript (x k : val) : M val :=
  match x with
  | VRef l =>
      o ← read l;
      match o with
      | ODict d =>
          match k with
          | VScal (SStr s) =>
              match kv_get s d with
              | Some v => mret v
              | None => raise
              end
          | _ => raise
          end
      | OList xs =>
          match as_index k ≫= list_index xs with
          | Some v => mret v
          | None => raise
          end
      end
  | VScal (SStr s) =>
      match as_index k ≫= list_index (String.list_ascii_of_string s) with
      | Some c => mret (VScal (SStr (String c "")))
      | None => raise
      end
  | VScal _ => raise
  end.

(** [for k in d: body] over the dict at [l], from its [i]-th key on: a dict
    whose size has changed since the loop began ([n]) raises. *)
Fixpoint for_dict (fuel : nat) (l : loc) (n i : nat) (body : val → M unit)
  : M unit :=
  '(_, d) ← as_dict (VRef l);
  if decide (length d = n) then
    match d !! i, fuel with
    | Some (k, _), S fuel =>
        body (VScal (SStr k));; for_dict fuel l n (S i) body
    | Some _, 0 => raise
    | None, _ => mret ()
    end
  else raise.

(** [for x in xs: body] over the list at [l], from its [i]-th item on. The
    bodies of this script never change the length of a list, so the items
    left are at most [fuel]. *)
Fixpoint for_list (fuel : nat) (l : loc) (i : nat) (body : val → M unit)
  : M unit :=
  '(_, xs) ← as_list (VRef l);
  match xs !! i, fuel with
  | Some x, S fuel => body x;; for_list fuel l (S i) body
  | Some _, 0 => raise
  | None, _ => mret ()
  end.

(** [for x in v: body]: the keys of a dict, the items of a list, the
    characters of a string; other values are not iterable. *)
Definition for_in (x : val) (body : val → M unit) : M unit :=
  match x with
  | VRef l =>
      o ← read l;
      match o with
      | ODict d => for_dict (length d) l (length d) 0 body
      | OList xs => for_list (length xs) l 0 body
      end
  | VScal (SStr s) =>
      foldM (λ _ c, body (VScal (SStr (String c "")))) ()
            (String.list_ascii_of_string s)
  | VScal _ => raise
  end.

(** Line 103: [config["contexts"][context_name]["insecure"] = True]. *)
Definition mark_body (config context_name : val) : M unit :=
  c ← dict_getitem config "contexts";
  ctx ← subscript c context_name;
  dict_setitem ctx "insecure" (vbool true).

(** Lines 102-103. *)
Definition mark_insecure (config : val) : M unit :=
  e ← new_dict [];
  ctxs ← dict_get config "contexts" e;
  for_in ctxs (mark_body config).

(** The outside world's [talosctl gen config]: from the command line and the
    files, a return code and the files afterwards. *)
Definition sh_gen
    (talosctl : list string → list (string * tree) → Z * list (string * tree))
    (cmd : list string) : P unit := λ w,
  let r := talosctl cmd (w_files w) in
  let w' := World (w_heap w) r.2 (w_trace w) in
  if decide (r.1 = 0%Z) then (Ret (), w') else (Exited r.1, w').

(** [p.exists()] *)
Definition file_exists (p : string) : P bool := λ w,
  (Ret (bool_decide (is_Some (kv_get p (w_files w)))), w).

(** An expression that may raise. *)
Definition lift_option {A} (o : option A) : P A := λ w,
  match o with
  | Some a => (Ret a, w)
  | None => (Raised, w)
  end.

Definition gen_base_configs
    (talosctl : list string → list (string * tree) → Z * list (string * tree))
    (a : args) (out : string) (bootstrap_phase : bool) : P unit :=
  cmd ← lift_option (gen_config_cmd a out bootstrap_phase);
  sh_gen talosctl cmd;;
  let talosconfig_path := path_join out "talosconfig" in
  present ← file_exists talosconfig_path;
  if present : bool then
    config ← yaml_load talosconfig_path;
    lift (mark_insecure config);;
    yaml_dump config talosconfig_path;;
    yaml_dump config (path_join out "talosconfig.insecure")
  else mret ().

(** *** The talosconfig read as a document *)

(** Lines 102-103 on a document, one context after the other. *)
Fixpoint mark_keys (ks : list string) (t : tree) : option tree :=
  match ks with
  | [] => Some t
  | k :: ks =>
      t_getitem k (t_setitem "insecure" (tbool true)) t ≫= mark_keys ks
  end.

(** The document has no contexts or a mapping of contexts. *)
Definition contexts_mapping (t : tree) : bool :=
  match t with
  | TDict d =>
      match kv_get "contexts" d with
      | None | Some (TDict _) => true
      | Some _ => false
      end
  | _ => false
  end.

Definition mark_insecure_tree (t : tree) : option tree :=
  d ← as_tdict t;
  match kv_get "contexts" d with
  | Some (TDict cs) => t_getitem "contexts" (mark_keys (kv_keys cs)) t
  | _ => Some t
  end.

(** Every context of the document is a mapping. *)
Definition contexts_ok (t : tree) : bool :=
  match t with
  | TDict d =>
      match kv_get "contexts" d with
      | Some (TDict cs) => forallb (λ kc, is_tdict kc.2) cs
      | _ => true
      end
  | _ => true
  end.

(** All contexts marked at once. *)
Definition mark_all (cs : list (string * tree)) : option (list (string * tree)) :=
  mapM (λ kc, c ← as_tdict kc.2;
              Some (kc.1, TDict (kv_set "insecure" (tbool true) c))) cs.

(** A path to the insecure flag of a context, or into it. *)
Definition insecure_path (p : list step) : Prop :=
  ∃ k rest, p = Key "contexts" :: Key k :: Key "insecure" :: rest.

(** A path from the root down to a context. *)
Definition context_path (p : list step) : Prop :=
  p = [] ∨ p = [Key "contexts"] ∨ ∃ k, p = [Key "contexts"; Key k].

(** ** main (lines 240-390), from the parsed arguments on

    [cli] is the namespace [ap.parse_args()] returns. The texts printed are
    left out; of lines 336-374 the model keeps that the Bootstrap text reads
    [a.control_planes[0]]. *)

Record cli := Cli {
  c_cluster_name : string;
  c_endpoint : option string;
  c_vip : option string;
  c_control_planes : option string;
  c_workers : option string;
  c_gateway : option string;
  c_nameserver : string;
  c_talos_version : string;
  c_cidr : string;
  c_ifname : string;
  c_disk : string;
  c_out : string;
  c_force : bool;
  c_bootstrap_phase : bool;
  c_ha_phase : bool;
  c_enable_ccm : bool;
}.

(** What the script asks of its surroundings: Python's whitespace table,
    the file system ([Path.resolve], [Path.exists], and the files left by
    [shutil.rmtree], whether or not it raised [OSError]) and the two
    [talosctl] commands. *)
Record outer := Outer {
  o_isspace : ascii → bool;
  o_resolve : string → string;
  o_exists : string → bool;
  o_rmtree : string → list (string * tree) → list (string * tree);
  o_talosctl : list string → list (string * tree) → Z * list (string * tree);
  o_validator : string → option tree → Z;
}.

(** Lines 298-299. *)
Definition missing_args (c : cli) : list string :=
  (match c_endpoint c with None => ["endpoint"] | Some _ => [] end)
  ++ (match c_control_planes c with None => ["control_planes"] | Some _ => [] end)
  ++ (match c_workers c with None => ["workers"] | Some _ => [] end)
  ++ (match c_gateway c with None => ["gateway"] | Some _ => [] end).

(** [sys.exit(code)] *)
Definition exit_with {A} (code : Z) : P A := λ w, (Exited code, w).

(** Lines 306-317: an existing output directory ends the run unless
    [--force] is given; a failing [rmtree] or [mkdir] is only reported. *)
Definition prepare_out (o : outer) (force : bool) (out : string) : P unit :=
  λ w,
    if o_exists o out then
      if force
      then (Ret (), World (w_heap w) (o_rmtree o out (w_files w)) (w_trace w))
      else (Exited 1%Z, w)
    else (Ret (), w).

(** The namespace after lines 320-321. *)
Definition parsed_args (o : outer) (c : cli) (endpoint cps wks gw : string)
  : args := {|
  cluster_name := c_cluster_name c;
  endpoint := endpoint;
  vip := c_vip c;
  control_planes := csv_items (o_isspace o) cps;
  workers := csv_items (o_isspace o) wks;
  gateway := gw;
  nameserver := c_nameserver c;
  talos_version := c_talos_version c;
  cidr := c_cidr c;
  ifname := c_ifname c;
  disk := c_disk c;
  enable_ccm := c_enable_ccm c;
|}.

(** Line 324. *)
Definition phase_of (c : cli) : bool := c_bootstrap_phase c || negb (c_ha_phase c).

Definition main_run (o : outer) (c : cli) : P unit :=
  match c_endpoint c, c_control_planes c, c_workers c, c_gateway c with
  | Some endpoint, Some cps, Some wks, Some gw =>
      let out := o_resolve o (c_out c) in
      prepare_out o (c_force c) out;;
      let a := parsed_args o c endpoint cps wks gw in
      let bootstrap_phase := phase_of c in
      gen_base_configs (o_talosctl o) a out bootstrap_phase;;
      create_node_configs (o_validator o) a out;;
      if bootstrap_phase
      then _ ← lift_option (head (control_planes a)); mret ()
      else mret ()
  | _, _, _, _ => exit_with 2%Z
  end.

(** The talosconfig in [files], if any, can be made insecure. *)
Definition talosconfig_ok (out : string) (files : list (string * tree)) : Prop :=
  match kv_get (path_join out "talosconfig") files with
  | None => True
  | Some T => wf_tree T = true ∧ contexts_mapping T = true ∧ contexts_ok T = true
  end.

(** ** Example inputs *)

(** The end-to-end example of the specification. *)
Definition ex_args : args := {|
  cluster_name := "my-k8s-cluster";
  endpoint := "10.0.0.11:6443";
  vip := Some "10.0.0.10";
  control_planes := ["10.0.0.11"; "10.0.0.12"; "10.0.0.13"];
  workers := ["10.0.0.21"; "10.0.0.22"];
  gateway := "10.0.0.1";
  nameserver := "1.1.1.1";
  talos_version := "v1.10.2";
  cidr := "24";
  ifname := "ens18";
  disk := "/dev/vda";
  enable_ccm := false;
|}.

Definition with_vip (v : option string) (a : args) : args := {|
  cluster_name := cluster_name a;
  endpoint := endpoint a;
  vip := v;
  control_planes := control_planes a;
  workers := workers a;
  gateway := gateway a;
  nameserver := nameserver a;
  talos_version := talos_version a;
  cidr := cidr a;
  ifname := ifname a;
  disk := disk a;
  enable_ccm := enable_ccm a;
|}.


(** A store with a template that shares one object under two keys and
    contains itself:
    [{"machine": m, "backup": m, "self": <the template>}] with
    [m = {"install": {}}]. *)
Definition ex_shared_heap : heap :=
  [ODict [("machine", VRef 1); ("backup", VRef 1); ("self", VRef 0)];
   ODict [("install", VRef 2)];
   ODict []].

Definition ex_node (ip : string) : node :=
  Node ip "24" "10.0.0.1" "1.1.1.1" "ens18" "/dev/vda" (Some "10.0.0.10") true.

Definition always_valid : string → option tree → Z := λ _ _, 0%Z.

Definition ex_cp_template : tree :=
  TDict [("version", TScal (SStr "v1alpha1"));
         ("machine", TDict [("type", TScal (SStr "controlplane"));
                            ("certSANs", TList [TScal (SStr "10.0.0.10")]);
                            ("network", TDict []);
                            ("install", TDict [("image", TScal (SStr "ghcr.io/siderolabs/installer:v1.10.2"));
                                               ("wipe", TScal (SBool false))])]);
         ("cluster", TDict [("clusterName", TScal (SStr "my-k8s-cluster"));
                            ("controlPlane", TDict [("endpoint", TScal (SStr "https://10.0.0.11:6443"))]);
                            ("etcd", TDict [])])].

Definition ex_worker_template : tree :=
  TDict [("version", TScal (SStr "v1alpha1"));
         ("machine", TDict [("type", TScal (SStr "worker"));
                            ("network", TDict []);
                            ("install", TDict [("image", TScal (SStr "ghcr.io/siderolabs/installer:v1.10.2"))])]);
         ("cluster", TDict [("clusterName", TScal (SStr "my-k8s-cluster"));
                            ("controlPlane", TDict [("endpoint", TScal (SStr "https://10.0.0.11:6443"))])])].

(** The output directory after [gen_base_configs]. *)
Definition ex_world : world :=
  World [] [("out/controlplane.yaml", ex_cp_template);
            ("out/worker.yaml", ex_worker_template)] [].

(** A template without a cluster section. *)
Definition ex_bare_template : tree :=
  TDict [("version", TScal (SStr "v1alpha1"));
         ("machine", TDict [("type", TScal (SStr "controlplane"))])].




(** A template whose machine section is null. *)
Definition ex_null_machine_template : tree :=
  TDict [("version", TScal (SStr "v1alpha1")); ("machine", TScal SNone)].


(** A talosconfig as [talosctl gen config] writes it, and a run of
    [talosctl] that leaves it with the two templates. *)
Definition ex_talosconfig : tree :=
  TDict [("context", TScal (SStr "my-k8s-cluster"));
         ("contexts",
          TDict [("my-k8s-cluster",
                  TDict [("endpoints", TList []);
                         ("ca", TScal (SStr "LS0t"));
                         ("crt", TScal (SStr "LS0t"));
                         ("key", TScal (SStr "LS0t"))])])].

Definition ex_talosctl (cmd : list string) (files : list (string * tree))
  : Z * list (string * tree) :=
  (0%Z, [("out/controlplane.yaml", ex_cp_template);
         ("out/worker.yaml", ex_worker_template);
         ("out/talosconfig", ex_talosconfig)]).

(** A talosconfig with a context that is not a mapping. *)
Definition ex_bad_talosconfig : tree :=
  TDict [("context", TScal (SStr "c"));
         ("contexts", TDict [("c", TScal SNone)])].

Definition ex_bad_talosctl (cmd : list string) (files : list (string * tree))
  : Z * list (string * tree) :=
  (0%Z, [("out/talosconfig", ex_bad_talosconfig)]).

(** The command line of the specification's example, and surroundings in
    which the output directory does not exist. *)
Definition ex_cli : cli := {|
  c_cluster_name := "my-k8s-cluster";
  c_endpoint := Some "10.0.0.11:6443";
  c_vip := Some "10.0.0.10";
  c_control_planes := Some "10.0.0.11,10.0.0.12,10.0.0.13";
  c_workers := Some "10.0.0.21, 10.0.0.22";
  c_gateway := Some "10.0.0.1";
  c_nameserver := "1.1.1.1";
  c_talos_version := "v1.10.2";
  c_cidr := "24";
  c_ifname := "ens18";
  c_disk := "/dev/vda";
  c_out := "out";
  c_force := false;
  c_bootstrap_phase := false;
  c_ha_phase := false;
  c_enable_ccm := false;
|}.

Definition ex_outer : outer := {|
  o_isspace := λ a, bool_decide (a = " "%char);
  o_resolve := λ p, p;
  o_exists := λ _, false;
  o_rmtree := λ _ files, files;
  o_talosctl := ex_talosctl;
  o_validator := always_valid;
|}.
(* ===================================================================== *)
(** * Properties *)
(* ===================================================================== *)

(** ** Association lists *)

Section kv_facts.
Context {A : Type}.
Implicit Types (k : string) (d : list (string * A)).

Lemma kv_get_set_eq k v d : kv_get k (kv_set k v d) = Some v.
Proof.
  induction d as [|[k' v'] r IH]; simpl; repeat case_decide; simpl;
    repeat case_decide; congruence.
Qed.

Lemma kv_get_set_ne k k' v d : k ≠ k' → kv_get k' (kv_set k v d) = kv_get k' d.
Proof.
  intros Hne. induction d as [|[k0 v0] r IH]; simpl; repeat case_decide; simpl;
    repeat case_decide; congruence.
Qed.

Lemma kv_get_None k d : kv_get k d = None ↔ k ∉ kv_keys d.
Proof.
  unfold kv_keys. induction d as [|[k' v'] r IH]; simpl.
  - split; [intros _; apply not_elem_of_nil | done].
  - rewrite not_elem_of_cons. case_decide; split; try done; naive_solver.
Qed.

Lemma kv_set_absent k v d : k ∉ kv_keys d → kv_set k v d = d ++ [(k, v)].
Proof.
  unfold kv_keys. induction d as [|[k' v'] r IH]; simpl; [done|].
  rewrite not_elem_of_cons. intros [Hne Hr]. case_decide; [done|].
  by rewrite IH.
Qed.

Lemma kv_keys_set_present k v d : k ∈ kv_keys d → kv_keys (kv_set k v d) = kv_keys d.
Proof.
  unfold kv_keys. induction d as [|[k' v'] r IH]; simpl.
  - intros H. by apply elem_of_nil in H.
  - rewrite elem_of_cons. intros H. case_decide; simpl; [done|].
    f_equal. apply IH. naive_solver.
Qed.

Lemma kv_keys_set k v d :
  kv_keys (kv_set k v d) =
  if decide (k ∈ kv_keys d) then kv_keys d else kv_keys d ++ [k].
Proof.
  case_decide as Hin.
  - by apply kv_keys_set_present.
  - rewrite kv_set_absent by done. unfold kv_keys. by rewrite fmap_app.
Qed.

Lemma kv_set_NoDup k v d : NoDup (kv_keys d) → NoDup (kv_keys (kv_set k v d)).
Proof.
  intros Hnd. rewrite kv_keys_set. case_decide; [done|].
  apply NoDup_app. split_and!; [done| |apply NoDup_singleton].
  intros x Hx ->%list_elem_of_singleton. done.
Qed.
End kv_facts.

(** ** EndpointResolver *)

Lemma keep_first_seen_ext s1 s2 l :
  (∀ x, x ∈ s1 ↔ x ∈ s2) → keep_first_seen s1 l = keep_first_seen s2 l.
Proof.
  revert s1 s2. induction l as [|x r IH]; intros s1 s2 Hs; simpl; [done|].
  destruct (decide (x ∈ s1)) as [H1|H1], (decide (x ∈ s2)) as [H2|H2];
    try (exfalso; naive_solver).
  - by apply IH.
  - f_equal. apply IH. intros y. rewrite !elem_of_cons. naive_solver.
Qed.

Lemma keep_first_seen_elem seen l x :
  x ∈ keep_first_seen seen l ↔ x ∈ l ∧ x ∉ seen.
Proof.
  revert seen. induction l as [|y r IH]; intros seen; simpl.
  - split; [intros H; by apply elem_of_nil in H | intros [H _]; by apply elem_of_nil in H].
  - case_decide as Hy.
    + rewrite IH, elem_of_cons. naive_solver.
    + rewrite !elem_of_cons, IH, not_elem_of_cons.
      destruct (decide (x = y)); naive_solver.
Qed.

Lemma keep_first_seen_NoDup seen l : NoDup (keep_first_seen seen l).
Proof.
  revert seen. induction l as [|y r IH]; intros seen; simpl; [constructor|].
  case_decide; [done|]. constructor; [|done].
  rewrite keep_first_seen_elem, not_elem_of_cons. naive_solver.
Qed.

Lemma keep_first_seen_sublist seen l : sublist (keep_first_seen seen l) l.
Proof.
  revert seen. induction l as [|y r IH]; intros seen; simpl; [constructor|].
  case_decide; [by apply sublist_cons | by apply sublist_skip].
Qed.

Lemma dict_fromkeys_keys (acc : list (string * unit)) l :
  kv_keys (foldl (λ d k, kv_set k () d) acc l)
  = kv_keys acc ++ keep_first_seen (kv_keys acc) l.
Proof.
  revert acc. induction l as [|x r IH]; intros acc; simpl.
  - by rewrite app_nil_r.
  - rewrite IH, kv_keys_set. destruct (decide (x ∈ kv_keys acc)) as [Hin|Hin]; [done|].
    rewrite <- app_assoc. simpl. do 2 f_equal. apply keep_first_seen_ext.
    intros y. set_solver.
Qed.

Lemma sans_keep_first_seen a : sans a = keep_first_seen [] (san_candidates a).
Proof. unfold sans, dict_fromkeys. by rewrite dict_fromkeys_keys. Qed.

Lemma truthy_str_Some v : v ≠ "" → truthy_str (Some v) = true.
Proof. intros H. simpl. by rewrite bool_decide_eq_true. Qed.

(** C2. With a VIP configured (a non-empty address) and at least one
    control-plane address, the Bootstrap phase ([bootstrap_phase = true])
    resolves the endpoint to https://<first control-plane address>:6443,
    whatever the other control-plane addresses are, and the HighAvailability
    phase ([bootstrap_phase = false]) resolves it to https://<vip>:6443. *)
Theorem C2_endpoint_with_vip (a : args) (v cp0 : string) (cps : list string) :
  vip a = Some v → v ≠ "" → control_planes a = cp0 :: cps →
  endpoint_url a true = Some ("https://" +:+ cp0 +:+ ":6443")
  ∧ endpoint_url a false = Some ("https://" +:+ v +:+ ":6443").
Proof.
  intros Hv Hne Hcp. unfold endpoint_url.
  rewrite Hv, Hcp, (truthy_str_Some v Hne). simpl. done.
Qed.

(** C3. The SAN list is the VIP (when one is configured) followed by the
    control-plane addresses in topology order, with duplicates removed keeping
    the first occurrence: it has no duplicates, holds exactly the candidate
    addresses, in their order; and a configured VIP stands first and occurs
    only once, also when it is one of the control-plane addresses. *)
Theorem C3_san_list (a : args) :
  san_candidates a
    = (if truthy_str (vip a) then [str_of (vip a)] else []) ++ control_planes a
  ∧ sans a = keep_first_seen [] (san_candidates a)
  ∧ NoDup (sans a)
  ∧ (∀ x, x ∈ sans a ↔ x ∈ san_candidates a)
  ∧ sublist (sans a) (san_candidates a)
  ∧ (∀ v, vip a = Some v → v ≠ "" →
       ∃ rest, sans a = v :: rest ∧ v ∉ rest
               ∧ rest = keep_first_seen [v] (control_planes a)).
Proof.
  rewrite sans_keep_first_seen. split_and!; [done..| | | |].
  - apply keep_first_seen_NoDup.
  - intros x. rewrite keep_first_seen_elem. split; [naive_solver|].
    intros H. split; [done|apply not_elem_of_nil].
  - apply keep_first_seen_sublist.
  - intros v Hv Hne. unfold san_candidates. rewrite Hv, (truthy_str_Some v Hne).
    simpl. destruct (decide (v ∈ [])) as [H|_]; [by apply elem_of_nil in H|].
    eexists. split_and!; [done| |done].
    rewrite keep_first_seen_elem, list_elem_of_singleton. naive_solver.
Qed.

Lemma C2_endpoint_with_vip_witness :
  endpoint_url ex_args true = Some "https://10.0.0.11:6443"
  ∧ endpoint_url ex_args false = Some "https://10.0.0.10:6443".
Proof.
  apply (C2_endpoint_with_vip ex_args "10.0.0.10" "10.0.0.11"
           ["10.0.0.12"; "10.0.0.13"]); [reflexivity|discriminate|reflexivity].
Defined.

(** C6, as stated: with no VIP the resolved endpoint would be the explicit
    endpoint string itself. It is not: the script puts the scheme in front. *)
Lemma C6_counterexample :
  ¬ (∀ (a : args) (b : bool),
       truthy_str (vip a) = false → endpoint_url a b = Some (endpoint a)).
Proof.
  intros H. specialize (H (with_vip None ex_args) true eq_refl).
  vm_compute in H. discriminate.
Qed.

(** C6, amended. With no VIP configured (absent, or the empty string) the
    resolved endpoint is https:// followed by the explicit endpoint string,
    which is otherwise left as it is, in the Bootstrap phase and in the
    HighAvailability phase alike. *)
Theorem C6_endpoint_without_vip (a : args) (bootstrap_phase : bool) :
  truthy_str (vip a) = false →
  endpoint_url a bootstrap_phase = Some ("https://" +:+ endpoint a).
Proof.
  intros Hv. unfold endpoint_url. rewrite Hv, andb_false_r. done.
Qed.

Lemma C6_endpoint_without_vip_witness :
  endpoint_url (with_vip None ex_args) true = Some "https://10.0.0.11:6443".
Proof.
  apply (C6_endpoint_without_vip (with_vip None ex_args) true). reflexivity.
Defined.

(** ** The store monad *)

Lemma bind_inv {A B} (m : M A) (f : A → M B) h b h' :
  (m ≫= f) h = Some (b, h') → ∃ a h1, m h = Some (a, h1) ∧ f a h1 = Some (b, h').
Proof.
  unfold mbind, M_bind. destruct (m h) as [[a h1]|]; [|done]. eauto.
Qed.

Lemma ret_inv {A} (a b : A) (h h' : heap) :
  mret (M := M) a h = Some (b, h') → a = b ∧ h = h'.
Proof. unfold mret, M_ret. by intros [= -> ->]. Qed.

Lemma foldM_inv {A B} (I : B → heap → Prop) (f : B → A → M B) l :
  (∀ b a h b' h', a ∈ l → I b h → f b a h = Some (b', h') → I b' h') →
  ∀ b h b' h', I b h → foldM f b l h = Some (b', h') → I b' h'.
Proof.
  induction l as [|a r IH]; intros Hf b h b' h' HI Hrun; simpl in Hrun.
  - apply ret_inv in Hrun as [<- <-]. done.
  - apply bind_inv in Hrun as (b1 & h1 & Hstep & Hrun).
    eapply IH; [|eapply Hf; [|done..]|done].
    + intros ??????. apply Hf. apply elem_of_cons. by right.
    + apply elem_of_cons. by left.
Qed.

(** ** Growth of the store *)

Lemma val_below_mono n n' v : n ≤ n' → val_below n v → val_below n' v.
Proof. destruct v; simpl; [done|lia]. Qed.

Lemma fresh_val_mono h0 h h' v :
  length h ≤ length h' → fresh_val h0 h v → fresh_val h0 h' v.
Proof. intros Hle [??]. split; [done|by eapply val_below_mono]. Qed.

Lemma fresh_val_scal h0 h s : fresh_val h0 h (VScal s).
Proof. done. Qed.

Lemma closed_lookup h l o :
  closed h → h !! l = Some o → Forall (val_below (length h)) (obj_vals o).
Proof. intros Hc Hl. eapply (proj1 (Forall_lookup _ _) Hc); done. Qed.

Lemma grown_refl h : closed h → grown h h.
Proof.
  intros Hc. split; [done..|].
  intros l o Hl Ho. apply lookup_lt_Some in Ho. lia.
Qed.

Lemma grown_lookup_fresh h0 h l o :
  grown h0 h → length h0 ≤ l → h !! l = Some o →
  Forall (fresh_val h0 h) (obj_vals o).
Proof.
  intros Hg Hl Ho. pose proof (grown_new _ _ Hg l o Hl Ho) as H1.
  pose proof (closed_lookup _ _ _ (grown_closed _ _ Hg) Ho) as H2.
  apply Forall_forall. intros v Hv. split.
  - by eapply (proj1 (Forall_forall _ _) H1).
  - by eapply (proj1 (Forall_forall _ _) H2).
Qed.

Lemma grown_alloc h0 h o :
  grown h0 h → Forall (fresh_val h0 h) (obj_vals o) → grown h0 (h ++ [o]).
Proof.
  intros [Hlen Hold Hc Hnew] Ho. split.
  - rewrite length_app. simpl. lia.
  - intros l Hl. rewrite lookup_app_l by lia. by apply Hold.
  - unfold closed. rewrite length_app. simpl. apply Forall_app. split.
    + eapply Forall_impl; [exact Hc|]. intros o' Ho'. simpl in Ho'.
      eapply Forall_impl; [exact Ho'|]. intros v. apply val_below_mono. lia.
    + constructor; [|constructor]. eapply Forall_impl; [exact Ho|].
      intros v [_ Hv]. eapply val_below_mono; [|done]. lia.
  - intros l o' Hl Hlook. destruct (decide (l < length h)) as [Hlt|Hge].
    + rewrite lookup_app_l in Hlook by done. by eapply Hnew.
    + rewrite lookup_app_r in Hlook by lia.
      destruct (l - length h) as [|n] eqn:E; simpl in Hlook; [|done].
      injection Hlook as <-. eapply Forall_impl; [exact Ho|]. by intros v [? _].
Qed.

Lemma grown_store h0 h l o :
  grown h0 h → length h0 ≤ l → Forall (fresh_val h0 h) (obj_vals o) →
  grown h0 (<[l := o]> h).
Proof.
  intros [Hlen Hold Hc Hnew] Hl Ho. split.
  - by rewrite length_insert.
  - intros l' Hl'. rewrite list_lookup_insert_ne by lia. by apply Hold.
  - unfold closed. rewrite length_insert. apply Forall_insert; [done|].
    eapply Forall_impl; [exact Ho|]. by intros v [_ ?].
  - intros l' o' Hl' Hlook. destruct (decide (l = l')) as [<-|Hne].
    + destruct (decide (l < length h)) as [Hlt|Hge].
      * rewrite list_lookup_insert_eq in Hlook by done. injection Hlook as <-.
        eapply Forall_impl; [exact Ho|]. by intros v [? _].
      * rewrite list_insert_ge in Hlook by lia. by eapply Hnew.
    + rewrite list_lookup_insert_ne in Hlook by done. by eapply Hnew.
Qed.

(** ** Primitive operations, read backwards from a successful run *)

Lemma raise_inv {A} h (r : A * heap) : raise h = Some r → False.
Proof. done. Qed.

Lemma read_inv l h o h' : read l h = Some (o, h') → h !! l = Some o ∧ h' = h.
Proof. unfold read. destruct (h !! l); [|done]. by intros [= -> ->]. Qed.

Lemma as_dict_inv x h l d h' :
  as_dict x h = Some ((l, d), h') → x = VRef l ∧ h !! l = Some (ODict d) ∧ h' = h.
Proof.
  destruct x as [s|l0]; simpl; [done|]. intros H.
  apply bind_inv in H as (o & h1 & [Ho ->]%read_inv & H).
  destruct o; [|done]. apply ret_inv in H as [[= -> ->] ->]. done.
Qed.

Lemma as_list_inv x h l xs h' :
  as_list x h = Some ((l, xs), h') → x = VRef l ∧ h !! l = Some (OList xs) ∧ h' = h.
Proof.
  destruct x as [s|l0]; simpl; [done|]. intros H.
  apply bind_inv in H as (o & h1 & [Ho ->]%read_inv & H).
  destruct o; [done|]. apply ret_inv in H as [[= -> ->] ->]. done.
Qed.

Lemma alloc_inv o h l h' :
  alloc o h = Some (l, h') → l = length h ∧ h' = h ++ [o].
Proof. by intros [= <- <-]. Qed.

Lemma store_inv l o h u h' : store l o h = Some (u, h') → h' = <[l := o]> h.
Proof. by intros [= <-]. Qed.

Lemma new_dict_inv d h v h' :
  new_dict d h = Some (v, h') → v = VRef (length h) ∧ h' = h ++ [ODict d].
Proof. by intros [= <- <-]. Qed.

Lemma new_list_inv xs h v h' :
  new_list xs h = Some (v, h') → v = VRef (length h) ∧ h' = h ++ [OList xs].
Proof. by intros [= <- <-]. Qed.

Lemma dict_setitem_inv x k v h u h' :
  dict_setitem x k v h = Some (u, h') →
  ∃ l d, x = VRef l ∧ h !! l = Some (ODict d)
         ∧ h' = <[l := ODict (kv_set k v d)]> h.
Proof.
  unfold dict_setitem. intros H.
  apply bind_inv in H as ([l d] & h1 & (-> & Hl & ->)%as_dict_inv & H).
  apply store_inv in H. eauto.
Qed.

Lemma list_append_inv x v h u h' :
  list_append x v h = Some (u, h') →
  ∃ l xs, x = VRef l ∧ h !! l = Some (OList xs)
          ∧ h' = <[l := OList (xs ++ [v])]> h.
Proof.
  unfold list_append. intros H.
  apply bind_inv in H as ([l d] & h1 & (-> & Hl & ->)%as_list_inv & H).
  apply store_inv in H. eauto.
Qed.

Lemma dict_getitem_inv x k h r h' :
  dict_getitem x k h = Some (r, h') →
  ∃ l d, x = VRef l ∧ h !! l = Some (ODict d) ∧ kv_get k d = Some r ∧ h' = h.
Proof.
  unfold dict_getitem. intros H.
  apply bind_inv in H as ([l d] & h1 & (-> & Hl & ->)%as_dict_inv & H).
  destruct (kv_get k d) eqn:E; [|done]. apply ret_inv in H as [-> ->]. eauto 10.
Qed.

Lemma dict_get_inv x k dflt h r h' :
  dict_get x k dflt h = Some (r, h') →
  ∃ l d, x = VRef l ∧ h !! l = Some (ODict d)
         ∧ r = default dflt (kv_get k d) ∧ h' = h.
Proof.
  unfold dict_get. intros H.
  apply bind_inv in H as ([l d] & h1 & (-> & Hl & ->)%as_dict_inv & H).
  apply ret_inv in H as [<- ->]. eauto 10.
Qed.

Lemma dict_setdefault_inv x k dflt h r h' :
  dict_setdefault x k dflt h = Some (r, h') →
  ∃ l d, x = VRef l ∧ h !! l = Some (ODict d)
         ∧ kv_get k (kv_setdefault k dflt d) = Some r
         ∧ h' = <[l := ODict (kv_setdefault k dflt d)]> h.
Proof.
  unfold dict_setdefault. intros H.
  apply bind_inv in H as ([l d] & h1 & (-> & Hl & ->)%as_dict_inv & H).
  exists l, d. unfold kv_setdefault. destruct (kv_get k d) as [v|] eqn:E.
  - apply ret_inv in H as [-> ->]. by rewrite list_insert_id.
  - apply bind_inv in H as (u & h1 & ->%store_inv & [<- <-]%ret_inv).
    by rewrite kv_get_set_eq.
Qed.

Lemma truthy_inv x h b h' : truthy x h = Some (b, h') → h' = h.
Proof.
  destruct x as [s|l]; simpl.
  - by intros [_ ->]%ret_inv.
  - intros H. apply bind_inv in H as (o & h1 & [_ ->]%read_inv & H).
    by apply ret_inv in H as [_ ->].
Qed.

(** ** Values held by a dict *)

Lemma kv_get_elem {A} k (d : list (string * A)) v : kv_get k d = Some v → v ∈ d.*2.
Proof.
  induction d as [|[k' v'] r IH]; simpl; [done|].
  case_decide; rewrite elem_of_cons; [intros [= ->]; by left|]. auto.
Qed.

Lemma kv_set_vals {A} (Q : A → Prop) k v (d : list (string * A)) :
  Forall Q d.*2 → Q v → Forall Q (kv_set k v d).*2.
Proof.
  intros Hd Hv. induction d as [|[k' v'] r IH]; simpl.
  - by constructor.
  - apply Forall_cons in Hd as [? ?]. case_decide; simpl; constructor; auto.
Qed.

Lemma kv_setdefault_vals {A} (Q : A → Prop) k v (d : list (string * A)) :
  Forall Q d.*2 → Q v → Forall Q (kv_setdefault k v d).*2.
Proof.
  intros Hd Hv. unfold kv_setdefault. destruct (kv_get k d); [done|].
  by apply kv_set_vals.
Qed.

(** ** Every operation on new objects keeps the old ones as they are *)

Section steps.
Context (h0 : heap).
Implicit Types (h : heap) (x v r : val).

Lemma stepped_refl h : grown h0 h → stepped h0 h h.
Proof. by split. Qed.

Lemma step_new_dict d h v h' :
  grown h0 h → Forall (fresh_val h0 h) d.*2 →
  new_dict d h = Some (v, h') → stepped h0 h h' ∧ fresh_val h0 h' v.
Proof.
  intros Hg Hd [-> ->]%new_dict_inv. pose proof (grown_len _ _ Hg).
  unfold stepped, fresh_val; simpl. rewrite length_app; simpl.
  split_and!; [by apply grown_alloc|lia..].
Qed.

Lemma step_new_list xs h v h' :
  grown h0 h → Forall (fresh_val h0 h) xs →
  new_list xs h = Some (v, h') → stepped h0 h h' ∧ fresh_val h0 h' v.
Proof.
  intros Hg Hd [-> ->]%new_list_inv. pose proof (grown_len _ _ Hg).
  unfold stepped, fresh_val; simpl. rewrite length_app; simpl.
  split_and!; [by apply grown_alloc|lia..].
Qed.

Lemma step_dict_setitem x k v h u h' :
  grown h0 h → fresh_val h0 h x → fresh_val h0 h v →
  dict_setitem x k v h = Some (u, h') → stepped h0 h h'.
Proof.
  intros Hg [Hx _] Hv (l & d & -> & Hl & ->)%dict_setitem_inv.
  split; [|by rewrite length_insert]. apply grown_store; [done..|].
  simpl. apply kv_set_vals; [|done]. by eapply (grown_lookup_fresh _ _ l (ODict d)).
Qed.

Lemma step_list_append x v h u h' :
  grown h0 h → fresh_val h0 h x → fresh_val h0 h v →
  list_append x v h = Some (u, h') → stepped h0 h h'.
Proof.
  intros Hg [Hx _] Hv (l & xs & -> & Hl & ->)%list_append_inv.
  split; [|by rewrite length_insert]. apply grown_store; [done..|].
  simpl. apply Forall_app. split; [|by constructor].
  by eapply (grown_lookup_fresh _ _ l (OList xs)).
Qed.

Lemma step_dict_getitem x k h r h' :
  grown h0 h → fresh_val h0 h x →
  dict_getitem x k h = Some (r, h') → h' = h ∧ fresh_val h0 h r.
Proof.
  intros Hg [Hx _] (l & d & -> & Hl & Hk & ->)%dict_getitem_inv.
  split; [done|]. pose proof (grown_lookup_fresh _ _ l _ Hg Hx Hl) as Hd.
  eapply (proj1 (Forall_forall _ _) Hd). by eapply kv_get_elem.
Qed.

Lemma step_dict_get x k dflt h r h' :
  grown h0 h → fresh_val h0 h x → fresh_val h0 h dflt →
  dict_get x k dflt h = Some (r, h') → h' = h ∧ fresh_val h0 h r.
Proof.
  intros Hg [Hx _] Hdf (l & d & -> & Hl & -> & ->)%dict_get_inv.
  split; [done|]. pose proof (grown_lookup_fresh _ _ l _ Hg Hx Hl) as Hd.
  destruct (kv_get k d) eqn:E; simpl; [|done].
  eapply (proj1 (Forall_forall _ _) Hd). by eapply kv_get_elem.
Qed.

Lemma step_dict_setdefault x k dflt h r h' :
  grown h0 h → fresh_val h0 h x → fresh_val h0 h dflt →
  dict_setdefault x k dflt h = Some (r, h') →
  stepped h0 h h' ∧ fresh_val h0 h' r.
Proof.
  intros Hg [Hx _] Hdf (l & d & -> & Hl & Hk & ->)%dict_setdefault_inv.
  pose proof (grown_lookup_fresh _ _ l _ Hg Hx Hl) as Hd. simpl in Hd.
  assert (Forall (fresh_val h0 h) (kv_setdefault k dflt d).*2) as Hd'
    by by apply kv_setdefault_vals.
  unfold stepped. split_and!.
  - by apply grown_store.
  - by rewrite length_insert.
  - apply (fresh_val_mono h0 h); [by rewrite length_insert|].
    eapply (proj1 (Forall_forall _ _) Hd'). by eapply kv_get_elem.
Qed.
End steps.

(** ** deepcopy builds its copy out of new objects *)

Lemma memo_fresh_mono h0 h h' memo :
  length h ≤ length h' → memo_fresh h0 h memo → memo_fresh h0 h' memo.
Proof.
  intros Hle Hm l y Hy. eapply fresh_val_mono; [done|]. by eapply Hm.
Qed.

Lemma memo_fresh_insert h0 h memo l y :
  memo_fresh h0 h memo → fresh_val h0 h (VRef y) → memo_fresh h0 h (<[l := y]> memo).
Proof. intros Hm Hy. by apply map_Forall_insert_2. Qed.

Lemma deepcopy_memo_grown h0 fuel :
  closed h0 →
  ∀ x memo h r memo' h',
    grown h0 h → memo_fresh h0 h memo → val_below (length h0) x →
    deepcopy_memo fuel x memo h = Some ((r, memo'), h') →
    stepped h0 h h' ∧ memo_fresh h0 h' memo' ∧ fresh_val h0 h' r.
Proof.
  intros Hc0. induction fuel as [|fuel IH];
    intros x memo h r memo' h' Hg Hm Hx Hrun.
  - destruct x as [s|l]; simpl in Hrun.
    + apply ret_inv in Hrun as [[= <- <-] <-]. by split_and!; [split|..].
    + destruct (memo !! l) as [y|] eqn:Hy; [|done].
      apply ret_inv in Hrun as [[= <- <-] <-].
      split_and!; [by split|done|by eapply Hm].
  - destruct x as [s|l]; simpl in Hrun.
    { apply ret_inv in Hrun as [[= <- <-] <-]. by split_and!; [split|..]. }
    destruct (memo !! l) as [y|] eqn:Hy.
    { apply ret_inv in Hrun as [[= <- <-] <-].
      split_and!; [by split|done|by eapply Hm]. }
    apply bind_inv in Hrun as (o & h1 & [Ho ->]%read_inv & Hrun).
    simpl in Hx. rewrite (grown_old _ _ Hg) in Ho by done.
    pose proof (closed_lookup _ _ _ Hc0 Ho) as Hvals.
    pose proof (grown_len _ _ Hg) as Hlen.
    (* the loop invariant, for the copy [y] allocated at [length h] *)
    set (I := λ (memo : gmap loc loc) (hc : heap),
                grown h0 hc ∧ length h < length hc ∧ memo_fresh h0 hc memo).
    assert (fresh_val h0 (h ++ [OList []]) (VRef (length h))) as Hy1
      by (unfold fresh_val; simpl; rewrite length_app; simpl; lia).
    assert (fresh_val h0 (h ++ [ODict []]) (VRef (length h))) as Hy2
      by (unfold fresh_val; simpl; rewrite length_app; simpl; lia).
    destruct o as [d|xs]; simpl in Hvals.
    + apply bind_inv in Hrun as (y & h1 & [-> ->]%alloc_inv & Hrun).
      apply bind_inv in Hrun as (memo1 & h2 & Hloop & Hrun).
      apply ret_inv in Hrun as [[= <- <-] <-].
      assert (I memo1 h2) as (Hg2 & Hlen2 & Hm2).
      { revert Hloop. eapply (foldM_inv I).
        - intros memoc [k v] hc memoc' hc' Hin (Hgc & Hlc & Hmc) Hstep.
          apply bind_inv in Hstep as ([v' memo2] & hc1 & Hcopy & Hstep).
          apply bind_inv in Hstep as (u & hc2 & Hset & Hstep).
          apply ret_inv in Hstep as [<- <-].
          apply IH in Hcopy as ([Hg1 Hl1] & Hm1 & Hv'); [|done..|].
          2:{ eapply (proj1 (Forall_forall _ _) Hvals).
              apply list_elem_of_fmap. by exists (k, v). }
          apply (step_dict_setitem h0) in Hset as [Hgs Hls]; [|done| |done].
          2:{ split; simpl; lia. }
          split_and!; [done|lia|]. by eapply memo_fresh_mono.
        - split_and!.
          + apply grown_alloc; [done|]. constructor.
          + rewrite length_app. simpl. lia.
          + apply memo_fresh_insert; [|done].
            eapply memo_fresh_mono; [|done]. rewrite length_app. lia. }
      split_and!; [split; [done|lia]|done|]. split; simpl; lia.
    + apply bind_inv in Hrun as (y & h1 & [-> ->]%alloc_inv & Hrun).
      apply bind_inv in Hrun as (memo1 & h2 & Hloop & Hrun).
      apply ret_inv in Hrun as [[= <- <-] <-].
      assert (I memo1 h2) as (Hg2 & Hlen2 & Hm2).
      { revert Hloop. eapply (foldM_inv I).
        - intros memoc v hc memoc' hc' Hin (Hgc & Hlc & Hmc) Hstep.
          apply bind_inv in Hstep as ([v' memo2] & hc1 & Hcopy & Hstep).
          apply bind_inv in Hstep as (u & hc2 & Hset & Hstep).
          apply ret_inv in Hstep as [<- <-].
          apply IH in Hcopy as ([Hg1 Hl1] & Hm1 & Hv'); [|done..|].
          2:{ by eapply (proj1 (Forall_forall _ _) Hvals). }
          apply (step_list_append h0) in Hset as [Hgs Hls]; [|done| |done].
          2:{ split; simpl; lia. }
          split_and!; [done|lia|]. by eapply memo_fresh_mono.
        - split_and!.
          + apply grown_alloc; [done|]. constructor.
          + rewrite length_app. simpl. lia.
          + apply memo_fresh_insert; [|done].
            eapply memo_fresh_mono; [|done]. rewrite length_app. lia. }
      split_and!; [split; [done|lia]|done|]. split; simpl; lia.
Qed.

Lemma step_deepcopy h x y h' :
  closed h → val_below (length h) x →
  deepcopy x h = Some (y, h') → stepped h h h' ∧ fresh_val h h' y.
Proof.
  intros Hc Hx Hrun. unfold deepcopy in Hrun.
  apply bind_inv in Hrun as ([y' memo] & h1 & Hcopy & Hrun).
  apply ret_inv in Hrun as [<- <-].
  eapply (deepcopy_memo_grown h) in Hcopy as (? & _ & ?);
    [done|done|by apply grown_refl|apply map_Forall_empty|done].
Qed.

(** ** Symbolic execution of a successful run

    [exec H] walks through [H : prog h = Some (r, h')] one operation at a
    time, keeping [grown h0 _] for the current store and [fresh_val h0 _ v]
    for every value the program holds. *)

Ltac fresh_solve :=
  first
    [ assumption
    | apply fresh_val_scal
    | simpl;
      repeat (constructor; [first [assumption | apply fresh_val_scal]|]);
      constructor ].

Ltac forward Hle :=
  repeat match goal with
  | Hf : fresh_val ?h0 ?h ?v |- _ =>
      lazymatch type of Hle with
      | length h ≤ length ?h1 => apply (fresh_val_mono h0 h h1 v Hle) in Hf
      end
  end.

Ltac exec_alloc lem Hs :=
  lazymatch type of Hs with
  | _ ?d ?h = Some (?v, ?h1) =>
      lazymatch goal with
      | Hg : grown ?h0 h |- _ =>
          let Hle := fresh "Hle" in
          let Hg' := fresh "Hg" in
          let Hf := fresh "Hf" in
          destruct (lem h0 d h v h1 Hg ltac:(fresh_solve) Hs) as [[Hg' Hle] Hf];
          forward Hle; clear Hs Hg Hle
      end
  end.

Ltac exec H :=
  cbv beta in H;
  lazymatch type of H with
  | mbind _ (if ?c then _ else _) _ = Some _ => destruct c eqn:?; exec H
  | (if ?c then _ else _) _ = Some _ => destruct c eqn:?; exec H
  | mbind _ _ _ = Some _ =>
      let a := fresh "a" in
      let h1 := fresh "h" in
      let Hs := fresh "Hs" in
      apply bind_inv in H as (a & h1 & Hs & H); exec Hs; exec H
  | mret _ _ = Some _ => apply ret_inv in H as [? ?]; subst
  | new_dict _ _ = Some _ => exec_alloc step_new_dict H
  | new_list _ _ = Some _ => exec_alloc step_new_list H
  | dict_setitem ?x ?k ?v ?h = Some (?u, ?h1) =>
      lazymatch goal with
      | Hg : grown ?h0 h |- _ =>
          let Hle := fresh "Hle" in
          let Hg' := fresh "Hg" in
          destruct (step_dict_setitem h0 x k v h u h1 Hg
                      ltac:(fresh_solve) ltac:(fresh_solve) H) as [Hg' Hle];
          forward Hle; clear H Hg Hle
      end
  | dict_setdefault ?x ?k ?v ?h = Some (?r, ?h1) =>
      lazymatch goal with
      | Hg : grown ?h0 h |- _ =>
          let Hle := fresh "Hle" in
          let Hg' := fresh "Hg" in
          let Hf := fresh "Hf" in
          destruct (step_dict_setdefault h0 x k v h r h1 Hg
                      ltac:(fresh_solve) ltac:(fresh_solve) H)
            as [[Hg' Hle] Hf];
          forward Hle; clear H Hg Hle
      end
  | dict_getitem ?x ?k ?h = Some (?r, ?h1) =>
      lazymatch goal with
      | Hg : grown ?h0 h |- _ =>
          let Hf := fresh "Hf" in
          destruct (step_dict_getitem h0 x k h r h1 Hg ltac:(fresh_solve) H)
            as [-> Hf]; clear H
      end
  | dict_get ?x ?k ?v ?h = Some (?r, ?h1) =>
      lazymatch goal with
      | Hg : grown ?h0 h |- _ =>
          let Hf := fresh "Hf" in
          destruct (step_dict_get h0 x k v h r h1 Hg
                      ltac:(fresh_solve) ltac:(fresh_solve) H)
            as [-> Hf]; clear H
      end
  | truthy ?x ?h = Some (?b, ?h1) => apply truthy_inv in H as ->
  end.

(** The document [patch_node] returns is made of objects allocated during
    the call, and the call leaves every older object as it was. *)
Lemma patch_node_grown h base ip cidr gw ns ifname disk vip enable_ccm d h' :
  closed h → val_below (length h) base →
  patch_node base ip cidr gw ns ifname disk vip enable_ccm h = Some (d, h') →
  grown h h' ∧ fresh_val h h' d.
Proof.
  intros Hc Hb Hrun. unfold patch_node in Hrun.
  apply bind_inv in Hrun as (cfg & h1 & Hcopy & Hrun).
  apply step_deepcopy in Hcopy as [[Hg Hle] Hcfg]; [|done..]. clear Hle.
  exec Hrun; by split.
Qed.

Lemma patch_grown h base n d h' :
  closed h → val_below (length h) base →
  patch base n h = Some (d, h') → grown h h' ∧ fresh_val h h' d.
Proof. apply patch_node_grown. Qed.

(** ** Reachability *)

Lemma reach_old h0 h x l :
  closed h0 → grown h0 h → val_below (length h0) x → reach h x l →
  l < length h0.
Proof.
  intros Hc Hg Hx Hr. induction Hr as [l|l o v l' Hl Hv Hr IH]; [done|].
  apply IH. simpl in Hx. rewrite (grown_old _ _ Hg) in Hl by done.
  eapply (proj1 (Forall_forall _ _) (closed_lookup _ _ _ Hc Hl)). done.
Qed.

Lemma reach_mid h0 h1 h2 x l :
  grown h0 h1 → grown h1 h2 → fresh_val h0 h1 x → reach h2 x l →
  length h0 ≤ l < length h1.
Proof.
  intros Hg1 Hg2 Hx Hr. induction Hr as [l|l o v l' Hl Hv Hr IH].
  - destruct Hx as [??]. simpl in *. lia.
  - apply IH. destruct Hx as [Hx1 Hx2]. simpl in Hx1, Hx2.
    rewrite (grown_old _ _ Hg2) in Hl by done.
    eapply (proj1 (Forall_forall _ _) (grown_lookup_fresh _ _ _ _ Hg1 Hx1 Hl)).
    done.
Qed.

Lemma reach_new h0 h x l :
  grown h0 h → fresh_val h0 h x → reach h x l → length h0 ≤ l < length h.
Proof.
  intros Hg. apply reach_mid; [done|]. apply grown_refl, (grown_closed _ _ Hg).
Qed.

(** What is read through [x] depends on the objects reachable from [x]
    only. *)
Lemma reify_agree fuel h h' x :
  (∀ l, reach h x l → h' !! l = h !! l) → reify fuel h' x = reify fuel h x.
Proof.
  revert x. induction fuel as [|fuel IH]; intros x Hag; destruct x as [s|l];
    simpl; try done.
  rewrite (Hag l) by constructor. destruct (h !! l) as [[d|xs]|] eqn:Hl; [| |done].
  - f_equal. apply Forall_mapM_ext, Forall_forall. intros [k v] Hin. f_equal.
    apply IH. intros l' Hr. apply Hag. eapply reach_step; [done| |done].
    simpl. apply list_elem_of_fmap. by exists (k, v).
  - f_equal. apply Forall_mapM_ext, Forall_forall. intros v Hin.
    apply IH. intros l' Hr. apply Hag. by eapply reach_step.
Qed.

Lemma reify_store_other fuel h x l o :
  ¬ reach h x l → reify fuel (<[l := o]> h) x = reify fuel h x.
Proof.
  intros Hn. apply reify_agree. intros l' Hr.
  apply list_lookup_insert_ne. by intros ->.
Qed.

(** C1. Isolation. Two calls of [patch_node] on one template, with any two
    sets of node parameters, return documents that share no object with each
    other or with the template: no object is reachable from two of the three.
    So replacing any object of one document (and in particular assigning to
    a key of one of its dicts) leaves every object of the other document and
    of the template as it was, and what is read from them is unchanged; the
    calls themselves leave the template, and the second call the first
    document, as they were. *)
Theorem C1_isolation (h : heap) (base : val) (n1 n2 : node) (d1 d2 : val)
    (h1 h2 : heap) :
  closed h → val_below (length h) base →
  patch base n1 h = Some (d1, h1) →
  patch base n2 h1 = Some (d2, h2) →
  (∀ l, ¬ (reach h2 d1 l ∧ reach h2 d2 l))
  ∧ (∀ l, ¬ (reach h2 d1 l ∧ reach h2 base l))
  ∧ (∀ l, ¬ (reach h2 d2 l ∧ reach h2 base l))
  ∧ (∀ l o, reach h2 d1 l →
       (∀ l', reach h2 d2 l' ∨ reach h2 base l' → <[l := o]> h2 !! l' = h2 !! l')
       ∧ ∀ fuel, reify fuel (<[l := o]> h2) d2 = reify fuel h2 d2
                 ∧ reify fuel (<[l := o]> h2) base = reify fuel h2 base)
  ∧ (∀ l o, reach h2 d2 l →
       (∀ l', reach h2 d1 l' ∨ reach h2 base l' → <[l := o]> h2 !! l' = h2 !! l')
       ∧ ∀ fuel, reify fuel (<[l := o]> h2) d1 = reify fuel h2 d1
                 ∧ reify fuel (<[l := o]> h2) base = reify fuel h2 base)
  ∧ (∀ l k v u h3, reach h2 d1 l → dict_setitem (VRef l) k v h2 = Some (u, h3) →
       ∀ fuel, reify fuel h3 d2 = reify fuel h2 d2
               ∧ reify fuel h3 base = reify fuel h2 base)
  ∧ (∀ fuel, reify fuel h2 base = reify fuel h base
             ∧ reify fuel h2 d1 = reify fuel h1 d1).
Proof.
  intros Hc Hb Hrun1 Hrun2.
  apply patch_grown in Hrun1 as [Hg1 Hd1]; [|done..].
  pose proof (grown_len _ _ Hg1) as Hlen1.
  apply patch_grown in Hrun2 as [Hg2 Hd2];
    [|apply (grown_closed _ _ Hg1)|by eapply val_below_mono].
  pose proof (grown_len _ _ Hg2) as Hlen2.
  assert (∀ l, reach h2 d1 l → length h ≤ l < length h1) as R1
    by (intros l; by apply reach_mid).
  assert (∀ l, reach h2 d2 l → length h1 ≤ l < length h2) as R2
    by (intros l; by apply reach_new).
  assert (grown h h2) as Hg.
  { split; [lia| |apply (grown_closed _ _ Hg2)|].
    - intros l Hl. rewrite (grown_old _ _ Hg2) by lia. by apply (grown_old _ _ Hg1).
    - intros l o Hl Ho. destruct (decide (l < length h1)) as [Hlt|Hge].
      + rewrite (grown_old _ _ Hg2) in Ho by done. by eapply (grown_new _ _ Hg1).
      + eapply Forall_impl; [eapply (grown_new _ _ Hg2 l o); [lia|done]|].
        intros [s|l']; simpl; [done|lia]. }
  assert (∀ l, reach h2 base l → l < length h) as R0
    by (intros l; by apply reach_old).
  assert (∀ x y : val, (∀ l, ¬ (reach h2 x l ∧ reach h2 y l)) →
            ∀ l o fuel, reach h2 x l →
              reify fuel (<[l := o]> h2) y = reify fuel h2 y) as Hother.
  { intros x y Hxy l o fuel Hr. apply reify_store_other. naive_solver. }
  assert (∀ l, ¬ (reach h2 d1 l ∧ reach h2 d2 l)) as D12
    by (intros l [?%R1 ?%R2]; lia).
  assert (∀ l, ¬ (reach h2 d1 l ∧ reach h2 base l)) as D10
    by (intros l [?%R1 ?%R0]; lia).
  assert (∀ l, ¬ (reach h2 d2 l ∧ reach h2 base l)) as D20
    by (intros l [?%R2 ?%R0]; lia).
  split_and!; [done..| | | |].
  - intros l o Hr. split.
    + intros l' Hl'. apply list_lookup_insert_ne. intros ->. naive_solver.
    + intros fuel. split; [by apply (Hother d1)|by apply (Hother d1)].
  - intros l o Hr. split.
    + intros l' Hl'. apply list_lookup_insert_ne. intros ->. naive_solver.
    + intros fuel. split; [apply (Hother d2); [|done]|by apply (Hother d2)].
      intros l' [??]. by apply (D12 l').
  - intros l k v u h3 Hr (l0 & d & [= <-] & _ & ->)%dict_setitem_inv fuel.
    split; [by apply (Hother d1)|by apply (Hother d1)].
  - intros fuel. split; apply reify_agree; intros l Hr.
    + apply (grown_old _ _ Hg). by eapply (reach_old h h); [|apply grown_refl|..].
    + apply (grown_old _ _ Hg2).
      by eapply (reach_mid h h1 h1); [|apply grown_refl, (grown_closed _ _ Hg1)|..].
Qed.

Lemma C1_isolation_witness :
  ∃ d1 h1 d2 h2,
    patch (VRef 0) (ex_node "10.0.0.11") ex_shared_heap = Some (d1, h1)
    ∧ patch (VRef 0) (ex_node "10.0.0.12") h1 = Some (d2, h2)
    ∧ (∀ l, ¬ (reach h2 d1 l ∧ reach h2 d2 l))
    ∧ (∀ l, ¬ (reach h2 d1 l ∧ reach h2 (VRef 0) l))
    ∧ (∀ l, ¬ (reach h2 d2 l ∧ reach h2 (VRef 0) l)).
Proof.
  eexists _, _, _, _.
  split; [vm_compute; reflexivity|].
  split; [vm_compute; reflexivity|].
  edestruct (C1_isolation ex_shared_heap (VRef 0) (ex_node "10.0.0.11")
               (ex_node "10.0.0.12")) as (H1 & H2 & H3 & _).
  - apply (bool_decide_unpack _). vm_compute. exact I.
  - simpl. lia.
  - vm_compute. reflexivity.
  - vm_compute. reflexivity.
  - split_and!; [exact H1|exact H2|exact H3].
Defined.

(** ** Runs: the monad [P] *)

Lemma P_bind_inv {A B} (m : P A) (f : A → P B) w o w' :
  (m ≫= f) w = (o, w') →
  (∃ a w1, m w = (Ret a, w1) ∧ f a w1 = (o, w'))
  ∨ (m w = (Raised, w') ∧ o = Raised)
  ∨ (∃ c, m w = (Exited c, w') ∧ o = Exited c).
Proof.
  unfold mbind, P_bind. destruct (m w) as [[a| |c] w1]; intros H.
  - left. eauto.
  - right. left. by injection H as <- <-.
  - right. right. injection H as <- <-. eauto.
Qed.

Lemma P_ret_inv {A} (a : A) w o w' :
  mret (M := P) a w = (o, w') → o = Ret a ∧ w' = w.
Proof. by intros [= <- <-]. Qed.

Lemma lift_inv {A} (m : M A) w o w' :
  lift m w = (o, w') →
  w_files w' = w_files w ∧ w_trace w' = w_trace w
  ∧ match o with
    | Ret a => m (w_heap w) = Some (a, w_heap w')
    | Raised => m (w_heap w) = None ∧ w' = w
    | Exited _ => False
    end.
Proof.
  unfold lift. destruct (m (w_heap w)) as [[a h']|]; intros [= <- <-]; done.
Qed.


(** ** The two loops write the planned documents in order *)



(** ** validate_files stops at the first failure *)

Lemma sh_validate_inv validator p w o w' :
  sh_validate validator p w = (o, w') →
  w_files w' = w_files w
  ∧ w_trace w' = w_trace w ++ [EvValidate p]
  ∧ match o with
    | Ret _ => validator p (kv_get p (w_files w)) = 0%Z
    | Raised => False
    | Exited c => c ≠ 0%Z ∧ c = validator p (kv_get p (w_files w))
    end.
Proof.
  unfold sh_validate. case_decide as Hc; intros [= <- <-]; simpl; done.
Qed.

Lemma validate_files_inv validator ps :
  ∀ w o w',
    validate_files validator ps w = (o, w') →
    w_files w' = w_files w
    ∧ ∃ m, m ≤ length ps
      ∧ w_trace w' = w_trace w ++ (EvValidate <$> take m ps)
      ∧ (∀ i p, S i < m → ps !! i = Some p →
           validator p (kv_get p (w_files w)) = 0%Z)
      ∧ match o with
        | Ret _ => m = length ps
                   ∧ ∀ p, p ∈ ps → validator p (kv_get p (w_files w)) = 0%Z
        | Raised => False
        | Exited c => c ≠ 0%Z
                      ∧ ∃ i p, m = S i ∧ ps !! i = Some p
                               ∧ c = validator p (kv_get p (w_files w))
        end.
Proof.
  induction ps as [|p r IH]; intros w o w' H; simpl in H.
  - apply P_ret_inv in H as [-> ->]. split; [done|]. exists 0. simpl.
    rewrite app_nil_r. split_and!; [done|done|intros; lia|done|].
    intros p Hp. by apply elem_of_nil in Hp.
  - apply P_bind_inv in H as [(u & w1 & Hs & H)|[[Hs ->]|(c & Hs & ->)]].
    + apply sh_validate_inv in Hs as (Hf1 & Ht1 & Hok).
      apply IH in H as (Hf & m & Hm & Ht & Hbefore & Ho). rewrite Hf1 in *.
      split; [done|]. exists (S m). simpl.
      rewrite Ht, Ht1, <- app_assoc. split_and!; [lia|done| |].
      * intros [|i] q Hi Hq; simpl in Hq; [by injection Hq as <-|].
        eapply Hbefore; [|done]. lia.
      * destruct o as [?| |c]; [|done|].
        -- destruct Ho as [-> Hall]. split; [done|].
           intros q [->|Hq]%elem_of_cons; auto.
        -- destruct Ho as (Hc & i & q & -> & Hq & ->). split; [done|].
           by exists (S i), q.
    + by apply sh_validate_inv in Hs as (_ & _ & []).
    + apply sh_validate_inv in Hs as (Hf1 & Ht1 & Hc & ->).
      split; [done|]. exists 1. simpl.
      split_and!; [lia|done|intros; lia|done|]. by exists 0, p.
Qed.

Lemma yaml_load_inv p w o w' :
  yaml_load p w = (o, w') →
  w_files w' = w_files w ∧ w_trace w' = w_trace w
  ∧ match o with
    | Ret x => ∃ t, kv_get p (w_files w) = Some t
                    ∧ load t (w_heap w) = Some (x, w_heap w')
    | Raised => w' = w
    | Exited _ => False
    end.
Proof.
  unfold yaml_load. destruct (kv_get p (w_files w)) as [t|] eqn:Hp.
  - intros (Hf & Ht & Ho)%lift_inv. split_and!; [done..|].
    destruct o as [x| |c]; [eauto|by destruct Ho|done].
  - by intros [= <- <-].
Qed.

Lemma zip_with_app_short {A B C} (f : A → B → C) l1 l2 k :
  length k ≤ length l1 → zip_with f (l1 ++ l2) k = zip_with f l1 k.
Proof.
  revert k. induction l1 as [|x l1 IH]; intros [|y k] Hlen; simpl in *;
    try done; try lia.
  - by destruct l2.
  - f_equal. apply IH. lia.
Qed.

Lemma create_node_configs_unfold validator a out :
  create_node_configs validator a out =
  (cp_tpl ← yaml_load (path_join out "controlplane.yaml");
   wk_tpl ← yaml_load (path_join out "worker.yaml");
   gen_cp ← for_enumerate
     (dump_node (cp_file out)
        (λ ip, patch_node cp_tpl ip (cidr a) (gateway a) (nameserver a)
                 (ifname a) (disk a) (vip a) (enable_ccm a)))
     1 (control_planes a);
   gen_wk ← for_enumerate
     (dump_node (w_file out)
        (λ ip, patch_node wk_tpl ip (cidr a) (gateway a) (nameserver a)
                 (ifname a) (disk a) None (enable_ccm a)))
     1 (workers a);
   validate_files validator (gen_cp ++ gen_wk)).
Proof. reflexivity. Qed.



(** ** Stores that agree *)

Lemma agree_off_refl S h : agree_off S h h.
Proof. by split. Qed.

Lemma agree_off_trans S1 S2 S h1 h2 h3 :
  agree_off S1 h1 h2 → agree_off S2 h2 h3 → S1 ∪ S2 ⊆ S → agree_off S h1 h3.
Proof.
  intros [L1 A1] [L2 A2] HS. split; [lia|]. intros l Hl Hn.
  rewrite A2, A1; [done|lia|set_solver|lia|set_solver].
Qed.

Lemma agree_off_alloc h o : agree_off ∅ h (h ++ [o]).
Proof.
  split; [rewrite length_app; lia|]. intros l Hl _. by rewrite lookup_app_l.
Qed.

Lemma agree_off_store h l o : agree_off {[l]} h (<[l := o]> h).
Proof.
  split; [by rewrite length_insert|]. intros l' Hl Hn.
  apply list_lookup_insert_ne. set_solver.
Qed.

Lemma agree_off_weaken S S' h h' : agree_off S h h' → S ⊆ S' → agree_off S' h h'.
Proof. intros [L A] HS. split; [done|]. intros l Hl Hn. apply A; [done|set_solver]. Qed.

(** ** Documents in the store: frame and bounds *)

Lemma repr_bound_all h :
  (∀ x t F, repr h x t F → ∀ l, l ∈ F → l < length h)
  ∧ (∀ d td F, repr_kvs h d td F → ∀ l, l ∈ F → l < length h)
  ∧ (∀ xs ts F, repr_vs h xs ts F → ∀ l, l ∈ F → l < length h).
Proof.
  apply repr_mutind.
  - intros s l Hl. set_solver.
  - intros l d td F0 F Hl _ IH _ -> l' Hin.
    apply elem_of_union in Hin as [Hin|Hin]; [|by apply IH].
    apply elem_of_singleton in Hin as ->. apply (lookup_lt_Some _ _ _ Hl).
  - intros l d td F0 F Hl _ IH _ -> l' Hin.
    apply elem_of_union in Hin as [Hin|Hin]; [|by apply IH].
    apply elem_of_singleton in Hin as ->. apply (lookup_lt_Some _ _ _ Hl).
  - intros l Hl. set_solver.
  - intros k v t d td F1 F2 F _ IH1 _ IH2 _ _ -> l [?|?]%elem_of_union; auto.
  - intros l Hl. set_solver.
  - intros v t d td F1 F2 F _ IH1 _ IH2 _ -> l [?|?]%elem_of_union; auto.
Qed.

Lemma repr_bound h x t F l : repr h x t F → l ∈ F → l < length h.
Proof. intros H Hl. by eapply (proj1 (repr_bound_all h)). Qed.

Lemma repr_kvs_bound h d td F l : repr_kvs h d td F → l ∈ F → l < length h.
Proof. intros H Hl. by eapply (proj1 (proj2 (repr_bound_all h))). Qed.

Lemma repr_frame_all h :
  (∀ x t F, repr h x t F →
     ∀ h', (∀ l, l ∈ F → h' !! l = h !! l) → repr h' x t F)
  ∧ (∀ d td F, repr_kvs h d td F →
       ∀ h', (∀ l, l ∈ F → h' !! l = h !! l) → repr_kvs h' d td F)
  ∧ (∀ xs ts F, repr_vs h xs ts F →
       ∀ h', (∀ l, l ∈ F → h' !! l = h !! l) → repr_vs h' xs ts F).
Proof.
  apply repr_mutind.
  - constructor.
  - intros l d td F0 F Hl _ IH Hn -> h' Hag.
    eapply repr_dict; [|apply IH|done..].
    + rewrite Hag; [done|set_solver].
    + intros l' Hl'. apply Hag. set_solver.
  - intros l d td F0 F Hl _ IH Hn -> h' Hag.
    eapply repr_list; [|apply IH|done..].
    + rewrite Hag; [done|set_solver].
    + intros l' Hl'. apply Hag. set_solver.
  - constructor.
  - intros k v t d td F1 F2 F _ IH1 _ IH2 Hd Hk -> h' Hag.
    eapply repr_kvs_cons; [apply IH1|apply IH2|done..];
      intros l' Hl'; apply Hag; set_solver.
  - constructor.
  - intros v t d td F1 F2 F _ IH1 _ IH2 Hd -> h' Hag.
    eapply repr_vs_cons; [apply IH1|apply IH2|done..];
      intros l' Hl'; apply Hag; set_solver.
Qed.

Lemma repr_agree S h h' x t F :
  repr h x t F → agree_off S h h' → F ## S → repr h' x t F.
Proof.
  intros H [_ A] HS. eapply (proj1 (repr_frame_all h)); [done|].
  intros l Hl. apply A; [by eapply repr_bound|set_solver].
Qed.

Lemma repr_kvs_agree S h h' d td F :
  repr_kvs h d td F → agree_off S h h' → F ## S → repr_kvs h' d td F.
Proof.
  intros H [_ A] HS. eapply (proj1 (proj2 (repr_frame_all h))); [done|].
  intros l Hl. apply A; [by eapply repr_kvs_bound|set_solver].
Qed.

Lemma repr_vs_agree S h h' xs ts F :
  repr_vs h xs ts F → agree_off S h h' → F ## S → repr_vs h' xs ts F.
Proof.
  intros H [_ A] HS. eapply (proj2 (proj2 (repr_frame_all h))); [done|].
  intros l Hl. apply A; [|set_solver].
  by eapply (proj2 (proj2 (repr_bound_all h))).
Qed.

(** ** The entries of a dict in the store *)

Lemma kv_keys_del {A} k (d : list (string * A)) x :
  x ∈ kv_keys (kv_del k d) → x ∈ kv_keys d.
Proof.
  unfold kv_keys. induction d as [|[k' v] r IH]; simpl; [done|].
  case_decide; simpl; rewrite !elem_of_cons; naive_solver.
Qed.

Lemma kv_keys_set_sub {A} k (v : A) d x :
  x ∈ kv_keys (kv_set k v d) → x = k ∨ x ∈ kv_keys d.
Proof.
  rewrite kv_keys_set. case_decide; [auto|].
  rewrite elem_of_app, list_elem_of_singleton. naive_solver.
Qed.

Lemma kv_del_absent {A} k (d : list (string * A)) :
  kv_get k d = None → kv_del k d = d.
Proof.
  induction d as [|[k' v] r IH]; simpl; [done|].
  case_decide as Hkk; [done|]. intros Hg. by rewrite IH.
Qed.

Lemma repr_kvs_keys h d td F :
  repr_kvs h d td F → kv_keys d = kv_keys td ∧ NoDup (kv_keys d).
Proof.
  induction 1 as [|k v t d td F1 F2 F Hv Hd [IH1 IH2] Hdisj Hk ->]; simpl.
  - split; [done|constructor].
  - unfold kv_keys in *. simpl. split; [by f_equal|by constructor].
Qed.

Lemma repr_kvs_get_None h d td F k :
  repr_kvs h d td F → kv_get k d = None → kv_get k td = None.
Proof.
  intros [Hk _]%repr_kvs_keys. rewrite !kv_get_None. by rewrite Hk.
Qed.

(** Taking one entry out of a dict. *)
Lemma repr_kvs_split h d td F k v :
  repr_kvs h d td F → kv_get k d = Some v →
  ∃ t Fk Frest,
    kv_get k td = Some t ∧ repr h v t Fk
    ∧ repr_kvs h (kv_del k d) (kv_del k td) Frest
    ∧ Fk ## Frest ∧ F = Fk ∪ Frest.
Proof.
  induction 1 as [|k0 v0 t0 d td F1 F2 F Hv Hd IH Hdisj Hk ->]; simpl; [done|].
  case_decide as Hkk.
  - intros [= <-]. exists t0, F1, F2. by split_and!.
  - intros Hget. destruct (IH Hget) as (t & Fk & Frest & Ht & Hr & Hrest & Hd' & ->).
    exists t, Fk, (F1 ∪ Frest). split_and!; [done|done| |set_solver|set_solver].
    eapply repr_kvs_cons; [done|done|set_solver| |done].
    intros Hin. apply Hk. by eapply kv_keys_del.
Qed.

(** Putting an entry (back) into a dict. *)
Lemma repr_kvs_join h k v t Fv :
  repr h v t Fv →
  ∀ d td Frest,
    kv_keys d = kv_keys td → NoDup (kv_keys d) →
    repr_kvs h (kv_del k d) (kv_del k td) Frest → Fv ## Frest →
    repr_kvs h (kv_set k v d) (kv_set k t td) (Fv ∪ Frest).
Proof.
  intros Hv. induction d as [|[k0 v0] d IH]; intros [|[k0' t0] td] Frest Hkeys Hnd Hrest Hdisj;
    simpl in *; try done.
  - inversion Hrest; subst. eapply repr_kvs_cons; [done|constructor|set_solver| |done].
    apply not_elem_of_nil.
  - unfold kv_keys in Hkeys, Hnd. simpl in Hkeys, Hnd. injection Hkeys as <- Hkeys.
    apply NoDup_cons in Hnd as [Hk0 Hnd]. case_decide as Hkk.
    + subst k0. eapply repr_kvs_cons; [done|done|done|done|done].
    + inversion Hrest as [|? ? ? ? ? F1 F2 ? Hv0 Hd' Hdisj' Hk' HF]; subst.
      eapply (repr_kvs_cons _ _ _ _ _ _ F1 (Fv ∪ F2)); [done| |set_solver| |set_solver].
      * apply IH; [done|done|done|set_solver].
      * intros [->|Hin]%kv_keys_set_sub; done.
Qed.

Lemma repr_kvs_snoc h d td F k v t Fv :
  repr_kvs h d td F → repr h v t Fv → Fv ## F → k ∉ kv_keys d →
  repr_kvs h (d ++ [(k, v)]) (td ++ [(k, t)]) (F ∪ Fv).
Proof.
  intros Hd Hv Hdisj Hk. pose proof (repr_kvs_keys _ _ _ _ Hd) as [Hkeys Hnd].
  assert (kv_get k d = None) as Hn by by apply kv_get_None.
  assert (kv_get k td = None) as Hn' by by eapply repr_kvs_get_None.
  rewrite <- (kv_set_absent k v d) by done.
  rewrite <- (kv_set_absent k t td) by (by rewrite <- Hkeys).
  replace (F ∪ Fv) with (Fv ∪ F) by set_solver.
  apply repr_kvs_join; [done..| |done].
  by rewrite !kv_del_absent.
Qed.

Lemma repr_vs_snoc h xs ts F v t Fv :
  repr_vs h xs ts F → repr h v t Fv → Fv ## F →
  repr_vs h (xs ++ [v]) (ts ++ [t]) (F ∪ Fv).
Proof.
  induction 1 as [|v0 t0 xs ts F1 F2 F Hv0 Hxs IH Hdisj ->]; intros Hv Hd; simpl.
  - eapply repr_vs_cons; [done|constructor|set_solver|set_solver].
  - eapply repr_vs_cons; [done|apply IH; [done|set_solver]|set_solver|set_solver].
Qed.

Lemma repr_dict_inv h x d F :
  repr h x (TDict d) F →
  ∃ l dv F0, x = VRef l ∧ h !! l = Some (ODict dv) ∧ repr_kvs h dv d F0
             ∧ l ∉ F0 ∧ F = {[l]} ∪ F0.
Proof. inversion 1; subst. eauto 10. Qed.

Lemma repr_list_inv h x ts F :
  repr h x (TList ts) F →
  ∃ l xs F0, x = VRef l ∧ h !! l = Some (OList xs) ∧ repr_vs h xs ts F0
             ∧ l ∉ F0 ∧ F = {[l]} ∪ F0.
Proof. inversion 1; subst. eauto 10. Qed.

(** ** Primitive operations, run forwards *)

Lemma bind_run {A B} (m : M A) (f : A → M B) h a h1 :
  m h = Some (a, h1) → (m ≫= f) h = f a h1.
Proof. unfold mbind, M_bind. by intros ->. Qed.

Lemma bind_fail {A B} (m : M A) (f : A → M B) h :
  m h = None → (m ≫= f) h = None.
Proof. unfold mbind, M_bind. by intros ->. Qed.

Lemma as_dict_run h l d :
  h !! l = Some (ODict d) → as_dict (VRef l) h = Some ((l, d), h).
Proof. intros Hl. simpl. unfold mbind, M_bind, read. by rewrite Hl. Qed.

Lemma as_dict_fail h x t F :
  repr h x t F → as_tdict t = None → as_dict x h = None.
Proof.
  destruct 1 as [s|l d td F0 F Hl _ _ _|l xs ts F0 F Hl _ _ _]; simpl; try done.
  intros _. unfold mbind, M_bind, read. by rewrite Hl.
Qed.

Lemma dict_setitem_run h l d k v :
  h !! l = Some (ODict d) →
  dict_setitem (VRef l) k v h = Some ((), <[l := ODict (kv_set k v d)]> h).
Proof. intros Hl. unfold dict_setitem. by rewrite (bind_run _ _ _ _ _ (as_dict_run _ _ _ Hl)). Qed.

Lemma dict_getitem_run h l d k v :
  h !! l = Some (ODict d) → kv_get k d = Some v →
  dict_getitem (VRef l) k h = Some (v, h).
Proof.
  intros Hl Hk. unfold dict_getitem.
  rewrite (bind_run _ _ _ _ _ (as_dict_run _ _ _ Hl)). by rewrite Hk.
Qed.

Lemma dict_getitem_missing h l d k :
  h !! l = Some (ODict d) → kv_get k d = None → dict_getitem (VRef l) k h = None.
Proof.
  intros Hl Hk. unfold dict_getitem.
  rewrite (bind_run _ _ _ _ _ (as_dict_run _ _ _ Hl)). by rewrite Hk.
Qed.

Lemma dict_get_run h l d k dflt :
  h !! l = Some (ODict d) →
  dict_get (VRef l) k dflt h = Some (default dflt (kv_get k d), h).
Proof.
  intros Hl. unfold dict_get. by rewrite (bind_run _ _ _ _ _ (as_dict_run _ _ _ Hl)).
Qed.

Lemma dict_setdefault_run h l d k dflt :
  h !! l = Some (ODict d) →
  dict_setdefault (VRef l) k dflt h
  = Some (default dflt (kv_get k d), <[l := ODict (kv_setdefault k dflt d)]> h).
Proof.
  intros Hl. unfold dict_setdefault, kv_setdefault.
  rewrite (bind_run _ _ _ _ _ (as_dict_run _ _ _ Hl)).
  destruct (kv_get k d) as [v|]; simpl; [|done].
  by rewrite list_insert_id.
Qed.

Lemma dict_op_fail h x t F :
  repr h x t F → as_tdict t = None →
  (∀ k v, dict_setitem x k v h = None)
  ∧ (∀ k, dict_getitem x k h = None)
  ∧ (∀ k v, dict_get x k v h = None)
  ∧ (∀ k v, dict_setdefault x k v h = None).
Proof.
  intros Hx Ht. pose proof (as_dict_fail _ _ _ _ Hx Ht) as Hf.
  split_and!; intros; by apply bind_fail.
Qed.

Lemma kv_set_same {A} k (v : A) d : kv_get k d = Some v → kv_set k v d = d.
Proof.
  induction d as [|[k' v'] r IH]; simpl; [done|].
  case_decide; [by intros [= ->]; subst|]. intros H'. by rewrite IH.
Qed.

Lemma kv_del_set_absent {A} k (v : A) d :
  kv_get k d = None → kv_del k (kv_set k v d) = d.
Proof.
  induction d as [|[k' v'] r IH]; simpl.
  - by rewrite decide_True.
  - case_decide as Hkk; [done|]. intros Hg. simpl. rewrite decide_False by done.
    by rewrite IH.
Qed.

Lemma truthy_repr h x t F : repr h x t F → truthy x h = Some (truthy_tree t, h).
Proof.
  destruct 1 as [s|l d td F0 F Hl Hd _ _|l xs ts F0 F Hl Hxs _ _]; simpl; [done|..];
    unfold mbind, M_bind, read; rewrite Hl; simpl; do 3 f_equal.
  - by destruct Hd.
  - by destruct Hxs.
Qed.

(** ** Stores one step apart *)

Lemma agree_off_then F F1 h h1 h2 :
  agree_off F h h1 → agree_off F1 h1 h2 →
  (∀ l, l ∈ F1 → l ∈ F ∨ length h ≤ l) → agree_off F h h2.
Proof.
  intros [L1 A1] [L2 A2] Hb. split; [lia|]. intros l Hl Hn.
  rewrite A2, A1; [done..|lia|]. intros [?|?]%Hb; [done|lia].
Qed.

Lemma agree_off_empty_l F h h1 h2 :
  agree_off ∅ h h1 → agree_off F h1 h2 → agree_off F h h2.
Proof.
  intros [L1 A1] [L2 A2]. split; [lia|]. intros l Hl Hn.
  rewrite A2, A1; [done|done|set_solver|lia|done].
Qed.

(** ** Building literals *)

Lemma builds_scal s : builds (mret (VScal s)) (TScal s).
Proof.
  intros h. exists (VScal s), h, ∅. split_and!; [done|constructor|apply agree_off_refl|set_solver].
Qed.

Lemma repr_vs_scalars h ss : repr_vs h (VScal <$> ss) (TScal <$> ss) ∅.
Proof.
  induction ss as [|s r IH]; simpl; [constructor|].
  eapply repr_vs_cons; [constructor|done|set_solver|set_solver].
Qed.

Lemma repr_kvs_scalars h (ks : list (string * scalar)) :
  NoDup ks.*1 →
  repr_kvs h (prod_map id VScal <$> ks) (prod_map id TScal <$> ks) ∅.
Proof.
  induction ks as [|[k s] r IH]; simpl; [constructor|].
  intros [Hk Hnd]%NoDup_cons.
  eapply repr_kvs_cons; [constructor|by apply IH|set_solver| |set_solver].
  unfold kv_keys. rewrite <- list_fmap_compose.
  by replace (fst ∘ prod_map id VScal) with (@fst string scalar) by done.
Qed.

Lemma repr_new_dict h d td F :
  repr_kvs h d td F →
  repr (h ++ [ODict d]) (VRef (length h)) (TDict td) ({[length h]} ∪ F).
Proof.
  intros Hd. eapply repr_dict; [by apply list_lookup_middle| | |done].
  - eapply repr_kvs_agree; [done|apply agree_off_alloc|set_solver].
  - intros Hin. eapply repr_kvs_bound in Hin; [|done]. lia.
Qed.

Lemma repr_new_list h xs ts F :
  repr_vs h xs ts F →
  repr (h ++ [OList xs]) (VRef (length h)) (TList ts) ({[length h]} ∪ F).
Proof.
  intros Hd. eapply repr_list; [by apply list_lookup_middle| | |done].
  - eapply repr_vs_agree; [done|apply agree_off_alloc|set_solver].
  - intros Hin. eapply (proj2 (proj2 (repr_bound_all h))) in Hin; [|done]. lia.
Qed.

Lemma builds_list_scalars ss : builds (new_list (VScal <$> ss)) (TList (TScal <$> ss)).
Proof.
  intros h. eexists _, _, _. split_and!; [done| |apply agree_off_alloc|].
  - apply repr_new_list, repr_vs_scalars.
  - intros l. rewrite elem_of_union, elem_of_singleton. intros [->|?]; [done|set_solver].
Qed.

Lemma builds_dict_scalars (ks : list (string * scalar)) :
  NoDup ks.*1 →
  builds (new_dict (prod_map id VScal <$> ks)) (TDict (prod_map id TScal <$> ks)).
Proof.
  intros Hnd h. eexists _, _, _. split_and!; [done| |apply agree_off_alloc|].
  - by apply repr_new_dict, repr_kvs_scalars.
  - intros l. rewrite elem_of_union, elem_of_singleton. intros [->|?]; [done|set_solver].
Qed.

Lemma builds_list1 m t : builds m t → builds (v ← m; new_list [v]) (TList [t]).
Proof.
  intros Hm h. destruct (Hm h) as (v & h1 & F & Hrun & Hv & [Hlen Hag] & Hab).
  eexists _, _, _. rewrite (bind_run _ _ _ _ _ Hrun).
  split_and!; [done| | |].
  - apply repr_new_list. eapply repr_vs_cons; [done|constructor|set_solver|done].
  - eapply agree_off_trans; [done|apply agree_off_alloc|set_solver].
  - intros l [->%elem_of_singleton|[Hl|Hl]%elem_of_union]%elem_of_union;
      [lia|by apply Hab|set_solver].
Qed.

(** A dict display whose last entry is built, the others being atoms. *)
Lemma builds_dict1 (ks : list (string * scalar)) k1 m1 t1 :
  NoDup (ks.*1 ++ [k1]) → builds m1 t1 →
  builds (v1 ← m1; new_dict ((prod_map id VScal <$> ks) ++ [(k1, v1)]))
         (TDict ((prod_map id TScal <$> ks) ++ [(k1, t1)])).
Proof.
  intros Hnd Hm h. destruct (Hm h) as (v & h1 & F & Hrun & Hv & Hag & Hab).
  apply NoDup_app in Hnd as (Hnd & Hk1 & _).
  eexists _, _, _. rewrite (bind_run _ _ _ _ _ Hrun).
  split_and!; [done| | |].
  - apply repr_new_dict. apply repr_kvs_snoc; [by apply repr_kvs_scalars|done|set_solver|].
    unfold kv_keys. rewrite <- list_fmap_compose.
    replace (fst ∘ prod_map id VScal) with (@fst string scalar) by done.
    intros Hin. apply (Hk1 _ Hin). by apply list_elem_of_singleton.
  - eapply agree_off_trans; [done|apply agree_off_alloc|set_solver].
  - destruct Hag as [Hlen _].
    intros l [->%elem_of_singleton|[Hl|Hl]%elem_of_union]%elem_of_union;
      [lia|set_solver|by apply Hab].
Qed.

(** A dict display whose last two entries are built. *)
Lemma builds_dict2 (ks : list (string * scalar)) k1 m1 t1 k2 m2 t2 :
  NoDup (ks.*1 ++ [k1; k2]) → builds m1 t1 → builds m2 t2 →
  builds (v1 ← m1; v2 ← m2;
          new_dict ((prod_map id VScal <$> ks) ++ [(k1, v1); (k2, v2)]))
         (TDict ((prod_map id TScal <$> ks) ++ [(k1, t1); (k2, t2)])).
Proof.
  intros Hnd Hm1 Hm2 h.
  destruct (Hm1 h) as (v1 & h1 & F1 & Hrun1 & Hv1 & Hag1 & Hab1).
  destruct (Hm2 h1) as (v2 & h2 & F2 & Hrun2 & Hv2 & Hag2 & Hab2).
  apply NoDup_app in Hnd as (Hnd & Hk & [Hk12 _]%NoDup_cons).
  assert (F1 ## F2) as Hdisj.
  { intros l Hl1 Hl2. apply Hab2 in Hl2. eapply repr_bound in Hl1; [|done]. lia. }
  eexists _, _, _.
  rewrite (bind_run _ _ _ _ _ Hrun1), (bind_run _ _ _ _ _ Hrun2).
  split_and!; [done| | |].
  - apply repr_new_dict.
    replace ((prod_map id VScal <$> ks) ++ [(k1, v1); (k2, v2)])
      with (((prod_map id VScal <$> ks) ++ [(k1, v1)]) ++ [(k2, v2)])
      by by rewrite <- app_assoc.
    replace ((prod_map id TScal <$> ks) ++ [(k1, t1); (k2, t2)])
      with (((prod_map id TScal <$> ks) ++ [(k1, t1)]) ++ [(k2, t2)])
      by by rewrite <- app_assoc.
    assert (kv_keys (prod_map id VScal <$> ks) = ks.*1) as Hkeys.
    { unfold kv_keys. rewrite <- list_fmap_compose.
      by replace (fst ∘ prod_map id VScal) with (@fst string scalar) by done. }
    assert (repr_kvs h2 ((prod_map id VScal <$> ks) ++ [(k1, v1)])
              ((prod_map id TScal <$> ks) ++ [(k1, t1)]) (∅ ∪ F1)) as H1.
    { apply repr_kvs_snoc; [by apply repr_kvs_scalars| |set_solver|].
      - by eapply repr_agree; [|done|set_solver].
      - rewrite Hkeys. intros Hin. apply (Hk _ Hin). set_solver. }
    apply repr_kvs_snoc; [done|done|set_solver|].
    unfold kv_keys in *. rewrite fmap_app, Hkeys. simpl.
    rewrite elem_of_app, list_elem_of_singleton. intros [Hin| ->].
    + apply (Hk _ Hin). set_solver.
    + apply Hk12. set_solver.
  - eapply agree_off_trans; [|apply agree_off_alloc|].
    + by eapply agree_off_trans; [done|done|].
    + set_solver.
  - destruct Hag1 as [Hlen1 _], Hag2 as [Hlen2 _].
    intros l [->%elem_of_singleton|[[Hl|Hl]%elem_of_union|Hl]%elem_of_union]%elem_of_union.
    + lia. + set_solver. + by apply Hab1. + apply Hab2 in Hl. lia.
Qed.

(** ** Statements on a document in the store *)

Lemma repr_kvs_rest h dv d F0 k :
  repr_kvs h dv d F0 →
  ∃ Frest, Frest ⊆ F0 ∧ repr_kvs h (kv_del k dv) (kv_del k d) Frest.
Proof.
  intros Hd. destruct (kv_get k dv) as [v|] eqn:Hk.
  - destruct (repr_kvs_split _ _ _ _ _ _ Hd Hk) as (t & Fk & Frest & _ & _ & Hr & _ & ->).
    exists Frest. split; [set_solver|done].
  - exists F0. split; [done|].
    rewrite !kv_del_absent; [done|by eapply repr_kvs_get_None|done].
Qed.

(** [x[k] = <a value just built>] *)
Lemma updates_setitem m tv x k :
  builds m tv → updates (v ← m; dict_setitem x k v) x (t_setitem k tv).
Proof.
  intros Hm h t F Hx.
  destruct (Hm h) as (v & h1 & Fv & Hrun & Hv & Hag & Hab).
  rewrite (bind_run _ _ _ _ _ Hrun).
  assert (repr h1 x t F) as Hx1 by by eapply repr_agree; [|done|set_solver].
  unfold t_setitem. destruct (as_tdict t) as [d|] eqn:Ht; simpl.
  2:{ by apply (dict_op_fail _ _ _ _ Hx1 Ht). }
  destruct t as [|d'|]; simplify_eq/=.
  apply repr_dict_inv in Hx1 as (l & dv & F0 & -> & Hl & Hd & Hl0 & ->).
  rewrite (dict_setitem_run _ _ _ _ _ Hl).
  destruct (repr_kvs_rest _ _ _ _ k Hd) as (Frest & Hsub & Hrest).
  pose proof (repr_kvs_keys _ _ _ _ Hd) as [Hkeys Hnd].
  pose proof (agree_off_store h1 l (ODict (kv_set k v dv))) as Hag2.
  assert (l < length h) as Hlh by (eapply repr_bound; [done|set_solver]).
  assert (l ∉ Fv) as HlFv by (intros ?%Hab; lia).
  assert (Fv ## Frest) as Hdisj.
  { intros l' Hl1 Hl2. apply Hab in Hl1.
    assert (l' < length h); [|lia]. eapply repr_bound; [done|set_solver]. }
  exists (<[l := ODict (kv_set k v dv)]> h1), ({[l]} ∪ (Fv ∪ Frest)).
  split_and!; [done| | |].
  - eapply repr_dict; [|apply (repr_kvs_join _ k v tv Fv)| |done].
    + apply list_lookup_insert_eq. by eapply lookup_lt_Some.
    + by eapply repr_agree; [|done|set_solver].
    + done.
    + done.
    + by eapply repr_kvs_agree; [|done|set_solver].
    + done.
    + set_solver.
  - eapply agree_off_trans; [done|done|set_solver].
  - intros l'. rewrite !elem_of_union, elem_of_singleton.
    intros [->|[?%Hab|?]]; [left|by right|left]; set_solver.
Qed.

Lemma updates_seq m1 m2 x f g :
  updates m1 x f → updates m2 x g → updates (m1;; m2) x (t_seq f g).
Proof.
  intros H1 H2 h t F Hx. unfold t_seq. specialize (H1 h t F Hx).
  destruct (f t) as [t1|]; simpl; [|by apply bind_fail].
  destruct H1 as (h1 & F1 & Hrun1 & Hx1 & Hag1 & Hb1).
  rewrite (bind_run _ _ _ _ _ Hrun1). specialize (H2 h1 t1 F1 Hx1).
  destruct (g t1) as [t2|]; [|done].
  destruct H2 as (h2 & F2 & Hrun2 & Hx2 & Hag2 & Hb2).
  exists h2, F2. split_and!; [done|done|by eapply agree_off_then|].
  intros l [Hl|Hl]%Hb2; [by apply Hb1|]. right. destruct Hag1. lia.
Qed.

Lemma updates_skip x : updates (mret ()) x Some.
Proof.
  intros h t F Hx. exists h, F. split_and!; [done|done|apply agree_off_refl|auto].
Qed.

Lemma updates_if (b : bool) m1 m2 x f1 f2 :
  updates m1 x f1 → updates m2 x f2 →
  updates (if b then m1 else m2) x (if b then f1 else f2).
Proof. by destruct b. Qed.

(** The statements [body] on the value [r] found under key [k] of dict [l]. *)
Lemma updates_child h l d1 td1 k r sub Fr Frest body f :
  h !! l = Some (ODict d1) → kv_get k d1 = Some r → kv_get k td1 = Some sub →
  repr h r sub Fr → repr_kvs h (kv_del k d1) (kv_del k td1) Frest →
  Fr ## Frest → l ∉ Fr ∪ Frest →
  kv_keys d1 = kv_keys td1 → NoDup (kv_keys d1) →
  updates body r f →
  match f sub with
  | Some sub' =>
      ∃ h' F', body h = Some ((), h')
               ∧ repr h' (VRef l) (TDict (kv_set k sub' td1)) F'
               ∧ agree_off Fr h h'
               ∧ ∀ l', l' ∈ F' → l' ∈ {[l]} ∪ Fr ∪ Frest ∨ length h ≤ l'
  | None => body h = None
  end.
Proof.
  intros Hl Hk Hk' Hr Hrest Hdisj Hln Hkeys Hnd Hbody.
  specialize (Hbody h sub Fr Hr). destruct (f sub) as [sub'|]; [|done].
  destruct Hbody as (h' & Fr' & Hrun & Hr' & Hag & Hb).
  assert (∀ l', l' ∈ Frest → l' < length h) as Hbr
    by (intros l' ?; by eapply repr_kvs_bound).
  assert (l < length h) as Hlh by by eapply lookup_lt_Some.
  exists h', ({[l]} ∪ (Fr' ∪ Frest)). split_and!; [done| |done|].
  - eapply repr_dict; [| | |done].
    + destruct Hag as [_ Hag]. rewrite Hag; [done..|set_solver].
    + rewrite <- (kv_set_same k r d1) by done.
      apply repr_kvs_join; [done..| |].
      * by eapply repr_kvs_agree; [|done|].
      * intros l' [Hl1|Hl1]%Hb Hl2; [set_solver|]. apply Hbr in Hl2. lia.
    + intros [[Hin|Hin]%Hb|Hin]%elem_of_union; [set_solver|lia|set_solver].
  - intros l'. rewrite !elem_of_union, elem_of_singleton.
    intros [->|[[?|?]%Hb|?]]; auto.
Qed.

(** [r = x.setdefault(k, {})] followed by statements on [r]. *)
Lemma updates_setdefault x k body f :
  (∀ r, updates (body r) r f) →
  updates (e ← new_dict []; r ← dict_setdefault x k e; body r) x
          (t_setdefault k f).
Proof.
  intros Hbody h t F Hx. rewrite (bind_run _ _ _ _ _ (eq_refl : new_dict [] h = Some _)).
  set (le := length h). set (h1 := h ++ [ODict []]).
  assert (agree_off ∅ h h1) as Hag1 by apply agree_off_alloc.
  assert (repr h1 x t F) as Hx1 by by eapply repr_agree; [|done|set_solver].
  unfold t_setdefault. destruct (as_tdict t) as [d|] eqn:Ht; simpl.
  2:{ apply bind_fail. by apply (dict_op_fail _ _ _ _ Hx1 Ht). }
  destruct t as [|d'|]; simplify_eq/=.
  apply repr_dict_inv in Hx1 as (l & dv & F0 & -> & Hl & Hd & Hl0 & ->).
  rewrite (bind_run _ _ _ _ _ (dict_setdefault_run _ _ _ k (VRef le) Hl)).
  set (d1 := kv_setdefault k (VRef le) dv).
  set (h2 := <[l := ODict d1]> h1).
  assert (l < length h) as Hlh by (eapply repr_bound; [done|set_solver]).
  assert (l < length h1) as Hlh1 by by eapply lookup_lt_Some.
  assert (agree_off {[l]} h1 h2) as Hag2 by apply agree_off_store.
  assert (h2 !! l = Some (ODict d1)) as Hl2 by by apply list_lookup_insert_eq.
  assert (∀ l', l' ∈ F0 → l' < length h) as HbF0.
  { intros l' ?. eapply repr_bound; [done|set_solver]. }
  assert (length h2 = S (length h)) as Hlen2.
  { unfold h2, h1. rewrite length_insert, length_app. simpl. lia. }
  pose proof (repr_kvs_keys _ _ _ _ Hd) as [Hkeys Hnd].
  (* the value found under [k], the document it stands for, and the rest *)
  assert (∃ r sub Fr Frest,
            default (VRef le) (kv_get k dv) = r
            ∧ kv_get k d1 = Some r
            ∧ kv_get k (kv_setdefault k (TDict []) d) = Some sub
            ∧ repr h2 r sub Fr
            ∧ repr_kvs h2 (kv_del k d1) (kv_del k (kv_setdefault k (TDict []) d)) Frest
            ∧ Fr ## Frest ∧ l ∉ Fr ∪ Frest
            ∧ Fr ∪ Frest ⊆ F0 ∪ {[le]}
            ∧ kv_keys d1 = kv_keys (kv_setdefault k (TDict []) d)
            ∧ NoDup (kv_keys d1))
    as (r & sub & Fr & Frest & -> & Hk1 & Hk2 & Hr & Hrest & Hdisj & Hln & Hsub & Hkeys1 & Hnd1).
  { unfold d1, kv_setdefault. destruct (kv_get k dv) as [v0|] eqn:Hk; simpl.
    - destruct (repr_kvs_split _ _ _ _ _ _ Hd Hk) as (t0 & Fk & Frest & Hk' & Hv0 & Hr & Hdj & ->).
      rewrite Hk'. exists v0, t0, Fk, Frest.
      split_and!; [done|done|done| | |done|set_solver|set_solver|done|done].
      + by eapply repr_agree; [|done|set_solver].
      + by eapply repr_kvs_agree; [|done|set_solver].
    - pose proof (repr_kvs_get_None _ _ _ _ _ Hd Hk) as Hk'. rewrite Hk'.
      exists (VRef le), (TDict []), {[le]}, F0. rewrite !kv_get_set_eq.
      rewrite !kv_del_set_absent by done.
      split_and!; [done|done|done| | | | | | |].
      + eapply repr_dict; [|constructor|set_solver|set_solver].
        unfold h2. rewrite list_lookup_insert_ne by (unfold le; lia).
        by apply list_lookup_middle.
      + by eapply repr_kvs_agree; [|done|set_solver].
      + intros l' ->%elem_of_singleton ?%HbF0. unfold le in *. lia.
      + rewrite not_elem_of_union, elem_of_singleton. unfold le. split; [lia|done].
      + set_solver.
      + rewrite !kv_keys_set, Hkeys. by repeat case_decide.
      + by apply kv_set_NoDup. }
  pose proof (updates_child h2 l d1 _ k r sub Fr Frest (body r) f
                Hl2 Hk1 Hk2 Hr Hrest Hdisj Hln Hkeys1 Hnd1 (Hbody r)) as Hc.
  rewrite Hk2. simpl. destruct (f sub) as [sub'|]; simpl; [|done].
  destruct Hc as (h' & F' & Hrun & Hx' & Hag3 & Hb).
  exists h', F'. split_and!; [done|done| |].
  - destruct Hag1 as [L1 A1], Hag2 as [L2 A2], Hag3 as [L3 A3].
    split; [lia|]. intros l' Hl' Hn.
    rewrite A3, A2, A1; [done|done|set_solver|lia|set_solver|lia|].
    intros Hin. assert (l' ∈ F0 ∪ {[le]}) as Hin' by set_solver.
    apply elem_of_union in Hin' as [?|Hin']; [set_solver|].
    apply elem_of_singleton in Hin'. unfold le in *. lia.
  - intros l' [Hl'|Hl']%Hb; [|right; lia].
    assert (l' ∈ {[l]} ∪ F0 ∪ {[le]}) as Hin' by set_solver.
    apply elem_of_union in Hin' as [?|Hin']; [by left|].
    apply elem_of_singleton in Hin' as ->. by right.
Qed.

(** [r = x[k]] followed by statements on [r]. *)
Lemma updates_getitem x k body f :
  (∀ r, updates (body r) r f) →
  updates (r ← dict_getitem x k; body r) x (t_getitem k f).
Proof.
  intros Hbody h t F Hx.
  unfold t_getitem. destruct (as_tdict t) as [d|] eqn:Ht; simpl.
  2:{ apply bind_fail. by apply (dict_op_fail _ _ _ _ Hx Ht). }
  destruct t as [|d'|]; simplify_eq/=.
  apply repr_dict_inv in Hx as (l & dv & F0 & -> & Hl & Hd & Hl0 & ->).
  pose proof (repr_kvs_keys _ _ _ _ Hd) as [Hkeys Hnd].
  destruct (kv_get k dv) as [r|] eqn:Hk.
  2:{ rewrite (repr_kvs_get_None _ _ _ _ _ Hd Hk). simpl.
      apply bind_fail. by eapply dict_getitem_missing. }
  rewrite (bind_run _ _ _ _ _ (dict_getitem_run _ _ _ _ _ Hl Hk)).
  destruct (repr_kvs_split _ _ _ _ _ _ Hd Hk) as (sub & Fr & Frest & Hk' & Hr & Hrest & Hdisj & ->).
  rewrite Hk'. simpl.
  pose proof (updates_child h l dv d k r sub Fr Frest (body r) f
                Hl Hk Hk' Hr Hrest Hdisj Hl0 Hkeys Hnd (Hbody r)) as Hc.
  destruct (f sub) as [sub'|]; simpl; [|done].
  destruct Hc as (h' & F' & Hrun & Hx' & Hag3 & Hb).
  exists h', F'. split_and!; [done|done| |].
  - eapply agree_off_weaken; [done|set_solver].
  - intros l' [Hl'|Hl']%Hb; [left; set_solver|by right].
Qed.

(** A value just built, then updated in place. *)
Lemma builds_then_update m t u f t' :
  builds m t → (∀ v, updates (u v) v f) → f t = Some t' →
  builds (v ← m; u v;; mret v) t'.
Proof.
  intros Hm Hu Hf h. destruct (Hm h) as (v & h1 & F & Hrun & Hv & [L1 A1] & Hab).
  rewrite (bind_run _ _ _ _ _ Hrun). specialize (Hu v h1 t F Hv). rewrite Hf in Hu.
  destruct Hu as (h2 & F' & Hrun2 & Hv' & [L2 A2] & Hb).
  rewrite (bind_run _ _ _ _ _ Hrun2). exists v, h2, F'.
  split_and!; [done|done| |].
  - split; [lia|]. intros l Hl _. rewrite A2, A1; [done|done|done|lia|].
    intros ?%Hab. lia.
  - intros l [?%Hab|?]%Hb; lia.
Qed.

(** ** The literals of patch_node *)

Lemma builds_extensions : builds build_extensions extensions_tree.
Proof.
  apply builds_list1.
  apply (builds_dict_scalars [("image", SStr qemu_guest_agent_image)]).
  by apply NoDup_singleton.
Qed.

Lemma builds_access : builds build_access talos_api_access.
Proof.
  apply (builds_dict2 [("enabled", SBool true)]
           "allowedRoles" _ _ "allowedKubernetesNamespaces" _ _).
  - by apply (bool_decide_unpack _).
  - apply (builds_list_scalars [SStr "os:reader"]).
  - apply (builds_list_scalars [SStr "kube-system"]).
Qed.

Lemma builds_ecp : builds build_ecp external_cloud_provider.
Proof.
  apply (builds_dict1 [("enabled", SBool true)] "manifests" _ _).
  - by apply (bool_decide_unpack _).
  - apply (builds_list_scalars [SStr ccm_manifest; SStr cert_approver_manifest]).
Qed.

Lemma builds_iface ip cidr gw ifname vip :
  builds (build_iface ip cidr gw ifname vip) (iface_tree ip cidr gw ifname vip).
Proof.
  unfold build_iface.
  eapply (builds_then_update _ (TDict (iface_base ip cidr gw ifname)) _
            (if truthy_str vip then t_setitem "vip" (vip_tree vip) else Some)).
  - apply (builds_dict2 [("interface", SStr ifname); ("dhcp", SBool false)]
             "addresses" _ _ "routes" _ _).
    + by apply (bool_decide_unpack _).
    + apply (builds_list_scalars [SStr (ip +:+ "/" +:+ cidr)]).
    + apply builds_list1.
      apply (builds_dict_scalars [("network", SStr "0.0.0.0/0"); ("gateway", SStr gw)]).
      by apply (bool_decide_unpack _).
  - intros v. apply updates_if; [|apply updates_skip].
    apply updates_setitem.
    apply (builds_dict_scalars [("ip", SStr (str_of vip))]). by apply NoDup_singleton.
  - unfold iface_tree. by destruct (truthy_str vip).
Qed.

(** ** Lines 169-177 *)

Lemma repr_default h dv d F0 k le :
  repr_kvs h dv d F0 → repr h (VRef le) (TDict []) {[le]} →
  ∃ Fc, repr h (default (VRef le) (kv_get k dv))
               (default (TDict []) (kv_get k d)) Fc.
Proof.
  intros Hd He. destruct (kv_get k dv) as [v|] eqn:Hk; simpl.
  - destruct (repr_kvs_split _ _ _ _ _ _ Hd Hk) as (t0 & Fk & Frest & -> & Hv & _).
    by exists Fk.
  - rewrite (repr_kvs_get_None _ _ _ _ _ Hd Hk). by exists {[le]}.
Qed.

Lemma repr_empty_dict h : repr (h ++ [ODict []]) (VRef (length h)) (TDict []) {[length h]}.
Proof.
  eapply repr_dict; [by apply list_lookup_middle|constructor|set_solver|set_solver].
Qed.

Lemma updates_cluster cfg : updates (cluster_stmts cfg) cfg t_cluster.
Proof.
  intros h t F Hx. unfold cluster_stmts, t_cluster.
  rewrite (bind_run _ _ _ _ _ (eq_refl : new_dict [] h = Some _)).
  set (h1 := h ++ [ODict []]).
  assert (agree_off ∅ h h1) as Hag1 by apply agree_off_alloc.
  assert (repr h1 cfg t F) as Hx1 by by eapply repr_agree; [|done|set_solver].
  destruct (as_tdict t) as [d|] eqn:Ht; simpl.
  2:{ apply bind_fail. by apply (dict_op_fail _ _ _ _ Hx1 Ht). }
  destruct t as [|d'|]; simplify_eq/=.
  pose proof Hx1 as Hx1'.
  apply repr_dict_inv in Hx1' as (l & dv & F0 & -> & Hl & Hd & Hl0 & ->).
  rewrite (bind_run _ _ _ _ _ (dict_get_run _ _ _ "cluster" (VRef (length h)) Hl)).
  destruct (repr_default _ _ _ _ "cluster" (length h) Hd (repr_empty_dict h))
    as (Fc & Hc).
  rewrite (bind_run _ _ _ _ _ (eq_refl : new_dict [] h1 = Some _)).
  set (h2 := h1 ++ [ODict []]).
  assert (agree_off ∅ h1 h2) as Hag2 by apply agree_off_alloc.
  assert (agree_off ∅ h h2) as Hag by by eapply agree_off_trans.
  assert (repr h2 (VRef l) (TDict d) ({[l]} ∪ F0)) as Hx2
    by by eapply repr_agree; [|done|set_solver].
  eapply repr_agree in Hc; [|exact Hag2|set_solver].
  unfold is_control_plane.
  destruct (as_tdict (default (TDict []) (kv_get "cluster" d))) as [cd|] eqn:Hct; simpl.
  2:{ apply bind_fail. by apply (dict_op_fail _ _ _ _ Hc Hct). }
  destruct (default (TDict []) (kv_get "cluster" d)) as [|cd'|]; simplify_eq/=.
  apply repr_dict_inv in Hc as (lc & cdv & Fc0 & Hceq & Hlc & Hcd & _ & ->).
  rewrite Hceq.
  rewrite (bind_run _ _ _ _ _ (dict_get_run _ _ _ "controlPlane" (VRef (length h1)) Hlc)).
  destruct (repr_default _ _ _ _ "controlPlane" (length h1) Hcd (repr_empty_dict h1))
    as (Fp & Hp).
  rewrite (bind_run _ _ _ _ _ (truthy_repr _ _ _ _ Hp)).
  destruct (truthy_tree (default (TDict []) (kv_get "controlPlane" cd))).
  - pose proof (updates_setdefault (VRef l) "cluster"
                  (λ cluster, v ← build_ecp;
                              dict_setitem cluster "externalCloudProvider" v)
                  (t_setitem "externalCloudProvider" external_cloud_provider)
                  (λ r, updates_setitem _ _ r _ builds_ecp)
                  h2 (TDict d) _ Hx2) as Hu.
    destruct (t_setdefault "cluster" _ (TDict d)) as [t'|]; [|done].
    destruct Hu as (h3 & F' & Hrun & Hx3 & Hag3 & Hb).
    exists h3, F'. split_and!; [done|done|by eapply agree_off_empty_l|].
    intros l' [?|?]%Hb; [by left|right]. destruct Hag. lia.
  - exists h2, ({[l]} ∪ F0). split_and!; [done|done| |auto].
    eapply agree_off_weaken; [exact Hag|set_solver].
Qed.

(** ** The statements of patch_node on a document in the store *)

Lemma updates_patch_stmts cfg ip cidr gw ns ifname disk vip enable_ccm :
  updates (patch_stmts cfg ip cidr gw ns ifname disk vip enable_ccm) cfg
          (patch_tree ip cidr gw ns ifname disk vip enable_ccm).
Proof.
  unfold patch_stmts, patch_tree.
  apply updates_seq; [|apply updates_seq; [|apply updates_seq]].
  - apply updates_setdefault. intros machine.
    apply updates_setdefault. intros install_config.
    apply updates_seq; [|apply updates_seq].
    + apply updates_setitem, builds_scal.
    + apply updates_setitem, builds_extensions.
    + apply updates_setitem, (builds_list_scalars [SStr "net.ifnames=0"]).
  - apply updates_getitem. intros machine.
    apply updates_setdefault. intros mnet.
    apply updates_seq.
    + apply updates_setitem, builds_list1, builds_iface.
    + apply updates_setitem, (builds_list_scalars [SStr ns]).
  - apply updates_getitem. intros machine.
    apply updates_setdefault. intros kubelet.
    apply updates_seq; [|apply updates_seq].
    + apply (updates_setdefault kubelet "extraArgs" (λ _, mret ()) Some).
      intros r. apply updates_skip.
    + apply updates_getitem. intros extra.
      apply updates_setitem, builds_scal.
    + apply updates_if; [|apply updates_skip].
      apply updates_getitem. intros extra.
      apply updates_setitem, builds_scal.
  - apply updates_if; [|apply updates_skip].
    apply updates_seq; [|apply updates_cluster].
    apply updates_getitem. intros machine.
    apply updates_setdefault. intros features.
    apply updates_setitem, builds_access.
Qed.

(** ** Induction on documents *)

Lemma tree_ind' (Q : tree → Prop) :
  (∀ s, Q (TScal s)) →
  (∀ d, Forall (λ kt, Q kt.2) d → Q (TDict d)) →
  (∀ ts, Forall Q ts → Q (TList ts)) →
  ∀ t, Q t.
Proof.
  intros Hs Hd Hl. fix IH 1. intros [s|d|ts].
  - apply Hs.
  - apply Hd. induction d as [|[k t] r IHr]; constructor; [apply IH|apply IHr].
  - apply Hl. induction ts as [|t r IHr]; constructor; [apply IH|apply IHr].
Qed.

Lemma max_list_le n ns : max_list ns ≤ n ↔ Forall (λ m, m ≤ n) ns.
Proof.
  induction ns as [|m ns IH]; simpl.
  - split; [constructor|lia].
  - rewrite Forall_cons, <- IH. lia.
Qed.

Lemma max_list_fmap_le {A} (f : A → nat) l n :
  max_list (f <$> l) ≤ n ↔ Forall (λ a, f a ≤ n) l.
Proof. by rewrite max_list_le, Forall_fmap. Qed.

(** ** Reading a document off the store *)

Lemma reify_repr_all h :
  (∀ x t F, repr h x t F → ∀ fuel, depth t ≤ fuel → reify fuel h x = Some t)
  ∧ (∀ d td F, repr_kvs h d td F →
       ∀ fuel, Forall (λ kt, depth kt.2 ≤ fuel) td →
         mapM (λ '(k, v), (k,.) <$> reify fuel h v) d = Some td)
  ∧ (∀ xs ts F, repr_vs h xs ts F →
       ∀ fuel, Forall (λ t, depth t ≤ fuel) ts →
         mapM (reify fuel h) xs = Some ts).
Proof.
  apply repr_mutind.
  - by intros s [|fuel] _.
  - intros l d td F0 F Hl _ IH _ _ [|fuel] Hd; simpl in Hd; [lia|].
    simpl. rewrite Hl, IH; [done|].
    apply max_list_fmap_le. lia.
  - intros l xs ts F0 F Hl _ IH _ _ [|fuel] Hd; simpl in Hd; [lia|].
    simpl. rewrite Hl, IH; [done|].
    apply max_list_fmap_le. lia.
  - done.
  - intros k v t d td F1 F2 F _ IH1 _ IH2 _ _ _ fuel [Ht Htd]%Forall_cons.
    simpl. rewrite IH1 by done. simpl. by rewrite IH2.
  - done.
  - intros v t xs ts F1 F2 F _ IH1 _ IH2 _ _ fuel [Ht Hts]%Forall_cons.
    simpl. rewrite IH1 by done. simpl. by rewrite IH2.
Qed.

Lemma repr_depth_all h :
  (∀ x t F, repr h x t F → depth t ≤ size F)
  ∧ (∀ d td F, repr_kvs h d td F → Forall (λ kt, depth kt.2 ≤ size F) td)
  ∧ (∀ xs ts F, repr_vs h xs ts F → Forall (λ t, depth t ≤ size F) ts).
Proof.
  apply repr_mutind.
  - intros s. simpl. lia.
  - intros l d td F0 F _ _ IH Hl ->. simpl.
    rewrite size_union, size_singleton by set_solver.
    apply le_n_S, max_list_fmap_le. done.
  - intros l xs ts F0 F _ _ IH Hl ->. simpl.
    rewrite size_union, size_singleton by set_solver.
    apply le_n_S, max_list_fmap_le. done.
  - constructor.
  - intros k v t d td F1 F2 F _ IH1 _ IH2 Hdisj _ ->.
    rewrite size_union by done. constructor; [simpl; lia|].
    eapply Forall_impl; [done|]. simpl. intros; lia.
  - constructor.
  - intros v t xs ts F1 F2 F _ IH1 _ IH2 Hdisj ->.
    rewrite size_union by done. constructor; [simpl; lia|].
    eapply Forall_impl; [done|]. simpl. intros; lia.
Qed.

Lemma size_below (F : gset loc) n : (∀ l, l ∈ F → l < n) → size F ≤ n.
Proof.
  intros HF. rewrite <- (size_set_seq (C := gset nat) 0 n).
  apply subseteq_size. intros l Hl. apply elem_of_set_seq. apply HF in Hl. lia.
Qed.

Lemma repr_depth h x t F : repr h x t F → depth t ≤ length h.
Proof.
  intros Hx. etrans; [by eapply (proj1 (repr_depth_all h))|].
  apply size_below. intros l. by eapply repr_bound.
Qed.

(** [yaml.safe_dump] writes the document the value stands for. *)
Lemma dump_repr h x t F : repr h x t F → dump x h = Some (t, h).
Proof.
  intros Hx. unfold dump.
  rewrite (proj1 (reify_repr_all h) _ _ _ Hx); [done|].
  apply repr_depth in Hx. lia.
Qed.

(** ** A dict or list under construction *)

Lemma fill_dict h ly acc tacc Facc k v t Fv :
  h !! ly = Some (ODict acc) → repr_kvs h acc tacc Facc → repr h v t Fv →
  ly ∉ Facc → ly ∉ Fv → Fv ## Facc → k ∉ kv_keys acc →
  ∃ h', dict_setitem (VRef ly) k v h = Some ((), h')
        ∧ h' !! ly = Some (ODict (acc ++ [(k, v)]))
        ∧ repr_kvs h' (acc ++ [(k, v)]) (tacc ++ [(k, t)]) (Facc ∪ Fv)
        ∧ agree_off {[ly]} h h'.
Proof.
  intros Hl Hacc Hv H1 H2 Hd Hk. eexists. split; [by apply dict_setitem_run|].
  rewrite kv_set_absent by done.
  split_and!; [|apply repr_kvs_snoc; [| |done..]|apply agree_off_store].
  - apply list_lookup_insert_eq. by eapply lookup_lt_Some.
  - by eapply repr_kvs_agree; [|apply agree_off_store|set_solver].
  - by eapply repr_agree; [|apply agree_off_store|set_solver].
Qed.

Lemma list_append_run h l xs v :
  h !! l = Some (OList xs) →
  list_append (VRef l) v h = Some ((), <[l := OList (xs ++ [v])]> h).
Proof.
  intros Hl. unfold list_append. simpl. unfold mbind, M_bind, read. by rewrite Hl.
Qed.

Lemma fill_list h ly acc tacc Facc v t Fv :
  h !! ly = Some (OList acc) → repr_vs h acc tacc Facc → repr h v t Fv →
  ly ∉ Facc → ly ∉ Fv → Fv ## Facc →
  ∃ h', list_append (VRef ly) v h = Some ((), h')
        ∧ h' !! ly = Some (OList (acc ++ [v]))
        ∧ repr_vs h' (acc ++ [v]) (tacc ++ [t]) (Facc ∪ Fv)
        ∧ agree_off {[ly]} h h'.
Proof.
  intros Hl Hacc Hv H1 H2 Hd. eexists. split; [by apply list_append_run|].
  split_and!; [|apply repr_vs_snoc; [| |done]|apply agree_off_store].
  - apply list_lookup_insert_eq. by eapply lookup_lt_Some.
  - by eapply repr_vs_agree; [|apply agree_off_store|set_solver].
  - by eapply repr_agree; [|apply agree_off_store|set_solver].
Qed.

Lemma agree_off_new S h h1 h2 :
  agree_off ∅ h h1 → agree_off S h1 h2 → (∀ l, l ∈ S → length h ≤ l) →
  agree_off ∅ h h2.
Proof.
  intros [L1 A1] [L2 A2] HS. split; [lia|]. intros l Hl _.
  rewrite A2, A1; [done|done|set_solver|lia|]. intros ?%HS. lia.
Qed.

Lemma bind_bind_run {A B C} (m : M A) (f : A → M B) (g : B → M C) h a h1 b h2 :
  m h = Some (a, h1) → f a h1 = Some (b, h2) → ((m ≫= f) ≫= g) h = g b h2.
Proof. intros H1 H2. unfold mbind, M_bind. by rewrite H1, H2. Qed.

(** ** yaml.safe_load builds the document of the file *)

Lemma load_dict_loop ly d :
  Forall (λ kt, builds (load kt.2) kt.2) d →
  ∀ h acc tacc Facc,
    h !! ly = Some (ODict acc) → repr_kvs h acc tacc Facc → ly ∉ Facc →
    NoDup (kv_keys acc ++ kv_keys d) →
    ∃ h' dv F',
      foldM (λ _ '(k, t), v ← load t; dict_setitem (VRef ly) k v) () d h
        = Some ((), h')
      ∧ h' !! ly = Some (ODict (acc ++ dv))
      ∧ repr_kvs h' (acc ++ dv) (tacc ++ d) F'
      ∧ agree_off {[ly]} h h' ∧ ly ∉ F'
      ∧ ∀ l, l ∈ F' → l ∈ Facc ∨ length h ≤ l.
Proof.
  induction d as [|[k t] d IH]; intros Hall h acc tacc Facc Hl Hacc Hly Hnd.
  - exists h, [], Facc. rewrite !app_nil_r.
    split_and!; [done|done|done|apply agree_off_refl|done|auto].
  - apply Forall_cons in Hall as [Ht Hall]. simpl in Ht.
    destruct (Ht h) as (v & h1 & Fv & Hrun & Hv & Hag1 & Hab).
    assert (ly < length h) as Hlt by by eapply lookup_lt_Some.
    assert (∀ l, l ∈ Facc → l < length h) as Hbacc
      by (intros l ?; by eapply repr_kvs_bound).
    unfold kv_keys in Hnd. simpl in Hnd. pose proof Hnd as Hnd0.
    apply NoDup_app in Hnd as (Hnd1 & Hnd2 & [Hk Hnd3]%NoDup_cons).
    destruct (fill_dict h1 ly acc tacc Facc k v t Fv) as (h2 & Hrun2 & Hl2 & Hacc2 & Hag2).
    { destruct Hag1 as [_ A]. by rewrite A. }
    { by eapply repr_kvs_agree; [|done|set_solver]. }
    { done. } { done. } { intros ?%Hab. lia. }
    { intros l ?%Hab ?%Hbacc. lia. }
    { intros Hin. apply (Hnd2 _ Hin). apply elem_of_cons. by left. }
    destruct (IH Hall h2 (acc ++ [(k, v)]) (tacc ++ [(k, t)]) (Facc ∪ Fv))
      as (h' & dv & F' & Hrun3 & Hl3 & Hacc3 & Hag3 & Hly3 & Hb3); [done|done| | |].
    { rewrite not_elem_of_union. split; [done|]. intros ?%Hab. lia. }
    { unfold kv_keys. by rewrite fmap_app, <- app_assoc. }
    exists h', ((k, v) :: dv), F'. simpl.
    rewrite (bind_bind_run _ _ _ _ _ _ _ _ Hrun Hrun2).
    rewrite <- !app_assoc in *. simpl in *.
    split_and!; [exact Hrun3|done|done| |done|].
    + eapply agree_off_trans; [|done|].
      * by eapply agree_off_trans; [done|done|].
      * set_solver.
    + destruct Hag1 as [L1 _], Hag2 as [L2 _].
      intros l [[?|?%Hab]%elem_of_union|?]%Hb3; [by left|right; lia|right; lia].
Qed.

Lemma load_list_loop ly ts :
  Forall (λ t, builds (load t) t) ts →
  ∀ h acc tacc Facc,
    h !! ly = Some (OList acc) → repr_vs h acc tacc Facc → ly ∉ Facc →
    ∃ h' xs F',
      foldM (λ _ t, v ← load t; list_append (VRef ly) v) () ts h = Some ((), h')
      ∧ h' !! ly = Some (OList (acc ++ xs))
      ∧ repr_vs h' (acc ++ xs) (tacc ++ ts) F'
      ∧ agree_off {[ly]} h h' ∧ ly ∉ F'
      ∧ ∀ l, l ∈ F' → l ∈ Facc ∨ length h ≤ l.
Proof.
  induction ts as [|t ts IH]; intros Hall h acc tacc Facc Hl Hacc Hly.
  - exists h, [], Facc. rewrite !app_nil_r.
    split_and!; [done|done|done|apply agree_off_refl|done|auto].
  - apply Forall_cons in Hall as [Ht Hall].
    destruct (Ht h) as (v & h1 & Fv & Hrun & Hv & Hag1 & Hab).
    assert (ly < length h) as Hlt by by eapply lookup_lt_Some.
    assert (∀ l, l ∈ Facc → l < length h) as Hbacc
      by (intros l ?; by eapply (proj2 (proj2 (repr_bound_all h)))).
    destruct (fill_list h1 ly acc tacc Facc v t Fv) as (h2 & Hrun2 & Hl2 & Hacc2 & Hag2).
    { destruct Hag1 as [_ A]. by rewrite A. }
    { by eapply repr_vs_agree; [|done|set_solver]. }
    { done. } { done. } { intros ?%Hab. lia. }
    { intros l ?%Hab ?%Hbacc. lia. }
    destruct (IH Hall h2 (acc ++ [v]) (tacc ++ [t]) (Facc ∪ Fv))
      as (h' & xs & F' & Hrun3 & Hl3 & Hacc3 & Hag3 & Hly3 & Hb3); [done|done| |].
    { rewrite not_elem_of_union. split; [done|]. intros ?%Hab. lia. }
    exists h', (v :: xs), F'. simpl.
    rewrite (bind_bind_run _ _ _ _ _ _ _ _ Hrun Hrun2).
    rewrite <- !app_assoc in *. simpl in *.
    split_and!; [exact Hrun3|done|done| |done|].
    + eapply agree_off_trans; [|done|].
      * by eapply agree_off_trans; [done|done|].
      * set_solver.
    + destruct Hag1 as [L1 _], Hag2 as [L2 _].
      intros l [[?|?%Hab]%elem_of_union|?]%Hb3; [by left|right; lia|right; lia].
Qed.

Lemma forallb_Forall_true {A} (f : A → bool) l :
  forallb f l = true → Forall (λ a, f a = true) l.
Proof.
  induction l as [|a l IH]; simpl; [constructor|].
  intros [??]%andb_prop. constructor; auto.
Qed.

Lemma load_builds t : wf_tree t = true → builds (load t) t.
Proof.
  induction t as [s|d IH|ts IH] using tree_ind'; intros Hwf.
  - apply builds_scal.
  - simpl in Hwf. apply andb_prop in Hwf as [Hnd Hall].
    apply bool_decide_eq_true in Hnd. apply forallb_Forall_true in Hall.
    assert (Forall (λ kt, builds (load kt.2) kt.2) d) as Hb.
    { apply Forall_forall. intros kt Hin.
      apply (proj1 (Forall_forall _ _) IH kt Hin).
      by apply (proj1 (Forall_forall _ _) Hall kt Hin). }
    intros h. simpl.
    rewrite (bind_run _ _ _ _ _ (eq_refl : new_dict [] h = Some _)).
    destruct (load_dict_loop (length h) d Hb (h ++ [ODict []]) [] [] ∅)
      as (h' & dv & F' & Hrun & Hl & Hd & Hag & Hly & Hb');
      [by apply list_lookup_middle|constructor|set_solver|done|].
    rewrite (bind_run _ _ _ _ _ Hrun). simpl in *.
    exists (VRef (length h)), h', ({[length h]} ∪ F').
    split_and!; [done|by eapply repr_dict| |].
    + eapply agree_off_new; [apply agree_off_alloc|done|].
      intros l ->%elem_of_singleton. done.
    + rewrite length_app in Hb'. intros l [->%elem_of_singleton|[?|?]%Hb']%elem_of_union;
        [done|set_solver|lia].
  - simpl in Hwf. apply forallb_Forall_true in Hwf.
    assert (Forall (λ t, builds (load t) t) ts) as Hb.
    { apply Forall_forall. intros t Hin.
      apply (proj1 (Forall_forall _ _) IH t Hin).
      by apply (proj1 (Forall_forall _ _) Hwf t Hin). }
    intros h. simpl.
    rewrite (bind_run _ _ _ _ _ (eq_refl : new_list [] h = Some _)).
    destruct (load_list_loop (length h) ts Hb (h ++ [OList []]) [] [] ∅)
      as (h' & xs & F' & Hrun & Hl & Hd & Hag & Hly & Hb');
      [by apply list_lookup_middle|constructor|set_solver|].
    rewrite (bind_run _ _ _ _ _ Hrun). simpl in *.
    exists (VRef (length h)), h', ({[length h]} ∪ F').
    split_and!; [done|by eapply repr_list| |].
    + eapply agree_off_new; [apply agree_off_alloc|done|].
      intros l ->%elem_of_singleton. done.
    + rewrite length_app in Hb'. intros l [->%elem_of_singleton|[?|?]%Hb']%elem_of_union;
        [done|set_solver|lia].
Qed.

(** ** copy.deepcopy of a document builds the same document anew *)

Lemma deepcopy_repr_all h0 :
  (∀ x t F, repr h0 x t F →
     ∀ fuel (memo : gmap loc loc) h,
       depth t ≤ fuel → agree_off ∅ h0 h → dom memo ## F →
       ∃ y memo' h' F',
         deepcopy_memo fuel x memo h = Some ((y, memo'), h')
         ∧ repr h' y t F' ∧ agree_off ∅ h h'
         ∧ (∀ l, l ∈ F' → length h ≤ l)
         ∧ dom memo' = dom memo ∪ F)
  ∧ (∀ d td F, repr_kvs h0 d td F →
       ∀ fuel (memo : gmap loc loc) h ly acc tacc Facc,
         Forall (λ kt, depth kt.2 ≤ fuel) td → agree_off ∅ h0 h →
         dom memo ## F → length h0 ≤ ly →
         h !! ly = Some (ODict acc) → repr_kvs h acc tacc Facc → ly ∉ Facc →
         (∀ k, k ∈ kv_keys d → k ∉ kv_keys acc) →
         ∃ memo' h' dv F',
           foldM (λ memo '(k, v),
                    '(v', memo) ← deepcopy_memo fuel v memo;
                    dict_setitem (VRef ly) k v';;
                    mret memo) memo d h = Some (memo', h')
           ∧ h' !! ly = Some (ODict (acc ++ dv))
           ∧ repr_kvs h' (acc ++ dv) (tacc ++ td) F'
           ∧ agree_off {[ly]} h h' ∧ ly ∉ F'
           ∧ (∀ l, l ∈ F' → l ∈ Facc ∨ length h ≤ l)
           ∧ dom memo' = dom memo ∪ F)
  ∧ (∀ xs ts F, repr_vs h0 xs ts F →
       ∀ fuel (memo : gmap loc loc) h ly acc tacc Facc,
         Forall (λ t, depth t ≤ fuel) ts → agree_off ∅ h0 h →
         dom memo ## F → length h0 ≤ ly →
         h !! ly = Some (OList acc) → repr_vs h acc tacc Facc → ly ∉ Facc →
         ∃ memo' h' xs' F',
           foldM (λ memo a,
                    '(a', memo) ← deepcopy_memo fuel a memo;
                    list_append (VRef ly) a';;
                    mret memo) memo xs h = Some (memo', h')
           ∧ h' !! ly = Some (OList (acc ++ xs'))
           ∧ repr_vs h' (acc ++ xs') (tacc ++ ts) F'
           ∧ agree_off {[ly]} h h' ∧ ly ∉ F'
           ∧ (∀ l, l ∈ F' → l ∈ Facc ∨ length h ≤ l)
           ∧ dom memo' = dom memo ∪ F).
Proof.
  apply repr_mutind.
  - (* an atom *)
    intros s fuel memo h _ _ _. exists (VScal s), memo, h, ∅.
    split_and!; [by destruct fuel|constructor|apply agree_off_refl|set_solver|set_solver].
  - (* a dict *)
    intros l d td F0 F Hl _ IH Hl0 -> fuel memo h Hfuel Hag Hmemo.
    destruct fuel as [|fuel]; simpl in Hfuel; [lia|].
    apply le_S_n, max_list_fmap_le in Hfuel.
    assert (memo !! l = None) as Hml by (apply not_elem_of_dom; set_solver).
    assert (l < length h0) as Hlt by by eapply lookup_lt_Some.
    assert (h !! l = Some (ODict d)) as Hhl by (destruct Hag as [_ A]; by rewrite A).
    simpl. rewrite Hml. unfold read at 1.
    rewrite (bind_run _ _ h (ODict d) h) by (unfold read; by rewrite Hhl).
    rewrite (bind_run _ _ _ _ _ (eq_refl : alloc (ODict []) h = Some _)).
    destruct (IH fuel (<[l := length h]> memo) (h ++ [ODict []]) (length h) [] [] ∅)
      as (memo' & h' & dv & F' & Hrun & Hl' & Hd' & Hag' & Hly & Hb & Hdom);
      [done|by eapply agree_off_trans; [done|apply agree_off_alloc|]
      |rewrite dom_insert_L; set_solver|by destruct Hag
      |by apply list_lookup_middle|constructor|set_solver
      |intros; apply not_elem_of_nil|].
    rewrite (bind_run _ _ _ _ _ Hrun). simpl in *.
    exists (VRef (length h)), memo', h', ({[length h]} ∪ F').
    split_and!; [done|by eapply repr_dict| | |].
    + eapply agree_off_new; [apply agree_off_alloc|done|].
      intros l' ->%elem_of_singleton. done.
    + rewrite length_app in Hb.
      intros l' [->%elem_of_singleton|[?|?]%Hb]%elem_of_union; [done|set_solver|lia].
    + rewrite Hdom, dom_insert_L. set_solver.
  - (* a list *)
    intros l xs ts F0 F Hl _ IH Hl0 -> fuel memo h Hfuel Hag Hmemo.
    destruct fuel as [|fuel]; simpl in Hfuel; [lia|].
    apply le_S_n, max_list_fmap_le in Hfuel.
    assert (memo !! l = None) as Hml by (apply not_elem_of_dom; set_solver).
    assert (l < length h0) as Hlt by by eapply lookup_lt_Some.
    assert (h !! l = Some (OList xs)) as Hhl by (destruct Hag as [_ A]; by rewrite A).
    simpl. rewrite Hml.
    rewrite (bind_run _ _ h (OList xs) h) by (unfold read; by rewrite Hhl).
    rewrite (bind_run _ _ _ _ _ (eq_refl : alloc (OList []) h = Some _)).
    destruct (IH fuel (<[l := length h]> memo) (h ++ [OList []]) (length h) [] [] ∅)
      as (memo' & h' & dv & F' & Hrun & Hl' & Hd' & Hag' & Hly & Hb & Hdom);
      [done
      |by eapply agree_off_trans; [done|apply agree_off_alloc|]
      |rewrite dom_insert_L; set_solver|by destruct Hag
      |by apply list_lookup_middle|constructor|set_solver|].
    rewrite (bind_run _ _ _ _ _ Hrun). simpl in *.
    exists (VRef (length h)), memo', h', ({[length h]} ∪ F').
    split_and!; [done|by eapply repr_list| | |].
    + eapply agree_off_new; [apply agree_off_alloc|done|].
      intros l' ->%elem_of_singleton. done.
    + rewrite length_app in Hb.
      intros l' [->%elem_of_singleton|[?|?]%Hb]%elem_of_union; [done|set_solver|lia].
    + rewrite Hdom, dom_insert_L. set_solver.
  - (* no entry left *)
    intros fuel memo h ly acc tacc Facc _ _ _ _ Hl Hacc Hly _.
    exists memo, h, [], Facc. rewrite !app_nil_r.
    split_and!; [done|done|done|apply agree_off_refl|done|auto|set_solver].
  - (* one more entry *)
    intros k v t d td F1 F2 F _ IH1 _ IH2 Hdisj Hk ->
      fuel memo h ly acc tacc Facc [Ht Htd]%Forall_cons Hag Hmemo Hlyn Hl Hacc Hly Hkeys.
    simpl in Ht.
    destruct (IH1 fuel memo h Ht Hag) as (v' & memo1 & h1 & F1' & Hrun1 & Hv' & Hag1 & Hab & Hdom1);
      [set_solver|].
    assert (ly < length h) as Hlt by by eapply lookup_lt_Some.
    assert (∀ l, l ∈ Facc → l < length h) as Hbacc
      by (intros l ?; by eapply repr_kvs_bound).
    destruct (fill_dict h1 ly acc tacc Facc k v' t F1') as (h2 & Hrun2 & Hl2 & Hacc2 & Hag2).
    { destruct Hag1 as [_ A]. by rewrite A. }
    { by eapply repr_kvs_agree; [|done|set_solver]. }
    { done. } { done. } { intros ?%Hab. lia. }
    { intros l ?%Hab ?%Hbacc. lia. }
    { apply Hkeys. unfold kv_keys. simpl. apply elem_of_cons. by left. }
    destruct (IH2 fuel memo1 h2 ly (acc ++ [(k, v')]) (tacc ++ [(k, t)]) (Facc ∪ F1'))
      as (memo' & h' & dv & F' & Hrun3 & Hl3 & Hacc3 & Hag3 & Hly3 & Hb3 & Hdom3);
      [done| |rewrite Hdom1; set_solver|done|done|done| | |].
    { eapply agree_off_new; [by eapply agree_off_trans; [done|done|]|done|].
      intros l ->%elem_of_singleton. done. }
    { rewrite not_elem_of_union. split; [done|]. intros ?%Hab. lia. }
    { intros k' Hk'. unfold kv_keys in *. rewrite fmap_app. simpl.
      rewrite elem_of_app, list_elem_of_singleton. intros [Hin| ->]; [|done].
      eapply Hkeys; [|done]. simpl. apply elem_of_cons. by right. }
    exists memo', h', ((k, v') :: dv), F'. simpl.
    rewrite (bind_run _ _ h memo1 h2).
    2:{ rewrite (bind_run _ _ _ _ _ Hrun1). by rewrite (bind_run _ _ _ _ _ Hrun2). }
    rewrite <- !app_assoc in *. simpl in *.
    split_and!; [exact Hrun3|done|done| |done| |].
    + eapply agree_off_trans; [|done|].
      * by eapply agree_off_trans; [done|done|].
      * set_solver.
    + destruct Hag1 as [L1 _], Hag2 as [L2 _].
      intros l [[?|?%Hab]%elem_of_union|?]%Hb3; [by left|right; lia|right; lia].
    + rewrite Hdom3, Hdom1. set_solver.
  - (* no item left *)
    intros fuel memo h ly acc tacc Facc _ _ _ _ Hl Hacc Hly.
    exists memo, h, [], Facc. rewrite !app_nil_r.
    split_and!; [done|done|done|apply agree_off_refl|done|auto|set_solver].
  - (* one more item *)
    intros v t xs ts F1 F2 F _ IH1 _ IH2 Hdisj ->
      fuel memo h ly acc tacc Facc [Ht Htd]%Forall_cons Hag Hmemo Hlyn Hl Hacc Hly.
    destruct (IH1 fuel memo h Ht Hag) as (v' & memo1 & h1 & F1' & Hrun1 & Hv' & Hag1 & Hab & Hdom1);
      [set_solver|].
    assert (ly < length h) as Hlt by by eapply lookup_lt_Some.
    assert (∀ l, l ∈ Facc → l < length h) as Hbacc
      by (intros l ?; by eapply (proj2 (proj2 (repr_bound_all h)))).
    destruct (fill_list h1 ly acc tacc Facc v' t F1') as (h2 & Hrun2 & Hl2 & Hacc2 & Hag2).
    { destruct Hag1 as [_ A]. by rewrite A. }
    { by eapply repr_vs_agree; [|done|set_solver]. }
    { done. } { done. } { intros ?%Hab. lia. }
    { intros l ?%Hab ?%Hbacc. lia. }
    destruct (IH2 fuel memo1 h2 ly (acc ++ [v']) (tacc ++ [t]) (Facc ∪ F1'))
      as (memo' & h' & dv & F' & Hrun3 & Hl3 & Hacc3 & Hag3 & Hly3 & Hb3 & Hdom3);
      [done| |rewrite Hdom1; set_solver|done|done|done| |].
    { eapply agree_off_new; [by eapply agree_off_trans; [done|done|]|done|].
      intros l ->%elem_of_singleton. done. }
    { rewrite not_elem_of_union. split; [done|]. intros ?%Hab. lia. }
    exists memo', h', (v' :: dv), F'. simpl.
    rewrite (bind_run _ _ h memo1 h2).
    2:{ rewrite (bind_run _ _ _ _ _ Hrun1). by rewrite (bind_run _ _ _ _ _ Hrun2). }
    rewrite <- !app_assoc in *. simpl in *.
    split_and!; [exact Hrun3|done|done| |done| |].
    + eapply agree_off_trans; [|done|].
      * by eapply agree_off_trans; [done|done|].
      * set_solver.
    + destruct Hag1 as [L1 _], Hag2 as [L2 _].
      intros l [[?|?%Hab]%elem_of_union|?]%Hb3; [by left|right; lia|right; lia].
    + rewrite Hdom3, Hdom1. set_solver.
Qed.

(** ** patch_node and its grouped statements are one computation *)

Lemma eqM_refl {A} (m : M A) : eqM m m. Proof. done. Qed.
Lemma eqM_sym {A} (m1 m2 : M A) : eqM m1 m2 → eqM m2 m1. Proof. intros H h. by rewrite H. Qed.
Lemma eqM_trans {A} (m1 m2 m3 : M A) : eqM m1 m2 → eqM m2 m3 → eqM m1 m3.
Proof. intros H1 H2 h. by rewrite H1. Qed.
Lemma eqM_bind {A B} (m : M A) (f g : A → M B) :
  (∀ a, eqM (f a) (g a)) → eqM (m ≫= f) (m ≫= g).
Proof. intros H h. unfold mbind, M_bind. destruct (m h) as [[a h']|]; [apply H|done]. Qed.
Lemma eqM_assoc {A B C} (m : M A) (f : A → M B) (g : B → M C) :
  eqM ((m ≫= f) ≫= g) (m ≫= (λ a, f a ≫= g)).
Proof. intros h. unfold mbind, M_bind. by destruct (m h) as [[a h']|]. Qed.
Lemma eqM_ret_l {A B} (a : A) (f : A → M B) : eqM (mret a ≫= f) (f a).
Proof. done. Qed.

(* normalise the right-hand side's head, or step over a common first operation *)
Ltac eqM_norm_r :=
  lazymatch goal with
  | |- eqM _ (mbind _ (mbind _ _)) =>
      eapply eqM_trans; [|apply eqM_sym, eqM_assoc]; cbv beta
  | |- eqM _ (mbind _ (mret _)) =>
      eapply eqM_trans; [|apply eqM_sym, eqM_ret_l]; cbv beta
  end.
Ltac eqM_norm_l :=
  lazymatch goal with
  | |- eqM (mbind _ (mbind _ _)) _ =>
      eapply eqM_trans; [apply eqM_assoc|]; cbv beta
  | |- eqM (mbind _ (mret _)) _ =>
      eapply eqM_trans; [apply eqM_ret_l|]; cbv beta
  end.
Ltac eqM_step :=
  first
    [ eqM_norm_r
    | eqM_norm_l
    | lazymatch goal with
      | |- eqM (mbind _ (if ?b then _ else _)) _ => destruct b
      | |- eqM _ (mbind _ (if ?b then _ else _)) => destruct b
      | |- eqM (if ?b then _ else _) _ => destruct b
      | |- eqM _ (if ?b then _ else _) => destruct b
      end
    | apply eqM_refl
    | apply eqM_bind; intros ? ].

Lemma patch_node_grouped_eq base ip cidr gw ns ifname disk vip enable_ccm :
  eqM (patch_node base ip cidr gw ns ifname disk vip enable_ccm)
      (patch_node_grouped base ip cidr gw ns ifname disk vip enable_ccm).
Proof.
  unfold patch_node, patch_node_grouped, patch_stmts, cluster_stmts,
    build_extensions, build_iface, build_access, build_ecp.
  destruct enable_ccm, (truthy_str vip); repeat eqM_step.
Qed.

(** ** patch_node computes patch_tree *)

Lemma deepcopy_builds h x t F :
  repr h x t F →
  ∃ y h' F',
    deepcopy x h = Some (y, h') ∧ repr h' y t F' ∧ agree_off ∅ h h'
    ∧ ∀ l, l ∈ F' → length h ≤ l.
Proof.
  intros Hx. pose proof (repr_depth _ _ _ _ Hx) as Hd.
  destruct (proj1 (deepcopy_repr_all h) x t F Hx (S (length h)) ∅ h)
    as (y & memo' & h' & F' & Hrun & Hy & Hag & Hab & _);
    [lia|apply agree_off_refl|set_solver|].
  exists y, h', F'. unfold deepcopy. by rewrite (bind_run _ _ _ _ _ Hrun).
Qed.

(** Run on a value that stands for a document [t] (a tree: no object at two
    places), [patch_node] returns a new value standing for
    [patch_tree ... t], built from new objects, and leaves every object
    there was as it is; it raises exactly when [patch_tree ... t] is
    [None]. *)
Theorem patch_node_refines h base t F ip cidr gw ns ifname disk vip enable_ccm :
  repr h base t F →
  match patch_tree ip cidr gw ns ifname disk vip enable_ccm t with
  | Some t' =>
      ∃ d h' F',
        patch_node base ip cidr gw ns ifname disk vip enable_ccm h = Some (d, h')
        ∧ repr h' d t' F' ∧ agree_off ∅ h h'
        ∧ ∀ l, l ∈ F' → length h ≤ l
  | None =>
      patch_node base ip cidr gw ns ifname disk vip enable_ccm h = None
  end.
Proof.
  intros Hb. rewrite patch_node_grouped_eq. unfold patch_node_grouped.
  destruct (deepcopy_builds _ _ _ _ Hb) as (cfg & h1 & F1 & Hrun & Hcfg & Hag & Hab).
  rewrite (bind_run _ _ _ _ _ Hrun).
  pose proof (updates_patch_stmts cfg ip cidr gw ns ifname disk vip enable_ccm
                h1 t F1 Hcfg) as Hu.
  destruct (patch_tree ip cidr gw ns ifname disk vip enable_ccm t) as [t'|];
    [|by apply bind_fail].
  destruct Hu as (h2 & F2 & Hrun2 & Hcfg2 & Hag2 & Hb2).
  rewrite (bind_run _ _ _ _ _ Hrun2). exists cfg, h2, F2.
  split_and!; [done|done|by eapply agree_off_new|].
  destruct Hag as [L _]. intros l [?%Hab|?]%Hb2; lia.
Qed.

(** ** What the statements of patch_tree write and what they leave *)

Lemma tree_at_empty_dict p : p ≠ [] → tree_at (TDict []) p = None.
Proof. by destruct p as [|[k|i] p]. Qed.

Lemma frame_on_none f : frame_on (λ _, False) f.
Proof. by intros t t' _ p []. Qed.

Lemma frame_on_skip Q : frame_on Q Some.
Proof. by intros t t' [= ->]. Qed.

Lemma frame_on_seq Q f g : frame_on Q f → frame_on Q g → frame_on Q (t_seq f g).
Proof.
  intros Hf Hg t t' Hrun p Hp. unfold t_seq in Hrun.
  destruct (f t) as [t1|] eqn:E; [|done]. simpl in Hrun.
  rewrite (Hg _ _ Hrun p Hp). by apply Hf.
Qed.

Lemma frame_on_if Q (b : bool) f g :
  frame_on Q f → frame_on Q g → frame_on Q (if b then f else g).
Proof. by destruct b. Qed.

Lemma frame_on_weaken (Q Q' : list step → Prop) f :
  frame_on Q f → (∀ p, Q' p → Q p) → frame_on Q' f.
Proof. intros Hf HQ t t' Hrun p Hp. eapply Hf; eauto. Qed.

Lemma frame_on_setitem (Q : list step → Prop) k tv :
  (∀ p, Q p → p ≠ [] ∧ ∀ p', p ≠ Key k :: p') →
  frame_on Q (t_setitem k tv).
Proof.
  intros HQ t t' Hrun p Hp. unfold t_setitem in Hrun.
  destruct t as [|d|]; simplify_eq/=. destruct (HQ p Hp) as [Hne Hk].
  destruct p as [|[k'|i] p]; [done| |done]. simpl.
  rewrite kv_get_set_ne; [done|]. intros ->. by eapply Hk.
Qed.

Lemma frame_on_child (Q : list step → Prop) k f d d1 sub sub' :
  (∀ p, Q p → p ≠ []) → (¬ Q [Key k]) →
  frame_on (λ p, Q (Key k :: p)) f →
  (∀ k', k' ≠ k → kv_get k' d1 = kv_get k' d) →
  kv_get k d1 = Some sub →
  (kv_get k d = Some sub ∨ (kv_get k d = None ∧ sub = TDict [])) →
  f sub = Some sub' →
  ∀ p, Q p → tree_at (TDict (kv_set k sub' d1)) p = tree_at (TDict d) p.
Proof.
  intros HQ HQk Hf Hother Hsub Hsrc Hrun p Hp.
  destruct p as [|[k'|i] p]; [by destruct (HQ [] Hp)| |done]. simpl.
  destruct (decide (k' = k)) as [->|Hne].
  - rewrite kv_get_set_eq. simpl. rewrite (Hf _ _ Hrun p Hp).
    destruct Hsrc as [->|[-> ->]]; [done|]. simpl.
    apply tree_at_empty_dict. by intros ->.
  - rewrite kv_get_set_ne by done. by rewrite Hother.
Qed.

Lemma frame_on_setdefault (Q : list step → Prop) k f :
  (∀ p, Q p → p ≠ []) → (¬ Q [Key k]) →
  frame_on (λ p, Q (Key k :: p)) f →
  frame_on Q (t_setdefault k f).
Proof.
  intros HQ HQk Hf t t' Hrun p Hp. unfold t_setdefault in Hrun.
  destruct t as [|d|]; simplify_eq/=.
  destruct (kv_get k (kv_setdefault k (TDict []) d)) as [sub|] eqn:Hsub; [|done].
  simpl in Hrun. destruct (f sub) as [sub'|] eqn:Hfs; simplify_eq/=.
  eapply frame_on_child; [done|done|done| |done| |done|done].
  - intros k' Hne. unfold kv_setdefault. destruct (kv_get k d); [done|].
    by apply kv_get_set_ne.
  - unfold kv_setdefault in Hsub. destruct (kv_get k d) as [s|] eqn:E.
    + left. by rewrite E in Hsub.
    + right. rewrite kv_get_set_eq in Hsub. by injection Hsub as <-.
Qed.

Lemma frame_on_getitem (Q : list step → Prop) k f :
  (∀ p, Q p → p ≠ []) → (¬ Q [Key k]) →
  frame_on (λ p, Q (Key k :: p)) f →
  frame_on Q (t_getitem k f).
Proof.
  intros HQ HQk Hf t t' Hrun p Hp. unfold t_getitem in Hrun.
  destruct t as [|d|]; simplify_eq/=.
  destruct (kv_get k d) as [sub|] eqn:Hsub; [|done].
  simpl in Hrun. destruct (f sub) as [sub'|] eqn:Hfs; simplify_eq/=.
  eapply frame_on_child; [done|done|done|done|done|by left|done|done].
Qed.

Lemma sets_setitem k tv : sets [Key k] tv (t_setitem k tv).
Proof.
  intros t t' Hrun. unfold t_setitem in Hrun.
  destruct t as [|d|]; simplify_eq/=. by rewrite kv_get_set_eq.
Qed.

Lemma sets_setdefault k p x f : sets p x f → sets (Key k :: p) x (t_setdefault k f).
Proof.
  intros Hf t t' Hrun. unfold t_setdefault in Hrun.
  destruct t as [|d|]; simplify_eq/=.
  destruct (kv_get k (kv_setdefault k (TDict []) d)) as [sub|] eqn:Hsub; [|done].
  simpl in Hrun. destruct (f sub) as [sub'|] eqn:Hfs; simplify_eq/=.
  rewrite kv_get_set_eq. simpl. by eapply Hf.
Qed.

Lemma sets_getitem k p x f : sets p x f → sets (Key k :: p) x (t_getitem k f).
Proof.
  intros Hf t t' Hrun. unfold t_getitem in Hrun.
  destruct t as [|d|]; simplify_eq/=.
  destruct (kv_get k d) as [sub|] eqn:Hsub; [|done].
  simpl in Hrun. destruct (f sub) as [sub'|] eqn:Hfs; simplify_eq/=.
  rewrite kv_get_set_eq. simpl. by eapply Hf.
Qed.

Lemma sets_seq_r p x f g : sets p x g → sets p x (t_seq f g).
Proof.
  intros Hg t t' Hrun. unfold t_seq in Hrun.
  destruct (f t) as [t1|]; [|done]. by eapply Hg.
Qed.

Lemma sets_seq_l p x f g :
  sets p x f → frame_on (λ q, q = p) g → sets p x (t_seq f g).
Proof.
  intros Hf Hg t t' Hrun. unfold t_seq in Hrun.
  destruct (f t) as [t1|] eqn:E; [|done]. simpl in Hrun.
  rewrite (Hg _ _ Hrun p eq_refl). by eapply Hf.
Qed.

(** *** Paths outside the touched sub-paths *)

Lemma outside_under q p : q ∈ touched_paths → q `prefix_of` p → ¬ outside p.
Proof. intros Hq Hpre Hout. by destruct (Hout q Hq). Qed.

Lemma outside_above q p : q ∈ touched_paths → p `prefix_of` q → ¬ outside p.
Proof. intros Hq Hpre Hout. by destruct (Hout q Hq). Qed.

Ltac touched n :=
  match n with
  | 0 => constr:([Key "machine"; Key "install"])
  | 1 => constr:([Key "machine"; Key "network"])
  | 2 => constr:([Key "machine"; Key "kubelet"])
  | 3 => constr:([Key "machine"; Key "features"])
  | _ => constr:([Key "cluster"; Key "externalCloudProvider"])
  end.

(** Refutes [outside p] for a path inside or above a touched one. *)
Ltac not_outside_with n :=
  let q := touched n in
  first [ apply (outside_under q); [set_solver | eexists; simpl; reflexivity]
        | apply (outside_above q); [set_solver | eexists; simpl; reflexivity] ].

Ltac not_outside :=
  first [ not_outside_with 0 | not_outside_with 1 | not_outside_with 2
        | not_outside_with 3 | not_outside_with 4 ].

Ltac path_side :=
  cbn beta;
  match goal with
  | |- ¬ outside _ => not_outside
  | |- ¬ _ => let H := fresh in intros H; discriminate H
  | |- ∀ p, outside _ → p ≠ [] =>
      let p := fresh in let H := fresh in
      intros p H ->; revert H; not_outside
  | |- ∀ p, outside _ → False =>
      let p := fresh in intros p; not_outside
  | |- ∀ p, outside _ → _ ∧ _ =>
      let p := fresh in let H := fresh in
      intros p H; split; [intros ->|intros ? ->]; revert H; not_outside
  | |- ∀ p, _ = _ → False =>
      let p := fresh in let H := fresh in intros p H; discriminate H
  | |- ∀ p, _ = _ → p ≠ [] =>
      let p := fresh in let H := fresh in intros p H ->; discriminate H
  | |- ∀ p, _ = _ → _ ∧ _ =>
      let p := fresh in let H := fresh in
      intros p H; split; [intros ->|intros ? ->]; discriminate H
  end.

Lemma frame_on_cluster (Q : list step → Prop) :
  (∀ p, Q p → p ≠ []) → (¬ Q [Key "cluster"]) →
  (∀ p, Q (Key "cluster" :: p) → p ≠ [] ∧ ∀ p', p ≠ Key "externalCloudProvider" :: p') →
  frame_on Q t_cluster.
Proof.
  intros HQ HQc HQe t t' Hrun. unfold t_cluster in Hrun.
  destruct (as_tdict t) as [d|]; [|done]. simpl in Hrun.
  destruct (is_control_plane d) as [[]|]; simpl in Hrun; [|by simplify_eq|done].
  revert t t' Hrun. apply frame_on_setdefault; [done|done|].
  by apply frame_on_setitem.
Qed.

(** Proves [frame_on Q f] statement by statement. *)
Ltac frame :=
  repeat first
    [ apply frame_on_skip
    | apply frame_on_seq
    | apply frame_on_if
    | (eapply frame_on_weaken; [apply frame_on_none | path_side])
    | (apply frame_on_setitem; [path_side])
    | (apply frame_on_setdefault; [path_side | path_side | ])
    | (apply frame_on_getitem; [path_side | path_side | ])
    | (apply frame_on_cluster; [path_side | path_side | path_side]) ].


(** The interface list is built anew. *)
Lemma patch_tree_interfaces ip cidr gw ns ifname disk vip enable_ccm :
  sets [Key "machine"; Key "network"; Key "interfaces"]
       (TList [iface_tree ip cidr gw ifname vip])
       (patch_tree ip cidr gw ns ifname disk vip enable_ccm).
Proof.
  unfold patch_tree. apply sets_seq_r, sets_seq_l.
  - apply sets_getitem, sets_setdefault, sets_seq_l; [apply sets_setitem|frame].
  - frame.
Qed.




Lemma tree_at_key_dict t k p x : tree_at t (Key k :: p) = Some x → ∃ d, t = TDict d.
Proof. destruct t; simpl; [done|eauto|done]. Qed.

(** The patched document is a mapping. *)
Lemma patch_tree_dict ip cidr gw ns ifname disk vip enable_ccm t t' :
  patch_tree ip cidr gw ns ifname disk vip enable_ccm t = Some t' →
  ∃ d, t' = TDict d.
Proof.
  intros H%patch_tree_interfaces. by eapply tree_at_key_dict.
Qed.

(** *** The VIP block *)

Lemma iface_tree_vip ip cidr gw ifname v :
  v ≠ "" →
  ∃ iface, iface_tree ip cidr gw ifname (Some v) = TDict iface
           ∧ kv_get "vip" iface = Some (TDict [("ip", tstr v)]).
Proof.
  intros Hv. unfold iface_tree. rewrite (truthy_str_Some v Hv).
  eexists. split; [done|]. by rewrite kv_get_set_eq.
Qed.

Lemma iface_tree_no_vip ip cidr gw ifname vip :
  truthy_str vip = false →
  ∃ iface, iface_tree ip cidr gw ifname vip = TDict iface
           ∧ kv_get "vip" iface = None.
Proof.
  intros Hv. unfold iface_tree. rewrite Hv. eexists. split; [done|]. reflexivity.
Qed.

Lemma patch_tree_has_vip ip cidr gw ns ifname disk v enable_ccm t doc :
  v ≠ "" →
  patch_tree ip cidr gw ns ifname disk (Some v) enable_ccm t = Some doc →
  has_vip v doc.
Proof.
  intros Hv H%patch_tree_interfaces.
  destruct (iface_tree_vip ip cidr gw ifname v Hv) as (iface & Hi & Hvip).
  exists iface. split; [|done]. unfold interface_of. by rewrite H, Hi.
Qed.

Lemma patch_tree_no_vip ip cidr gw ns ifname disk vip enable_ccm t doc :
  truthy_str vip = false →
  patch_tree ip cidr gw ns ifname disk vip enable_ccm t = Some doc →
  no_vip doc.
Proof.
  intros Hv H%patch_tree_interfaces.
  destruct (iface_tree_no_vip ip cidr gw ifname vip Hv) as (iface & Hi & Hvip).
  exists iface. split; [|done]. unfold interface_of. by rewrite H, Hi.
Qed.

(** *** The cluster-level block *)






Lemma patch_tree_ecp_off ip cidr gw ns ifname disk vip t doc :
  patch_tree ip cidr gw ns ifname disk vip false t = Some doc →
  ecp_block doc = ecp_block t.
Proof.
  intros H. unfold ecp_block.
  assert (frame_on (λ q, q = [Key "cluster"; Key "externalCloudProvider"])
            (patch_tree ip cidr gw ns ifname disk vip false)) as Hf.
  { unfold patch_tree. frame. }
  by apply (Hf t doc H).
Qed.

(** ** The documents of a run *)

Lemma P_bind_run {A B} (m : P A) (f : A → P B) w a w1 :
  m w = (Ret a, w1) → (m ≫= f) w = f a w1.
Proof. unfold mbind, P_bind. by intros ->. Qed.

Lemma P_bind_raised {A B} (m : P A) (f : A → P B) w w1 :
  m w = (Raised, w1) → (m ≫= f) w = (Raised, w1).
Proof. unfold mbind, P_bind. by intros ->. Qed.

(** A template loaded from a document stands for it. *)
Lemma load_repr T h base h0 :
  wf_tree T = true → load T h = Some (base, h0) →
  ∃ F, repr h0 base T F ∧ agree_off ∅ h h0 ∧ ∀ l, l ∈ F → length h ≤ l.
Proof.
  intros Hwf Hload.
  destruct (load_builds T Hwf h) as (v & h' & F & Hrun & Hr & Hag & Hnew).
  rewrite Hload in Hrun. injection Hrun as <- <-. eauto.
Qed.

(** A successful call on a template standing for [T] returns a value standing
    for [patch_tree T]. *)
Lemma patch_repr h base T F n d h' :
  repr h base T F → patch base n h = Some (d, h') →
  ∃ T' F',
    patch_tree (n_ip n) (n_cidr n) (n_gw n) (n_ns n) (n_ifname n) (n_disk n)
      (n_vip n) (n_enable_ccm n) T = Some T'
    ∧ repr h' d T' F' ∧ agree_off ∅ h h' ∧ ∀ l, l ∈ F' → length h ≤ l.
Proof.
  intros Hr Hrun. unfold patch in Hrun.
  pose proof (patch_node_refines h base T F (n_ip n) (n_cidr n) (n_gw n)
                (n_ns n) (n_ifname n) (n_disk n) (n_vip n) (n_enable_ccm n) Hr) as H.
  destruct (patch_tree _ _ _ _ _ _ _ _ T) as [T'|].
  - destruct H as (d0 & h0 & F' & Hrun' & Hr' & Hag & Hnew).
    rewrite Hrun in Hrun'. injection Hrun' as <- <-. eauto 10.
  - by rewrite Hrun in H.
Qed.

Lemma yaml_load_run p w T :
  kv_get p (w_files w) = Some T → wf_tree T = true →
  ∃ x h' F,
    yaml_load p w = (Ret x, World h' (w_files w) (w_trace w))
    ∧ repr h' x T F ∧ agree_off ∅ (w_heap w) h'.
Proof.
  intros Hp Hwf. unfold yaml_load, lift. rewrite Hp.
  destruct (load_builds T Hwf (w_heap w)) as (v & h' & F & Hrun & Hr & Hag & _).
  rewrite Hrun. eauto 10.
Qed.

Lemma dump_node_run file tpl T F c g ns i d v e k ip w :
  repr (w_heap w) tpl T F →
  match patch_tree ip c g ns i d v e T with
  | Some t' => ∃ h',
      dump_node file (λ ip, patch_node tpl ip c g ns i d v e) k ip w
      = (Ret (file k),
         World h' (kv_set (file k) t' (w_files w))
               (w_trace w ++ [EvDump (file k) t']))
      ∧ agree_off ∅ (w_heap w) h'
  | None =>
      dump_node file (λ ip, patch_node tpl ip c g ns i d v e) k ip w = (Raised, w)
  end.
Proof.
  intros Hr.
  pose proof (patch_node_refines _ _ _ _ ip c g ns i d v e Hr) as H.
  unfold dump_node.
  destruct (patch_tree ip c g ns i d v e T) as [t'|].
  - destruct H as (d0 & h' & F' & Hrun & Hr' & Hag & _). exists h'. split; [|done].
    erewrite P_bind_run; [|unfold lift; by rewrite Hrun].
    erewrite P_bind_run; [done|].
    unfold yaml_dump.
    erewrite P_bind_run; [|unfold lift; simpl; by rewrite (dump_repr _ _ _ _ Hr')].
    done.
  - apply P_bind_raised. unfold lift. by rewrite H.
Qed.

Lemma for_enumerate_docs file tpl T F c g ns i d v e ips :
  ∀ k w, repr (w_heap w) tpl T F →
  ∃ docs o w',
    for_enumerate (dump_node file (λ ip, patch_node tpl ip c g ns i d v e)) k ips w
    = (o, w')
    ∧ w_trace w' = w_trace w ++ zip_with EvDump (file <$> seq k (length ips)) docs
    ∧ Forall2 (λ ip doc, patch_tree ip c g ns i d v e T = Some doc)
              (take (length docs) ips) docs
    ∧ agree_off ∅ (w_heap w) (w_heap w')
    ∧ ((o = Ret (file <$> seq k (length ips)) ∧ length docs = length ips)
       ∨ (o = Raised ∧ length docs < length ips)).
Proof.
  induction ips as [|ip ips IH]; intros k w Hr.
  - exists [], (Ret []), w. simpl. rewrite app_nil_r.
    split_and!; [done|done|constructor|apply agree_off_refl|by left].
  - pose proof (dump_node_run file tpl T F c g ns i d v e k ip w Hr) as Hone.
    simpl for_enumerate.
    destruct (patch_tree ip c g ns i d v e T) as [t'|] eqn:Hpt.
    + destruct Hone as (h' & Hone & Hag).
      set (w1 := World h' _ _) in Hone.
      assert (repr (w_heap w1) tpl T F) as Hr1.
      { eapply repr_agree; [exact Hr|exact Hag|set_solver]. }
      destruct (IH (S k) w1 Hr1) as (docs & o & w' & Hrun & Htr & Hdocs & Hag' & Hout).
      destruct Hout as [[-> Hlen]|[-> Hlen]].
      * exists (t' :: docs), (Ret (file <$> seq k (S (length ips)))), w'.
        split_and!.
        -- erewrite P_bind_run; [|exact Hone].
           erewrite P_bind_run; [|exact Hrun]. done.
        -- rewrite Htr. simpl. by rewrite <- app_assoc.
        -- simpl. by constructor.
        -- eapply agree_off_trans; [exact Hag|exact Hag'|set_solver].
        -- left. simpl. by rewrite Hlen.
      * exists (t' :: docs), Raised, w'.
        split_and!.
        -- erewrite P_bind_run; [|exact Hone].
           erewrite P_bind_raised; [done|exact Hrun].
        -- rewrite Htr. simpl. by rewrite <- app_assoc.
        -- simpl. by constructor.
        -- eapply agree_off_trans; [exact Hag|exact Hag'|set_solver].
        -- right. simpl. split; [done|lia].
    + exists [], Raised, w. simpl. rewrite app_nil_r.
      split_and!; [by apply P_bind_raised|done|constructor|apply agree_off_refl|].
      right. split; [done|lia].
Qed.

(** Every document a run writes is the functional reading of [patch_node] on
    the template of its role, at the node's address: with the VIP option for
    control planes, without it for workers. *)
Lemma create_node_configs_docs validator a out w cp_tpl wk_tpl :
  templates out w cp_tpl wk_tpl →
  ∃ cp_docs wk_docs,
    run_writes a out (w_trace w)
      (w_trace (create_node_configs validator a out w).2) cp_docs wk_docs
    ∧ Forall2 (λ ip doc,
         patch_tree ip (cidr a) (gateway a) (nameserver a) (ifname a) (disk a)
           (vip a) (enable_ccm a) cp_tpl = Some doc)
        (take (length cp_docs) (control_planes a)) cp_docs
    ∧ Forall2 (λ ip doc,
         patch_tree ip (cidr a) (gateway a) (nameserver a) (ifname a) (disk a)
           None (enable_ccm a) wk_tpl = Some doc)
        (take (length wk_docs) (workers a)) wk_docs
    ∧ ((create_node_configs validator a out w).1 ≠ Raised →
       length cp_docs = length (control_planes a)
       ∧ length wk_docs = length (workers a)).
Proof.
  intros (Hcp & Hwk & Hwfc & Hwfw). rewrite create_node_configs_unfold.
  destruct (yaml_load_run _ w cp_tpl Hcp Hwfc) as (x1 & h1 & F1 & Hl1 & Hr1 & Hag1).
  set (w1 := World h1 (w_files w) (w_trace w)) in Hl1.
  destruct (yaml_load_run _ w1 wk_tpl Hwk Hwfw) as (x2 & h2 & F2 & Hl2 & Hr2 & Hag2).
  simpl in Hl2, Hag2. set (w2 := World h2 (w_files w) (w_trace w)) in Hl2.
  assert (repr (w_heap w2) x1 cp_tpl F1) as Hr1'.
  { eapply repr_agree; [exact Hr1|exact Hag2|set_solver]. }
  destruct (for_enumerate_docs (cp_file out) x1 cp_tpl F1 (cidr a) (gateway a)
              (nameserver a) (ifname a) (disk a) (vip a) (enable_ccm a)
              (control_planes a) 1 w2 Hr1')
    as (cp_docs & o3 & w3 & Hrun3 & Htr3 & Hd3 & Hag3 & Hout3).
  erewrite P_bind_run; [|exact Hl1]. erewrite P_bind_run; [|exact Hl2].
  destruct Hout3 as [[-> Hlen3]|[-> Hlen3]].
  - assert (repr (w_heap w3) x2 wk_tpl F2) as Hr2'.
    { eapply repr_agree; [exact Hr2|exact Hag3|set_solver]. }
    destruct (for_enumerate_docs (w_file out) x2 wk_tpl F2 (cidr a) (gateway a)
                (nameserver a) (ifname a) (disk a) None (enable_ccm a)
                (workers a) 1 w3 Hr2')
      as (wk_docs & o4 & w4 & Hrun4 & Htr4 & Hd4 & Hag4 & Hout4).
    erewrite P_bind_run; [|exact Hrun3].
    exists cp_docs, wk_docs.
    destruct Hout4 as [[-> Hlen4]|[-> Hlen4]].
    + erewrite P_bind_run; [|exact Hrun4].
      destruct (validate_files validator _ w4) as [o5 w5] eqn:Hv.
      apply validate_files_inv in Hv as (_ & m & _ & Htr5 & _).
      split_and!; [|done|done|done].
      exists m. simpl. rewrite Htr5, Htr4, Htr3. simpl.
      split_and!; [by rewrite <- !app_assoc|lia|lia|done].
    + erewrite P_bind_raised; [|exact Hrun4].
      split_and!; [|done|done|done].
      exists 0. simpl. rewrite Htr4, Htr3. simpl.
      split_and!; [by rewrite <- !app_assoc, app_nil_r|lia|lia|done].
  - erewrite P_bind_raised; [|exact Hrun3].
    exists cp_docs, []. split_and!; [|done|constructor|done].
    exists 0. simpl. rewrite Htr3. simpl.
    split_and!; [by rewrite zip_with_nil_r, !app_nil_r|lia|lia|done].
Qed.

(** ** What a value reaches *)

Lemma repr_kvs_elem h d td F v :
  repr_kvs h d td F → v ∈ d.*2 → ∃ t Fv, repr h v t Fv ∧ Fv ⊆ F.
Proof.
  induction 1 as [|k v0 t d td F1 F2 F Hv Hd IH Hdisj Hk ->]; simpl.
  - by intros ?%elem_of_nil.
  - intros [->|Hin]%elem_of_cons.
    + exists t, F1. split; [done|set_solver].
    + destruct (IH Hin) as (t' & Fv & Hr & Hsub).
      exists t', Fv. split; [done|set_solver].
Qed.

Lemma repr_vs_elem h xs ts F v :
  repr_vs h xs ts F → v ∈ xs → ∃ t Fv, repr h v t Fv ∧ Fv ⊆ F.
Proof.
  induction 1 as [|v0 t xs ts F1 F2 F Hv Hd IH Hdisj ->]; simpl.
  - by intros ?%elem_of_nil.
  - intros [->|Hin]%elem_of_cons.
    + exists t, F1. split; [done|set_solver].
    + destruct (IH Hin) as (t' & Fv & Hr & Hsub).
      exists t', Fv. split; [done|set_solver].
Qed.

(** A value standing for a document reaches the objects of its footprint
    only. *)
Lemma reach_repr h x l :
  reach h x l → ∀ t F, repr h x t F → l ∈ F.
Proof.
  induction 1 as [l|l o v l' Hl Hv Hreach IH]; intros t F Hr.
  - inversion Hr; subst; set_solver.
  - inversion Hr as [|? d td F0 ? Hl' Hd _ HF|? xs ts F0 ? Hl' Hxs _ HF]; subst;
      rewrite Hl in Hl'; injection Hl' as ->; simpl in Hv.
    + destruct (repr_kvs_elem _ _ _ _ _ Hd Hv) as (t' & Fv & Hr' & Hsub).
      specialize (IH _ _ Hr'). set_solver.
    + destruct (repr_vs_elem _ _ _ _ _ Hxs Hv) as (t' & Fv & Hr' & Hsub).
      specialize (IH _ _ Hr'). set_solver.
Qed.

(** ** The documents of a run: VIP placement and CCM gating *)

Lemma Forall2_Forall_r {A B} (R : A → B → Prop) (Q : B → Prop) l k :
  Forall2 R l k → (∀ x y, R x y → Q y) → Forall Q k.
Proof. induction 1; intros HQ; constructor; eauto. Qed.

(** C4. In a run with a VIP configured (a non-empty address [v]), on an
    output directory holding the two templates: every document written for a
    control-plane address has a single network interface carrying a VIP block
    with exactly [v], and every document written for a worker address has a
    single interface without a VIP block. Unless the run raises, there is one
    document per control-plane address and one per worker address. *)
Theorem C4_vip_placement validator (a : args) (out : string) (w : world)
    (cp_tpl wk_tpl : tree) (v : string) :
  vip a = Some v → v ≠ "" → templates out w cp_tpl wk_tpl →
  ∃ cp_docs wk_docs,
    run_writes a out (w_trace w)
      (w_trace (create_node_configs validator a out w).2) cp_docs wk_docs
    ∧ Forall (has_vip v) cp_docs
    ∧ Forall no_vip wk_docs
    ∧ ((create_node_configs validator a out w).1 ≠ Raised →
       length cp_docs = length (control_planes a)
       ∧ length wk_docs = length (workers a)).
Proof.
  intros Hv Hne Htpl.
  destruct (create_node_configs_docs validator a out w cp_tpl wk_tpl Htpl)
    as (cp_docs & wk_docs & Hrun & Hcp & Hwk & Hlen).
  exists cp_docs, wk_docs. split_and!; [done| | |done].
  - eapply Forall2_Forall_r; [exact Hcp|]. intros ip doc Hdoc. simpl in Hdoc.
    rewrite Hv in Hdoc. by eapply patch_tree_has_vip.
  - eapply Forall2_Forall_r; [exact Hwk|]. intros ip doc Hdoc. simpl in Hdoc.
    eapply patch_tree_no_vip; [|exact Hdoc]. done.
Qed.

(** The example of the specification: three control planes, two workers and
    the VIP 10.0.0.10. *)
Lemma C4_vip_placement_witness :
  ∃ cp_docs wk_docs,
    run_writes ex_args "out" []
      (w_trace (create_node_configs always_valid ex_args "out" ex_world).2)
      cp_docs wk_docs
    ∧ Forall (has_vip "10.0.0.10") cp_docs ∧ length cp_docs = 3
    ∧ Forall no_vip wk_docs ∧ length wk_docs = 2.
Proof.
  destruct (C4_vip_placement always_valid ex_args "out" ex_world
              ex_cp_template ex_worker_template "10.0.0.10")
    as (cp_docs & wk_docs & Hrun & Hcp & Hwk & Hlen).
  - reflexivity.
  - discriminate.
  - vm_compute. auto.
  - destruct Hlen as [H3 H2]; [vm_compute; discriminate|].
    exists cp_docs, wk_docs. auto.
Defined.




(** ** One call and two calls of patch_node on a loaded template *)



(** C8. For every template (a YAML document, loaded into the store) and
    all node parameters: when a call of patch_node returns, a second call
    with the same arguments returns too, the two results are the same
    document field for field, and they are different objects that reach no
    object in common. *)
Theorem C8_idempotence (T : tree) (n : node) (h h0 h1 : heap) (base d1 : val) :
  wf_tree T = true →
  load T h = Some (base, h0) →
  patch base n h0 = Some (d1, h1) →
  ∃ d2 h2 T',
    patch base n h1 = Some (d2, h2)
    ∧ dump d1 h2 = Some (T', h2)
    ∧ dump d2 h2 = Some (T', h2)
    ∧ d1 ≠ d2
    ∧ ∀ l, ¬ (reach h2 d1 l ∧ reach h2 d2 l).
Proof.
  intros Hwf Hload Hrun.
  destruct (load_repr T h base h0 Hwf Hload) as (F & Hr & _ & _).
  destruct (patch_repr h0 base T F n d1 h1 Hr Hrun)
    as (T' & F1 & Hpt & Hr1 & Hag1 & Hnew1).
  assert (repr h1 base T F) as Hrb.
  { eapply repr_agree; [exact Hr|exact Hag1|set_solver]. }
  pose proof (patch_node_refines h1 base T F (n_ip n) (n_cidr n) (n_gw n)
                (n_ns n) (n_ifname n) (n_disk n) (n_vip n) (n_enable_ccm n) Hrb)
    as Hsnd.
  rewrite Hpt in Hsnd. destruct Hsnd as (d2 & h2 & F2 & Hrun2 & Hr2 & Hag2 & Hnew2).
  assert (repr h2 d1 T' F1) as Hr1'.
  { eapply repr_agree; [exact Hr1|exact Hag2|set_solver]. }
  assert (∀ l, l ∈ F1 → l ∈ F2 → False) as Hdisj.
  { intros l Hl1 Hl2. pose proof (repr_bound _ _ _ _ _ Hr1 Hl1).
    specialize (Hnew2 l Hl2). lia. }
  exists d2, h2, T'. split_and!.
  - exact Hrun2.
  - by eapply dump_repr.
  - by eapply dump_repr.
  - destruct (patch_tree_dict _ _ _ _ _ _ _ _ _ _ Hpt) as [td ->].
    apply repr_dict_inv in Hr1' as (l1 & dv1 & G1 & -> & _ & _ & _ & ->).
    apply repr_dict_inv in Hr2 as (l2 & dv2 & G2 & -> & _ & _ & _ & ->).
    intros [= ->]. apply (Hdisj l2); set_solver.
  - intros l [H1 H2]. apply (Hdisj l).
    + exact (reach_repr _ _ _ H1 _ _ Hr1').
    + exact (reach_repr _ _ _ H2 _ _ Hr2).
Qed.

Lemma C8_idempotence_witness :
  ∃ base h0 d1 h1 d2 h2 T',
    load ex_cp_template [] = Some (base, h0)
    ∧ patch base (ex_node "10.0.0.11") h0 = Some (d1, h1)
    ∧ patch base (ex_node "10.0.0.11") h1 = Some (d2, h2)
    ∧ dump d1 h2 = Some (T', h2)
    ∧ dump d2 h2 = Some (T', h2)
    ∧ d1 ≠ d2
    ∧ ∀ l, ¬ (reach h2 d1 l ∧ reach h2 d2 l).
Proof.
  eexists _, _, _, _.
  edestruct (C8_idempotence ex_cp_template (ex_node "10.0.0.11") [])
    as (d2 & h2 & T' & Hrun & Hd1 & Hd2 & Hne & Hsep).
  - reflexivity.
  - vm_compute. reflexivity.
  - vm_compute. reflexivity.
  - exists d2, h2, T'.
    split_and!; [vm_compute; reflexivity|vm_compute; reflexivity
                |exact Hrun|exact Hd1|exact Hd2|exact Hne|exact Hsep].
Defined.

(** ** The empty VIP *)

(** C10. With the empty string as VIP, everything is as with no VIP: the
    endpoint is the explicit-endpoint branch's in both phases (the first
    control-plane address is not used), the SAN candidates are the
    control-plane addresses alone, the command line is the same, every call
    of patch_node and the whole run of create_node_configs are the same, and
    no document written has a VIP block on its interface. *)
Theorem C10_empty_vip validator (a : args) (out : string)
    (bootstrap_phase : bool) :
  vip a = Some "" →
  endpoint_url a bootstrap_phase = Some ("https://" +:+ endpoint a)
  ∧ endpoint_url a bootstrap_phase
    = endpoint_url (with_vip None a) bootstrap_phase
  ∧ san_candidates a = control_planes a
  ∧ sans a = sans (with_vip None a)
  ∧ gen_config_cmd a out bootstrap_phase
    = gen_config_cmd (with_vip None a) out bootstrap_phase
  ∧ (∀ base ip h,
       patch_node base ip (cidr a) (gateway a) (nameserver a) (ifname a)
         (disk a) (vip a) (enable_ccm a) h
       = patch_node base ip (cidr a) (gateway a) (nameserver a) (ifname a)
           (disk a) None (enable_ccm a) h)
  ∧ (∀ w, create_node_configs validator a out w
          = create_node_configs validator (with_vip None a) out w)
  ∧ (∀ w cp_tpl wk_tpl, templates out w cp_tpl wk_tpl →
       ∃ cp_docs wk_docs,
         run_writes a out (w_trace w)
           (w_trace (create_node_configs validator a out w).2) cp_docs wk_docs
         ∧ Forall no_vip (cp_docs ++ wk_docs)
         ∧ ((create_node_configs validator a out w).1 ≠ Raised →
            length cp_docs = length (control_planes a)
            ∧ length wk_docs = length (workers a))).
Proof.
  intros Hv.
  assert (endpoint_url a bootstrap_phase
          = endpoint_url (with_vip None a) bootstrap_phase) as Hurl.
  { unfold endpoint_url. rewrite Hv. simpl. by rewrite !andb_false_r. }
  assert (sans a = sans (with_vip None a)) as Hsans.
  { unfold sans, san_candidates. by rewrite Hv. }
  split_and!.
  - unfold endpoint_url. rewrite Hv. simpl. by rewrite andb_false_r.
  - exact Hurl.
  - unfold san_candidates. by rewrite Hv.
  - exact Hsans.
  - unfold gen_config_cmd. by rewrite Hurl, Hsans.
  - intros base ip h. by rewrite Hv.
  - intros w. unfold create_node_configs. by rewrite Hv.
  - intros w cp_tpl wk_tpl Htpl.
    destruct (create_node_configs_docs validator a out w cp_tpl wk_tpl Htpl)
      as (cp_docs & wk_docs & Hrun & Hcp & Hwk & Hlen).
    exists cp_docs, wk_docs. split_and!; [done| |done].
    apply Forall_app. split.
    + eapply Forall2_Forall_r; [exact Hcp|]. intros ip doc Hdoc. simpl in Hdoc.
      eapply patch_tree_no_vip; [|exact Hdoc]. by rewrite Hv.
    + eapply Forall2_Forall_r; [exact Hwk|]. intros ip doc Hdoc. simpl in Hdoc.
      eapply patch_tree_no_vip; [|exact Hdoc]. done.
Qed.

(** The example of the specification with the empty string as VIP, in the
    Bootstrap phase. *)
Lemma C10_empty_vip_witness :
  endpoint_url (with_vip (Some "") ex_args) true = Some "https://10.0.0.11:6443"
  ∧ sans (with_vip (Some "") ex_args) = ["10.0.0.11"; "10.0.0.12"; "10.0.0.13"]
  ∧ ∃ cp_docs wk_docs,
      run_writes (with_vip (Some "") ex_args) "out" []
        (w_trace (create_node_configs always_valid (with_vip (Some "") ex_args)
                    "out" ex_world).2) cp_docs wk_docs
      ∧ Forall no_vip (cp_docs ++ wk_docs)
      ∧ length cp_docs = 3 ∧ length wk_docs = 2.
Proof.
  destruct (C10_empty_vip always_valid (with_vip (Some "") ex_args) "out" true)
    as (Hurl & _ & _ & Hsans & _ & _ & _ & Hdocs); [reflexivity|].
  split_and!.
  - exact Hurl.
  - rewrite Hsans. vm_compute. reflexivity.
  - destruct (Hdocs ex_world ex_cp_template ex_worker_template)
      as (cp_docs & wk_docs & Hrun & Hno & Hlen); [vm_compute; auto|].
    destruct Hlen as [H3 H2]; [vm_compute; discriminate|].
    exists cp_docs, wk_docs. auto.
Defined.

(** ** patch_node in closed form *)

Lemma kv_set_set {A} k (v v' : A) d : kv_set k v' (kv_set k v d) = kv_set k v' d.
Proof.
  induction d as [|[k0 v0] r IH]; simpl.
  - by rewrite decide_True.
  - case_decide; simpl; [by rewrite decide_True|].
    rewrite decide_False by done. by rewrite IH.
Qed.

Lemma kv_set_setdefault {A} k (v e : A) d :
  kv_set k v (kv_setdefault k e d) = kv_set k v d.
Proof.
  unfold kv_setdefault. destruct (kv_get k d); [done|apply kv_set_set].
Qed.

Lemma kv_get_setdefault k (e : tree) d :
  kv_get k (kv_setdefault k e d) = Some (default e (kv_get k d)).
Proof.
  unfold kv_setdefault. destruct (kv_get k d) eqn:E; simpl; [done|].
  apply kv_get_set_eq.
Qed.

Lemma t_setdefault_dict k f d :
  t_setdefault k f (TDict d)
  = (λ s, TDict (kv_set k s d)) <$> f (section k (TDict d)).
Proof.
  unfold t_setdefault. simpl. rewrite kv_get_setdefault. simpl.
  destruct (f _); simpl; [|done]. by rewrite kv_set_setdefault.
Qed.

Lemma t_getitem_set k f x d :
  t_getitem k f (TDict (kv_set k x d)) = (λ s, TDict (kv_set k s d)) <$> f x.
Proof.
  unfold t_getitem. simpl. rewrite kv_get_set_eq. simpl.
  destruct (f x); simpl; [|done]. by rewrite kv_set_set.
Qed.

Lemma section_set_eq k x d : section k (TDict (kv_set k x d)) = x.
Proof. simpl. by rewrite kv_get_set_eq. Qed.

Lemma section_set_ne k k' x d :
  k ≠ k' → section k' (TDict (kv_set k x d)) = section k' (TDict d).
Proof. intros H. simpl. by rewrite kv_get_set_ne. Qed.

Section closed_form.

#[local] Arguments section : simpl never.
#[local] Arguments kv_set : simpl never.
#[local] Arguments kv_get : simpl never.
#[local] Arguments iface_tree : simpl never.
#[local] Arguments install_closed : simpl never.
#[local] Arguments network_closed : simpl never.
#[local] Arguments extra_args_closed : simpl never.

Ltac str_ne := let H := fresh in intros H; discriminate H.

Lemma install_closed_run disk m :
  t_setdefault "install"
    (t_seq (t_setitem "disk" (tstr disk))
       (t_seq (t_setitem "extensions" extensions_tree)
          (t_setitem "extraKernelArgs" (TList [tstr "net.ifnames=0"])))) (TDict m)
  = i ← as_tdict (section "install" (TDict m));
    Some (TDict (kv_set "install" (TDict (install_closed disk i)) m)).
Proof.
  rewrite t_setdefault_dict. by destruct (section "install" (TDict m)).
Qed.

Lemma network_closed_run ip cidr gw ns ifname vip m :
  t_setdefault "network"
    (t_seq (t_setitem "interfaces" (TList [iface_tree ip cidr gw ifname vip]))
       (t_setitem "nameservers" (TList [tstr ns]))) (TDict m)
  = nw ← as_tdict (section "network" (TDict m));
    Some (TDict (kv_set "network"
                   (TDict (network_closed ip cidr gw ns ifname vip nw)) m)).
Proof.
  rewrite t_setdefault_dict. by destruct (section "network" (TDict m)).
Qed.

Lemma kubelet_closed_run (enable_ccm : bool) m :
  t_setdefault "kubelet"
    (t_seq (t_setdefault "extraArgs" Some)
       (t_seq (t_getitem "extraArgs"
                 (t_setitem "rotate-server-certificates" (tstr "true")))
          (if enable_ccm then
             t_getitem "extraArgs" (t_setitem "cloud-provider" (tstr "external"))
           else Some))) (TDict m)
  = k ← as_tdict (section "kubelet" (TDict m));
    ea ← as_tdict (section "extraArgs" (TDict k));
    Some (TDict (kv_set "kubelet"
                   (TDict (kv_set "extraArgs"
                             (TDict (extra_args_closed enable_ccm ea)) k)) m)).
Proof.
  rewrite t_setdefault_dict.
  destruct (section "kubelet" (TDict m)) as [?|k|?]; [done| |done].
  unfold t_seq. rewrite t_setdefault_dict. simpl.
  rewrite t_getitem_set.
  destruct (section "extraArgs" (TDict k)) as [?|ea|?]; [done| |done].
  unfold extra_args_closed. destruct enable_ccm; simpl; [|done].
  rewrite t_getitem_set. simpl. by rewrite ?kv_set_set.
Qed.

Lemma features_closed_run m :
  t_setdefault "features"
    (t_setitem "kubernetesTalosAPIAccess" talos_api_access) (TDict m)
  = ft ← as_tdict (section "features" (TDict m));
    Some (TDict (kv_set "features"
                   (TDict (kv_set "kubernetesTalosAPIAccess" talos_api_access ft))
                   m)).
Proof.
  rewrite t_setdefault_dict. by destruct (section "features" (TDict m)).
Qed.

Lemma cluster_closed_run d :
  t_cluster (TDict d)
  = c ← as_tdict (section "cluster" (TDict d));
    Some (TDict (if truthy_tree (section "controlPlane" (TDict c))
                 then kv_set "cluster"
                        (TDict (kv_set "externalCloudProvider"
                                  external_cloud_provider c)) d
                 else d)).
Proof.
  unfold t_cluster, is_control_plane. simpl.
  change (default (TDict []) (kv_get "cluster" d)) with (section "cluster" (TDict d)).
  destruct (section "cluster" (TDict d)) as [?|c|?] eqn:Ec; [done| |done]. simpl.
  change (default (TDict []) (kv_get "controlPlane" c))
    with (section "controlPlane" (TDict c)).
  destruct (truthy_tree (section "controlPlane" (TDict c))); [|done].
  rewrite t_setdefault_dict, Ec. done.
Qed.

Lemma patch_tree_closed ip cidr gw ns ifname disk vip enable_ccm t :
  patch_tree ip cidr gw ns ifname disk vip enable_ccm t
  = patch_closed ip cidr gw ns ifname disk vip enable_ccm t.
Proof.
  destruct t as [s|d|l]; [done| |done].
  unfold patch_tree, patch_closed. unfold t_seq at 1.
  rewrite t_setdefault_dict. simpl.
  destruct (section "machine" (TDict d)) as [?|m|?] eqn:Em; [done| |done].
  rewrite install_closed_run. simpl.
  destruct (section "install" (TDict m)) as [?|i|?] eqn:Ei; [done| |done]. simpl.
  unfold t_seq at 1.
  rewrite t_getitem_set, network_closed_run, section_set_ne by str_ne.
  destruct (section "network" (TDict m)) as [?|nw|?] eqn:En; [done| |done]. simpl.
  unfold t_seq at 1.
  rewrite t_getitem_set, kubelet_closed_run, !section_set_ne by str_ne.
  destruct (section "kubelet" (TDict m)) as [?|k|?] eqn:Ek; [done| |done]. simpl.
  destruct (section "extraArgs" (TDict k)) as [?|ea|?] eqn:Eea; [done| |done]. simpl.
  unfold machine_closed. destruct enable_ccm; simpl; [|done].
  unfold t_seq at 1.
  rewrite t_getitem_set, features_closed_run, !section_set_ne by str_ne.
  destruct (section "features" (TDict m)) as [?|ft|?] eqn:Eft; [done| |done]. simpl.
  rewrite cluster_closed_run, section_set_ne by str_ne.
  destruct (section "cluster" (TDict d)) as [?|c|?] eqn:Ec; [done| |done]. simpl.
  by destruct (truthy_tree (section "controlPlane" (TDict c))).
Qed.

(** *** When patch_node returns *)

Lemma patch_closed_runs ip cidr gw ns ifname disk vip enable_ccm t :
  is_Some (patch_closed ip cidr gw ns ifname disk vip enable_ccm t)
  ↔ patchable enable_ccm t = true.
Proof.
  unfold patch_closed, patchable.
  destruct t as [s|d|l]; simpl; [by split; [intros [? ?]|]| |by split; [intros [? ?]|]].
  destruct (section "machine" (TDict d)) as [?|m|?]; simpl;
    [by split; [intros [? ?]|]| |by split; [intros [? ?]|]].
  destruct (section "install" (TDict m)) as [?|i|?]; simpl;
    [by split; [intros [? ?]|]| |by split; [intros [? ?]|]].
  destruct (section "network" (TDict m)) as [?|nw|?]; simpl;
    [by split; [intros [? ?]|]| |by split; [intros [? ?]|]].
  destruct (section "kubelet" (TDict m)) as [?|k|?]; simpl;
    [by split; [intros [? ?]|]| |by split; [intros [? ?]|]].
  destruct (section "extraArgs" (TDict k)) as [?|ea|?]; simpl;
    [by split; [intros [? ?]|]| |by split; [intros [? ?]|]].
  destruct enable_ccm; simpl; [|by split; [|eauto]].
  destruct (section "features" (TDict m)) as [?|ft|?]; simpl;
    [by split; [intros [? ?]|]| |by split; [intros [? ?]|]].
  destruct (section "cluster" (TDict d)) as [?|c|?]; simpl;
    [by split; [intros [? ?]|]| |by split; [intros [? ?]|]].
  by split; [|eauto].
Qed.

(** *** Patching a patched document *)

Ltac kv_norm :=
  repeat first [ rewrite kv_get_set_eq
               | rewrite kv_get_set_ne by str_ne
               | rewrite section_set_eq
               | rewrite section_set_ne by str_ne ].

Ltac kv_same := rewrite kv_set_same by (kv_norm; reflexivity).

Lemma install_closed_idem disk i :
  install_closed disk (install_closed disk i) = install_closed disk i.
Proof. unfold install_closed. by do 3 kv_same. Qed.

Lemma network_closed_idem ip cidr gw ns ifname vip nw :
  network_closed ip cidr gw ns ifname vip
    (network_closed ip cidr gw ns ifname vip nw)
  = network_closed ip cidr gw ns ifname vip nw.
Proof. unfold network_closed. by do 2 kv_same. Qed.

Lemma extra_args_closed_idem enable_ccm ea :
  extra_args_closed enable_ccm (extra_args_closed enable_ccm ea)
  = extra_args_closed enable_ccm ea.
Proof.
  unfold extra_args_closed. destruct enable_ccm; [by do 2 kv_same|by kv_same].
Qed.

Lemma machine_closed_idem ip cidr gw ns ifname disk vip enable_ccm m i nw k ea ft :
  let m' := machine_closed ip cidr gw ns ifname disk vip enable_ccm m i nw k ea ft in
  machine_closed ip cidr gw ns ifname disk vip enable_ccm m'
    (install_closed disk i) (network_closed ip cidr gw ns ifname vip nw)
    (kv_set "extraArgs" (TDict (extra_args_closed enable_ccm ea)) k)
    (extra_args_closed enable_ccm ea)
    (kv_set "kubernetesTalosAPIAccess" talos_api_access ft)
  = m'.
Proof.
  unfold machine_closed. simpl.
  rewrite install_closed_idem, network_closed_idem, extra_args_closed_idem.
  rewrite !kv_set_set.
  destruct enable_ccm.
  - rewrite (kv_set_same "install" _ (kv_set "features" _ _)) by (kv_norm; reflexivity).
    rewrite (kv_set_same "network" _ (kv_set "features" _ _)) by (kv_norm; reflexivity).
    rewrite (kv_set_same "kubelet" _ (kv_set "features" _ _)) by (kv_norm; reflexivity).
    by rewrite kv_set_set.
  - rewrite (kv_set_same "install" _ (kv_set "kubelet" _ _)) by (kv_norm; reflexivity).
    rewrite (kv_set_same "network" _ (kv_set "kubelet" _ _)) by (kv_norm; reflexivity).
    by rewrite kv_set_set.
Qed.

Lemma machine_closed_idem_off ip cidr gw ns ifname disk vip m i nw k ea ft ft' :
  let m' := machine_closed ip cidr gw ns ifname disk vip false m i nw k ea ft in
  machine_closed ip cidr gw ns ifname disk vip false m'
    (install_closed disk i) (network_closed ip cidr gw ns ifname vip nw)
    (kv_set "extraArgs" (TDict (extra_args_closed false ea)) k)
    (extra_args_closed false ea) ft'
  = m'.
Proof.
  unfold machine_closed. simpl.
  rewrite install_closed_idem, network_closed_idem, extra_args_closed_idem.
  rewrite !kv_set_set.
  rewrite (kv_set_same "install" _ (kv_set "kubelet" _ _)) by (kv_norm; reflexivity).
  rewrite (kv_set_same "network" _ (kv_set "kubelet" _ _)) by (kv_norm; reflexivity).
  by rewrite kv_set_set.
Qed.

#[local] Arguments machine_closed : simpl never.

Lemma patch_closed_idem ip cidr gw ns ifname disk vip enable_ccm t t' :
  patch_closed ip cidr gw ns ifname disk vip enable_ccm t = Some t' →
  patch_closed ip cidr gw ns ifname disk vip enable_ccm t' = Some t'.
Proof.
  unfold patch_closed.
  destruct t as [s|d|l]; simpl; [done| |done].
  destruct (section "machine" (TDict d)) as [?|m|?]; simpl; [done| |done].
  destruct (section "install" (TDict m)) as [?|i|?]; simpl; [done| |done].
  destruct (section "network" (TDict m)) as [?|nw|?]; simpl; [done| |done].
  destruct (section "kubelet" (TDict m)) as [?|k|?]; simpl; [done| |done].
  destruct (section "extraArgs" (TDict k)) as [?|ea|?]; simpl; [done| |done].
  assert (∀ ft, section "install"
            (TDict (machine_closed ip cidr gw ns ifname disk vip enable_ccm m i nw k ea ft))
          = TDict (install_closed disk i)) as Hi.
  { intros ft. unfold machine_closed. destruct enable_ccm; by kv_norm. }
  assert (∀ ft, section "network"
            (TDict (machine_closed ip cidr gw ns ifname disk vip enable_ccm m i nw k ea ft))
          = TDict (network_closed ip cidr gw ns ifname vip nw)) as Hn.
  { intros ft. unfold machine_closed. destruct enable_ccm; by kv_norm. }
  assert (∀ ft, section "kubelet"
            (TDict (machine_closed ip cidr gw ns ifname disk vip enable_ccm m i nw k ea ft))
          = TDict (kv_set "extraArgs" (TDict (extra_args_closed enable_ccm ea)) k)) as Hk.
  { intros ft. unfold machine_closed. destruct enable_ccm; by kv_norm. }
  destruct enable_ccm; simpl.
  - destruct (section "features" (TDict m)) as [?|ft|?]; simpl; [done| |done].
    assert (section "features"
              (TDict (machine_closed ip cidr gw ns ifname disk vip true m i nw k ea ft))
            = TDict (kv_set "kubernetesTalosAPIAccess" talos_api_access ft)) as Hf.
    { unfold machine_closed. by kv_norm. }
    destruct (section "cluster" (TDict d)) as [?|c|?] eqn:Ec; simpl; [done| |done].
    destruct (truthy_tree (section "controlPlane" (TDict c))) eqn:Ecp.
    + intros [= <-]. simpl. kv_norm. simpl. rewrite Hi, Hn, Hk. simpl. kv_norm. simpl.
      rewrite Hf. simpl. kv_norm. simpl. rewrite Ecp.
      rewrite machine_closed_idem, kv_set_set.
      rewrite (kv_set_same "machine" _ (kv_set "cluster" _ _)) by (kv_norm; reflexivity).
      by rewrite kv_set_set.
    + intros [= <-]. simpl. kv_norm. simpl. rewrite Hi, Hn, Hk. simpl. kv_norm. simpl.
      rewrite Hf. simpl. kv_norm. rewrite Ec. simpl. rewrite Ecp.
      by rewrite machine_closed_idem, kv_set_set.
  - intros [= <-]. simpl. kv_norm. simpl. rewrite Hi, Hn, Hk. simpl. kv_norm. simpl.
    by rewrite machine_closed_idem_off, kv_set_set.
Qed.

(** *** The keys written, and nothing else *)







(** *** The fields written *)

Lemma iface_tree_doc ip cidr gw ifname vip :
  iface_tree ip cidr gw ifname vip = interface_doc ip cidr gw ifname vip.
Proof. unfold iface_tree, interface_doc. by destruct (truthy_str vip). Qed.

Lemma patch_closed_fields n t t' :
  patch_closed (n_ip n) (n_cidr n) (n_gw n) (n_ns n) (n_ifname n) (n_disk n)
    (n_vip n) (n_enable_ccm n) t = Some t' →
  node_fields n t'.
Proof.
  unfold patch_closed.
  destruct t as [s|d|l]; simpl; [done| |done].
  destruct (section "machine" (TDict d)) as [?|m|?]; simpl; [done| |done].
  destruct (section "install" (TDict m)) as [?|i|?]; simpl; [done| |done].
  destruct (section "network" (TDict m)) as [?|nw|?]; simpl; [done| |done].
  destruct (section "kubelet" (TDict m)) as [?|k|?]; simpl; [done| |done].
  destruct (section "extraArgs" (TDict k)) as [?|ea|?]; simpl; [done| |done].
  assert (∀ (b : bool) c d' ft,
    kv_get "machine" d' = Some (TDict
      (machine_closed (n_ip n) (n_cidr n) (n_gw n) (n_ns n) (n_ifname n)
         (n_disk n) (n_vip n) (n_enable_ccm n) m i nw k ea ft)) →
    node_fields n (TDict (if b then kv_set "cluster" c d' else d'))) as Hall.
  { intros b c d' ft Hd'. unfold node_fields. simpl.
    assert (kv_get "machine" (if b then kv_set "cluster" c d' else d')
            = kv_get "machine" d') as ->.
    { destruct b; [|done]. by kv_norm. }
    rewrite Hd'. simpl. unfold machine_closed.
    destruct (n_enable_ccm n); kv_norm; simpl;
      unfold install_closed, network_closed, extra_args_closed; kv_norm; simpl;
      kv_norm; by rewrite iface_tree_doc. }
  destruct (n_enable_ccm n) eqn:Eccm; simpl.
  - destruct (section "features" (TDict m)) as [?|ft|?]; simpl; [done| |done].
    destruct (section "cluster" (TDict d)) as [?|c|?]; simpl; [done| |done].
    intros [= <-]. apply (Hall _ _ _ ft). by kv_norm.
  - intros [= <-]. apply (Hall false (TDict []) _ []). by kv_norm.
Qed.

(** *** The order of the keys *)

Lemma kv_keys_set_add {A} k (v : A) d :
  kv_keys (kv_set k v d) = add_keys (kv_keys d) [k].
Proof. by rewrite kv_keys_set. Qed.

Lemma add_keys_app ks a b : add_keys (add_keys ks a) b = add_keys ks (a ++ b).
Proof. unfold add_keys. by rewrite foldl_app. Qed.

Lemma add_keys_nil ks : add_keys ks [] = ks.
Proof. done. Qed.

Lemma patch_closed_keys ip cidr gw ns ifname disk vip ccm t t' :
  patch_closed ip cidr gw ns ifname disk vip ccm t = Some t' →
  key_order ccm t t'.
Proof.
  unfold patch_closed, key_order.
  destruct t as [s|d|l]; simpl; [done| |done].
  destruct (section "machine" (TDict d)) as [?|m|?] eqn:Hm; simpl; [done| |done].
  destruct (section "install" (TDict m)) as [?|i|?] eqn:Hi; simpl; [done| |done].
  destruct (section "network" (TDict m)) as [?|nw|?] eqn:Hnw; simpl; [done| |done].
  destruct (section "kubelet" (TDict m)) as [?|k|?] eqn:Hk; simpl; [done| |done].
  destruct (section "extraArgs" (TDict k)) as [?|ea|?] eqn:Hea; simpl; [done| |done].
  destruct ccm; simpl.
  - destruct (section "features" (TDict m)) as [?|ft|?] eqn:Hft; simpl; [done| |done].
    destruct (section "cluster" (TDict d)) as [?|c|?] eqn:Hc; simpl; [done| |done].
    intros [= <-]. unfold keys_at, machine_closed, install_closed,
      network_closed, extra_args_closed.
    destruct (truthy_tree (section "controlPlane" (TDict c))); simpl;
      kv_norm; simpl; kv_norm; simpl; kv_norm; simpl;
      rewrite ?kv_keys_set_add, ?add_keys_app; done.
  - intros [= <-]. unfold keys_at, machine_closed, install_closed,
      network_closed, extra_args_closed.
    simpl; kv_norm; simpl; kv_norm; simpl; kv_norm; simpl;
      rewrite ?kv_keys_set_add, ?add_keys_app; done.
Qed.

End closed_form.

(** ** patch_node on a loaded template: more properties *)

Lemma patch_run_doc T n h base h0 d h1 :
  wf_tree T = true → load T h = Some (base, h0) → patch base n h0 = Some (d, h1) →
  ∃ T' F',
    patch_tree (n_ip n) (n_cidr n) (n_gw n) (n_ns n) (n_ifname n) (n_disk n)
      (n_vip n) (n_enable_ccm n) T = Some T'
    ∧ repr h1 d T' F'
    ∧ dump d h1 = Some (T', h1).
Proof.
  intros Hwf Hload Hrun.
  destruct (load_repr T h base h0 Hwf Hload) as (F & Hr & _ & _).
  destruct (patch_repr h0 base T F n d h1 Hr Hrun) as (T' & F' & Hpt & Hr' & _ & _).
  exists T', F'. split_and!; [done|done|by eapply dump_repr].
Qed.

(** patch_node raises exactly on the templates in which one of the sections
    it enters is present without being a mapping (machine, machine.install,
    machine.network, machine.kubelet, machine.kubelet.extraArgs, and with CCM
    enabled machine.features and cluster), or which are no mapping
    themselves. *)
Theorem patch_node_raises_iff (T : tree) (n : node) (h h0 : heap) (base : val) :
  wf_tree T = true →
  load T h = Some (base, h0) →
  patch base n h0 = None ↔ patchable (n_enable_ccm n) T = false.
Proof.
  intros Hwf Hload.
  destruct (load_repr T h base h0 Hwf Hload) as (F & Hr & _ & _).
  pose proof (patch_node_refines h0 base T F (n_ip n) (n_cidr n) (n_gw n)
                (n_ns n) (n_ifname n) (n_disk n) (n_vip n) (n_enable_ccm n) Hr)
    as Href.
  pose proof (patch_closed_runs (n_ip n) (n_cidr n) (n_gw n) (n_ns n)
                (n_ifname n) (n_disk n) (n_vip n) (n_enable_ccm n) T) as Hruns.
  rewrite <- patch_tree_closed in Hruns. unfold patch.
  destruct (patch_tree _ _ _ _ _ _ _ _ T) as [T'|].
  - destruct Href as (d & h' & F' & -> & _). split; [done|].
    intros Hno. destruct Hruns as [Hyes _]. rewrite Hyes in Hno; [done|eauto].
  - split; [|done]. intros _.
    destruct (patchable (n_enable_ccm n) T); [|done].
    destruct Hruns as [_ Hyes]. by destruct (Hyes eq_refl).
Qed.

Lemma patch_node_raises_iff_witness :
  ∃ base h0,
    load ex_null_machine_template [] = Some (base, h0)
    ∧ patch base (ex_node "10.0.0.11") h0 = None.
Proof.
  eexists _, _. split; [vm_compute; reflexivity|].
  eapply (proj2 (patch_node_raises_iff ex_null_machine_template
                   (ex_node "10.0.0.11") [] _ _ eq_refl ltac:(vm_compute; reflexivity))).
  reflexivity.
Defined.

(** The document patch_node returns has the install disk, the QEMU guest
    agent extension and the kernel argument net.ifnames=0 under
    machine.install; exactly one interface under machine.network, with DHCP
    off, the static address ip/cidr and a default route through the gateway
    (and the VIP block iff a VIP is given); the one nameserver; and the
    kubelet argument rotate-server-certificates=true. *)
Theorem patch_node_fields (T : tree) (n : node) (h h0 h1 : heap) (base d : val) :
  wf_tree T = true →
  load T h = Some (base, h0) →
  patch base n h0 = Some (d, h1) →
  ∃ T', dump d h1 = Some (T', h1) ∧ node_fields n T'.
Proof.
  intros Hwf Hload Hrun.
  destruct (patch_run_doc T n h base h0 d h1 Hwf Hload Hrun)
    as (T' & F' & Hpt & _ & Hdump).
  exists T'. split; [done|].
  rewrite patch_tree_closed in Hpt. by eapply patch_closed_fields.
Qed.

Lemma patch_node_fields_witness :
  ∃ base h0 d h1 T',
    load ex_worker_template [] = Some (base, h0)
    ∧ patch base (ex_node "10.0.0.21") h0 = Some (d, h1)
    ∧ dump d h1 = Some (T', h1)
    ∧ node_fields (ex_node "10.0.0.21") T'.
Proof.
  eexists _, _, _, _.
  edestruct (patch_node_fields ex_worker_template (ex_node "10.0.0.21") [])
    as (T' & Hdump & Hfields).
  - reflexivity.
  - vm_compute. reflexivity.
  - vm_compute. reflexivity.
  - exists T'. split_and!; [vm_compute; reflexivity|vm_compute; reflexivity
                           |exact Hdump|exact Hfields].
Defined.



(** Patching is idempotent: patch_node applied to a document it returned,
    with the same node parameters, returns a document equal to its argument
    field for field (and leaves the argument as it was). *)
Theorem patch_node_idempotent (T : tree) (n : node) (h h0 h1 : heap)
    (base d1 : val) :
  wf_tree T = true →
  load T h = Some (base, h0) →
  patch base n h0 = Some (d1, h1) →
  ∃ d2 h2 T',
    patch d1 n h1 = Some (d2, h2)
    ∧ dump d1 h2 = Some (T', h2)
    ∧ dump d2 h2 = Some (T', h2).
Proof.
  intros Hwf Hload Hrun.
  destruct (patch_run_doc T n h base h0 d1 h1 Hwf Hload Hrun)
    as (T' & F' & Hpt & Hr1 & _).
  pose proof (patch_node_refines h1 d1 T' F' (n_ip n) (n_cidr n) (n_gw n)
                (n_ns n) (n_ifname n) (n_disk n) (n_vip n) (n_enable_ccm n) Hr1)
    as Href.
  rewrite patch_tree_closed in Hpt, Href.
  rewrite (patch_closed_idem _ _ _ _ _ _ _ _ _ _ Hpt) in Href.
  destruct Href as (d2 & h2 & F2 & Hrun2 & Hr2 & Hag & _).
  exists d2, h2, T'. split_and!; [done| |by eapply dump_repr].
  eapply dump_repr, repr_agree; [exact Hr1|exact Hag|set_solver].
Qed.

Lemma patch_node_idempotent_witness :
  ∃ base h0 d1 h1 d2 h2 T',
    load ex_cp_template [] = Some (base, h0)
    ∧ patch base (ex_node "10.0.0.11") h0 = Some (d1, h1)
    ∧ patch d1 (ex_node "10.0.0.11") h1 = Some (d2, h2)
    ∧ dump d1 h2 = Some (T', h2)
    ∧ dump d2 h2 = Some (T', h2).
Proof.
  eexists _, _, _, _.
  edestruct (patch_node_idempotent ex_cp_template (ex_node "10.0.0.11") [])
    as (d2 & h2 & T' & Hrun & Hd1 & Hd2).
  - reflexivity.
  - vm_compute. reflexivity.
  - vm_compute. reflexivity.
  - exists d2, h2, T'.
    split_and!; [vm_compute; reflexivity|vm_compute; reflexivity
                |exact Hrun|exact Hd1|exact Hd2].
Defined.

(** patch_node keeps the order of the keys (the files are dumped with
    sort_keys=False): in the document and in each section it enters, the
    keys of the template stay where they are, and the keys it adds follow
    in the order of its assignments: machine (then cluster) at the top;
    install, network, kubelet (then features) under machine; disk,
    extensions, extraKernelArgs under install; interfaces, nameservers under
    network; extraArgs under kubelet; rotate-server-certificates (then
    cloud-provider) under extraArgs. *)
Theorem patch_node_key_order (T : tree) (n : node) (h h0 h1 : heap) (base d : val) :
  wf_tree T = true →
  load T h = Some (base, h0) →
  patch base n h0 = Some (d, h1) →
  ∃ T', dump d h1 = Some (T', h1) ∧ key_order (n_enable_ccm n) T T'.
Proof.
  intros Hwf Hload Hrun.
  destruct (patch_run_doc T n h base h0 d h1 Hwf Hload Hrun)
    as (T' & F' & Hpt & _ & Hdump).
  exists T'. split; [done|].
  rewrite patch_tree_closed in Hpt. by eapply patch_closed_keys.
Qed.

Lemma patch_node_key_order_witness :
  ∃ base h0 d h1 T',
    load ex_bare_template [] = Some (base, h0)
    ∧ patch base (ex_node "10.0.0.21") h0 = Some (d, h1)
    ∧ dump d h1 = Some (T', h1)
    ∧ key_order (n_enable_ccm (ex_node "10.0.0.21")) ex_bare_template T'.
Proof.
  eexists _, _, _, _.
  edestruct (patch_node_key_order ex_bare_template (ex_node "10.0.0.21") [])
    as (T' & Hdump & Horder).
  - reflexivity.
  - vm_compute. reflexivity.
  - vm_compute. reflexivity.
  - exists T'. split_and!; [vm_compute; reflexivity|vm_compute; reflexivity
                           |exact Hdump|exact Horder].
Defined.

(** ** File names *)

Lemma string_app_length s t :
  String.length (s +:+ t) = String.length s + String.length t.
Proof. induction s as [|a s IH]; simpl; [done|]. by rewrite IH. Qed.

Lemma string_app_inj_r s1 s2 t : s1 +:+ t = s2 +:+ t → s1 = s2.
Proof.
  revert s2. induction s1 as [|a s1 IH]; intros [|b s2] H; simpl in *.
  - done.
  - apply (f_equal String.length) in H.
    rewrite ?string_app_length in H. simpl in H.
    rewrite ?string_app_length in H. lia.
  - apply (f_equal String.length) in H.
    rewrite ?string_app_length in H. simpl in H.
    rewrite ?string_app_length in H. lia.
  - injection H as -> H. f_equal. by apply IH.
Qed.

Lemma pretty_N_go_app x s t : pretty_N_go x s +:+ t = pretty_N_go x (s +:+ t).
Proof.
  revert s. induction (N.lt_wf_0 x) as [x _ IH]; intros s.
  assert (x = 0 ∨ 0 < x)%N as [->|Hx] by lia.
  - by rewrite !pretty_N_go_0.
  - rewrite (pretty_N_go_step x s), (pretty_N_go_step x (s +:+ t)) by done.
    rewrite IH; [done|]. by apply N.div_lt.
Qed.

Lemma pretty_N_go_head x s c :
  (∀ y, pretty_N_char y ≠ c) →
  (∀ r, s ≠ String c r) → ∀ r, pretty_N_go x s ≠ String c r.
Proof.
  intros Hc. revert s. induction (N.lt_wf_0 x) as [x _ IH]; intros s Hs r.
  assert (x = 0 ∨ 0 < x)%N as [->|Hx] by lia.
  - rewrite pretty_N_go_0. apply Hs.
  - rewrite pretty_N_go_step by done. apply IH; [by apply N.div_lt|].
    intros r' [= H _]. by apply (Hc _ H).
Qed.

Lemma pretty_N_char_not_o y : pretty_N_char y ≠ "o"%char.
Proof. unfold pretty_N_char. by repeat case_match. Qed.

(** A number followed by [.yaml] does not start with the letter o. *)
Lemma pretty_nat_yaml_head (n : nat) r : pretty n +:+ ".yaml" ≠ String "o" r.
Proof.
  unfold pretty, pretty_nat, pretty, pretty_N. case_decide; [done|].
  rewrite pretty_N_go_app. apply pretty_N_go_head; [apply pretty_N_char_not_o|done].
Qed.

Lemma path_join_inj out x y : path_join out x = path_join out y → x = y.
Proof.
  unfold path_join. intros H. apply (inj (String.app out)) in H.
  by injection H.
Qed.

Lemma cp_file_inj out i j : cp_file out i = cp_file out j → i = j.
Proof.
  unfold cp_file. intros H%path_join_inj. injection H as H.
  change ("" +:+ ?x) with x in H.
  apply string_app_inj_r in H. by apply (inj pretty) in H.
Qed.

Lemma w_file_inj out i j : w_file out i = w_file out j → i = j.
Proof.
  unfold w_file. intros H%path_join_inj. injection H as H.
  change ("" +:+ ?x) with x in H.
  apply string_app_inj_r in H. by apply (inj pretty) in H.
Qed.

Lemma cp_file_w_file out i j : cp_file out i ≠ w_file out j.
Proof. unfold cp_file, w_file. by intros H%path_join_inj. Qed.

Lemma cp_file_not_template out i :
  cp_file out i ≠ path_join out "controlplane.yaml"
  ∧ cp_file out i ≠ path_join out "worker.yaml".
Proof. unfold cp_file. split; by intros H%path_join_inj. Qed.

Lemma w_file_not_template out i :
  w_file out i ≠ path_join out "controlplane.yaml"
  ∧ w_file out i ≠ path_join out "worker.yaml".
Proof.
  unfold w_file. split; intros H%path_join_inj; [done|].
  injection H as H. change ("" +:+ ?x) with x in H.
  by apply pretty_nat_yaml_head in H.
Qed.

Lemma planned_files_NoDup a out : NoDup (planned_files a out).
Proof.
  unfold planned_files. apply NoDup_app. split_and!.
  - apply NoDup_fmap_2_strong; [|apply NoDup_seq].
    intros i j _ _. apply cp_file_inj.
  - intros p (i & -> & _)%list_elem_of_fmap (j & H & _)%list_elem_of_fmap.
    by apply cp_file_w_file in H.
  - apply NoDup_fmap_2_strong; [|apply NoDup_seq].
    intros i j _ _. apply w_file_inj.
Qed.

Lemma planned_files_not_template a out p :
  p ∈ planned_files a out →
  p ≠ path_join out "controlplane.yaml" ∧ p ≠ path_join out "worker.yaml".
Proof.
  unfold planned_files. rewrite elem_of_app.
  intros [(i & -> & _)%list_elem_of_fmap|(i & -> & _)%list_elem_of_fmap].
  - apply cp_file_not_template.
  - apply w_file_not_template.
Qed.

(** ** The files a run writes *)

Lemma patched_doc_tree tpl n :
  wf_tree tpl = true →
  patched_doc tpl n
  = patch_tree (n_ip n) (n_cidr n) (n_gw n) (n_ns n) (n_ifname n) (n_disk n)
      (n_vip n) (n_enable_ccm n) tpl.
Proof.
  intros Hwf. unfold patched_doc.
  destruct (load_builds tpl Hwf []) as (base & h0 & F & Hload & Hr & _ & _).
  pose proof (patch_node_refines h0 base tpl F (n_ip n) (n_cidr n) (n_gw n)
                (n_ns n) (n_ifname n) (n_disk n) (n_vip n) (n_enable_ccm n) Hr)
    as Href.
  unfold mbind at 1, M_bind. rewrite Hload.
  unfold mbind, M_bind, patch.
  destruct (patch_tree _ _ _ _ _ _ _ _ tpl) as [T'|].
  - destruct Href as (d & h1 & F' & -> & Hr' & _).
    by rewrite (dump_repr _ _ _ _ Hr').
  - by rewrite Href.
Qed.


Lemma write_all_cons p paths t docs files :
  write_all (p :: paths) (t :: docs) files
  = write_all paths docs (kv_set p t files).
Proof. done. Qed.

Lemma write_all_app paths1 paths2 docs1 docs2 files :
  length docs1 = length paths1 →
  write_all (paths1 ++ paths2) (docs1 ++ docs2) files
  = write_all paths2 docs2 (write_all paths1 docs1 files).
Proof.
  revert docs1 files. induction paths1 as [|p paths1 IH];
    intros [|t docs1] files Hlen; simpl in *; try done.
  rewrite !write_all_cons. apply IH. lia.
Qed.

Lemma write_all_app_short paths1 paths2 docs files :
  length docs ≤ length paths1 →
  write_all (paths1 ++ paths2) docs files = write_all paths1 docs files.
Proof.
  intros Hlen. unfold write_all. by rewrite (zip_with_app_short pair).
Qed.

Lemma kv_get_write_all_other p paths docs files :
  p ∉ paths → kv_get p (write_all paths docs files) = kv_get p files.
Proof.
  revert docs files. induction paths as [|q paths IH]; intros [|t docs] files Hp;
    try done.
  rewrite write_all_cons. apply not_elem_of_cons in Hp as [Hne Hp].
  rewrite IH by done. by apply kv_get_set_ne.
Qed.

Lemma kv_get_write_all paths docs files i p t :
  NoDup paths → paths !! i = Some p → docs !! i = Some t →
  kv_get p (write_all paths docs files) = Some t.
Proof.
  revert docs files i. induction paths as [|q paths IH];
    intros [|t0 docs] files [|i] Hnd Hp Ht; simplify_eq/=.
  - apply NoDup_cons in Hnd as [Hq _].
    rewrite write_all_cons, kv_get_write_all_other by done.
    apply kv_get_set_eq.
  - apply NoDup_cons in Hnd as [_ Hnd]. rewrite write_all_cons. by eapply IH.
Qed.

(** One loop of [create_node_configs], with the files it leaves. *)
Lemma for_enumerate_files file tpl T F c g ns i d v e ips :
  ∀ k w, repr (w_heap w) tpl T F →
  ∃ docs o w',
    for_enumerate (dump_node file (λ ip, patch_node tpl ip c g ns i d v e)) k ips w
    = (o, w')
    ∧ w_trace w' = w_trace w ++ zip_with EvDump (file <$> seq k (length ips)) docs
    ∧ w_files w' = write_all (file <$> seq k (length ips)) docs (w_files w)
    ∧ Forall2 (λ ip doc, patch_tree ip c g ns i d v e T = Some doc)
              (take (length docs) ips) docs
    ∧ agree_off ∅ (w_heap w) (w_heap w')
    ∧ ((o = Ret (file <$> seq k (length ips)) ∧ length docs = length ips)
       ∨ (o = Raised ∧ length docs < length ips
          ∧ ∃ ip, ips !! length docs = Some ip
                  ∧ patch_tree ip c g ns i d v e T = None)).
Proof.
  induction ips as [|ip ips IH]; intros k w Hr.
  - exists [], (Ret []), w. simpl. rewrite app_nil_r.
    split_and!; [done|done|done|constructor|apply agree_off_refl|by left].
  - pose proof (dump_node_run file tpl T F c g ns i d v e k ip w Hr) as Hone.
    simpl for_enumerate.
    destruct (patch_tree ip c g ns i d v e T) as [t'|] eqn:Hpt.
    + destruct Hone as (h' & Hone & Hag).
      set (w1 := World h' _ _) in Hone.
      assert (repr (w_heap w1) tpl T F) as Hr1.
      { eapply repr_agree; [exact Hr|exact Hag|set_solver]. }
      destruct (IH (S k) w1 Hr1)
        as (docs & o & w' & Hrun & Htr & Hfs & Hdocs & Hag' & Hout).
      exists (t' :: docs).
      destruct Hout as [[-> Hlen]|(-> & Hlen & ip' & Hip' & Hnone)].
      * exists (Ret (file <$> seq k (S (length ips)))), w'.
        split_and!.
        -- erewrite P_bind_run; [|exact Hone].
           erewrite P_bind_run; [|exact Hrun]. done.
        -- rewrite Htr. simpl. by rewrite <- app_assoc.
        -- rewrite Hfs. done.
        -- simpl. by constructor.
        -- eapply agree_off_trans; [exact Hag|exact Hag'|set_solver].
        -- left. simpl. by rewrite Hlen.
      * exists Raised, w'.
        split_and!.
        -- erewrite P_bind_run; [|exact Hone].
           erewrite P_bind_raised; [done|exact Hrun].
        -- rewrite Htr. simpl. by rewrite <- app_assoc.
        -- rewrite Hfs. done.
        -- simpl. by constructor.
        -- eapply agree_off_trans; [exact Hag|exact Hag'|set_solver].
        -- right. simpl. split_and!; [done|lia|eauto].
    + exists [], Raised, w. simpl. rewrite app_nil_r.
      split_and!; [by apply P_bind_raised|done|done|constructor|apply agree_off_refl|].
      right. split_and!; [done|lia|eauto].
Qed.

Lemma patch_tree_None_iff ip cidr gw ns ifname disk vip enable_ccm t :
  patch_tree ip cidr gw ns ifname disk vip enable_ccm t = None
  ↔ patchable enable_ccm t = false.
Proof.
  rewrite patch_tree_closed.
  pose proof (patch_closed_runs ip cidr gw ns ifname disk vip enable_ccm t) as H.
  destruct (patch_closed _ _ _ _ _ _ _ _ t), (patchable enable_ccm t);
    split; try done.
  - intros _. destruct H as [H _]. by specialize (H (mk_is_Some _ _ eq_refl)).
  - intros _. destruct H as [_ H]. by destruct (H eq_refl).
Qed.


(** A run on an output directory holding the two templates, in full: what
    is written, what is validated, and how it can raise. *)
Lemma create_node_configs_run validator a out w cp_tpl wk_tpl :
  templates out w cp_tpl wk_tpl →
  ∃ cp_docs wk_docs m,
    let r := create_node_configs validator a out w in
    w_trace r.2
    = w_trace w
      ++ zip_with EvDump (cp_file out <$> seq 1 (length (control_planes a))) cp_docs
      ++ zip_with EvDump (w_file out <$> seq 1 (length (workers a))) wk_docs
      ++ (EvValidate <$> take m (planned_files a out))
    ∧ w_files r.2 = write_all (planned_files a out) (cp_docs ++ wk_docs) (w_files w)
    ∧ Forall2 (λ ip doc,
         patch_tree ip (cidr a) (gateway a) (nameserver a) (ifname a) (disk a)
           (vip a) (enable_ccm a) cp_tpl = Some doc)
        (take (length cp_docs) (control_planes a)) cp_docs
    ∧ Forall2 (λ ip doc,
         patch_tree ip (cidr a) (gateway a) (nameserver a) (ifname a) (disk a)
           None (enable_ccm a) wk_tpl = Some doc)
        (take (length wk_docs) (workers a)) wk_docs
    ∧ ((r.1 ≠ Raised ∧ length cp_docs = length (control_planes a)
        ∧ length wk_docs = length (workers a)
        ∧ (r.1 = Ret () → m = length (planned_files a out))
        ∧ ∀ c, r.1 = Exited c →
               c ≠ 0%Z ∧ ∃ p, c = validator p (kv_get p (w_files r.2)))
       ∨ (r.1 = Raised ∧ m = 0 ∧ wk_docs = []
          ∧ length cp_docs < length (control_planes a)
          ∧ patchable (enable_ccm a) cp_tpl = false)
       ∨ (r.1 = Raised ∧ m = 0
          ∧ length cp_docs = length (control_planes a)
          ∧ length wk_docs < length (workers a)
          ∧ patchable (enable_ccm a) wk_tpl = false)).
Proof.
  intros (Hcp & Hwk & Hwfc & Hwfw). rewrite create_node_configs_unfold.
  destruct (yaml_load_run _ w cp_tpl Hcp Hwfc) as (x1 & h1 & F1 & Hl1 & Hr1 & Hag1).
  set (w1 := World h1 (w_files w) (w_trace w)) in Hl1.
  destruct (yaml_load_run _ w1 wk_tpl Hwk Hwfw) as (x2 & h2 & F2 & Hl2 & Hr2 & Hag2).
  simpl in Hl2, Hag2. set (w2 := World h2 (w_files w) (w_trace w)) in Hl2.
  assert (repr (w_heap w2) x1 cp_tpl F1) as Hr1'.
  { eapply repr_agree; [exact Hr1|exact Hag2|set_solver]. }
  destruct (for_enumerate_files (cp_file out) x1 cp_tpl F1 (cidr a) (gateway a)
              (nameserver a) (ifname a) (disk a) (vip a) (enable_ccm a)
              (control_planes a) 1 w2 Hr1')
    as (cp_docs & o3 & w3 & Hrun3 & Htr3 & Hfs3 & Hd3 & Hag3 & Hout3).
  simpl in Htr3, Hfs3.
  erewrite P_bind_run; [|exact Hl1]. erewrite P_bind_run; [|exact Hl2].
  destruct Hout3 as [[-> Hlen3]|(-> & Hlen3 & ip & _ & Hnone)].
  - assert (repr (w_heap w3) x2 wk_tpl F2) as Hr2'.
    { eapply repr_agree; [exact Hr2|exact Hag3|set_solver]. }
    destruct (for_enumerate_files (w_file out) x2 wk_tpl F2 (cidr a) (gateway a)
                (nameserver a) (ifname a) (disk a) None (enable_ccm a)
                (workers a) 1 w3 Hr2')
      as (wk_docs & o4 & w4 & Hrun4 & Htr4 & Hfs4 & Hd4 & Hag4 & Hout4).
    erewrite P_bind_run; [|exact Hrun3].
    exists cp_docs, wk_docs.
    assert (w_files w4
            = write_all (planned_files a out) (cp_docs ++ wk_docs) (w_files w))
      as Hfiles.
    { unfold planned_files. rewrite write_all_app by (by rewrite length_fmap, length_seq).
      by rewrite Hfs4, Hfs3. }
    destruct Hout4 as [[-> Hlen4]|(-> & Hlen4 & ip & _ & Hnone)].
    + erewrite P_bind_run; [|exact Hrun4].
      destruct (validate_files validator _ w4) as [o5 w5] eqn:Hv.
      pose proof Hv as Hv'.
      apply validate_files_inv in Hv as (Hfs5 & m & _ & Htr5 & _ & Ho5).
      exists m. simpl. split_and!; [|by rewrite Hfs5|done|done|].
      * rewrite Htr5, Htr4, Htr3. by rewrite <- !app_assoc.
      * left. split_and!; [|done|done| |]; [by destruct o5| |].
        -- intros ->. by destruct Ho5 as [-> _].
        -- intros c ->. destruct Ho5 as (Hc & i & p & _ & _ & ->).
           split; [done|]. exists p. by rewrite Hfs5.
    + erewrite P_bind_raised; [|exact Hrun4].
      exists 0. simpl. split_and!; [|done|done|done|].
      * rewrite Htr4, Htr3. by rewrite <- !app_assoc, app_nil_r.
      * right. right. split_and!; [done..|]. by apply patch_tree_None_iff in Hnone.
  - erewrite P_bind_raised; [|exact Hrun3].
    exists cp_docs, [], 0. simpl. split_and!; [| |done|constructor|].
    + rewrite Htr3. by rewrite zip_with_nil_r, !app_nil_r.
    + rewrite Hfs3, app_nil_r. unfold planned_files.
      rewrite write_all_app_short; [done|]. rewrite length_fmap, length_seq. lia.
    + right. left. split_and!; [done..|]. by apply patch_tree_None_iff in Hnone.
Qed.

(** ** create_node_configs: files, failures *)

Lemma create_node_configs_files_all validator (a : args) (out : string)
    (w : world) (cp_tpl wk_tpl : tree) :
  templates out w cp_tpl wk_tpl →
  (create_node_configs validator a out w).1 ≠ Raised →
  let files := w_files (create_node_configs validator a out w).2 in
  (∀ i ip, control_planes a !! i = Some ip →
     ∃ doc, patched_doc cp_tpl (cp_node a ip) = Some doc
            ∧ kv_get (cp_file out (S i)) files = Some doc)
  ∧ (∀ i ip, workers a !! i = Some ip →
       ∃ doc, patched_doc wk_tpl (worker_node a ip) = Some doc
              ∧ kv_get (w_file out (S i)) files = Some doc)
  ∧ (∀ p, p ∉ planned_files a out → kv_get p files = kv_get p (w_files w))
  ∧ templates out (create_node_configs validator a out w).2 cp_tpl wk_tpl.
Proof.
  intros Htpl Hok.
  destruct (create_node_configs_run validator a out w cp_tpl wk_tpl Htpl)
    as (cp_docs & wk_docs & m & _ & Hfs & Hcp & Hwk & Hout).
  simpl in Hfs, Hout.
  destruct Hout as [(_ & Hlc & Hlw & _ & _)|[(Hr & _)|(Hr & _)]]; [|done|done].
  rewrite Hlc, firstn_all in Hcp. rewrite Hlw, firstn_all in Hwk.
  destruct Htpl as (Hf1 & Hf2 & Hwf1 & Hwf2).
  assert (∀ p, p ∉ planned_files a out →
            kv_get p (w_files (create_node_configs validator a out w).2)
            = kv_get p (w_files w)) as Hother.
  { intros p Hp. rewrite Hfs. by apply kv_get_write_all_other. }
  simpl. split_and!.
  - intros i ip Hip.
    destruct (Forall2_lookup_l _ _ _ _ _ Hcp Hip) as (doc & Hdoc & Hpt).
    exists doc. split; [by rewrite patched_doc_tree|].
    rewrite Hfs. apply (kv_get_write_all _ _ _ i); [apply planned_files_NoDup| |].
    + unfold planned_files. rewrite lookup_app_l.
      * rewrite list_lookup_fmap, lookup_seq_lt; [done|]. by eapply lookup_lt_Some.
      * rewrite length_fmap, length_seq. by eapply lookup_lt_Some.
    + rewrite lookup_app_l; [done|]. by eapply lookup_lt_Some.
  - intros i ip Hip.
    destruct (Forall2_lookup_l _ _ _ _ _ Hwk Hip) as (doc & Hdoc & Hpt).
    exists doc. split; [by rewrite patched_doc_tree|].
    rewrite Hfs.
    apply (kv_get_write_all _ _ _ (length (control_planes a) + i));
      [apply planned_files_NoDup| |].
    + unfold planned_files. rewrite lookup_app_r; rewrite length_fmap, length_seq; [|lia].
      replace (length (control_planes a) + i - length (control_planes a)) with i by lia.
      rewrite list_lookup_fmap, lookup_seq_lt; [done|]. by eapply lookup_lt_Some.
    + rewrite lookup_app_r; rewrite Hlc; [|lia].
      by replace (length (control_planes a) + i - length (control_planes a)) with i by lia.
  - exact Hother.
  - split_and!; [| |done|done].
    + rewrite Hother; [done|]. intros Hin.
      by destruct (planned_files_not_template _ _ _ Hin).
    + rewrite Hother; [done|]. intros Hin.
      by destruct (planned_files_not_template _ _ _ Hin).
Qed.


(** After a run that does not raise, on an output directory holding the two
    templates: the file cp<i>.yaml holds the document patch_node returns for
    the i-th control-plane address on the control-plane template (with the
    VIP option), the file w<i>.yaml the one for the i-th worker address on
    the worker template (without VIP); every other file, the two templates
    included, is as it was. *)
Theorem create_node_configs_files validator (a : args) (out : string)
    (w : world) (cp_tpl wk_tpl : tree) :
  templates out w cp_tpl wk_tpl →
  (create_node_configs validator a out w).1 ≠ Raised →
  let files := w_files (create_node_configs validator a out w).2 in
  (∀ i ip, control_planes a !! i = Some ip →
     ∃ doc, patched_doc cp_tpl (cp_node a ip) = Some doc
            ∧ kv_get (cp_file out (S i)) files = Some doc)
  ∧ (∀ i ip, workers a !! i = Some ip →
       ∃ doc, patched_doc wk_tpl (worker_node a ip) = Some doc
              ∧ kv_get (w_file out (S i)) files = Some doc)
  ∧ (∀ p, p ∉ planned_files a out → kv_get p files = kv_get p (w_files w))
  ∧ templates out (create_node_configs validator a out w).2 cp_tpl wk_tpl.
Proof. apply create_node_configs_files_all. Qed.

Lemma create_node_configs_files_witness :
  let files := w_files (create_node_configs always_valid ex_args "out" ex_world).2 in
  (∃ doc, patched_doc ex_cp_template (cp_node ex_args "10.0.0.12") = Some doc
          ∧ kv_get "out/cp2.yaml" files = Some doc)
  ∧ (∃ doc, patched_doc ex_worker_template (worker_node ex_args "10.0.0.21") = Some doc
            ∧ kv_get "out/w1.yaml" files = Some doc)
  ∧ kv_get "out/controlplane.yaml" files = Some ex_cp_template.
Proof.
  destruct (create_node_configs_files always_valid ex_args "out" ex_world
              ex_cp_template ex_worker_template)
    as (Hcp & Hwk & _ & (Htpl & _)).
  - vm_compute. auto.
  - vm_compute. discriminate.
  - split_and!.
    + apply (Hcp 1 "10.0.0.12"). reflexivity.
    + apply (Hwk 0 "10.0.0.21"). reflexivity.
    + exact Htpl.
Defined.

(** Without one of the two templates in the output directory the run raises
    at once: no file is written or changed and nothing is validated. *)
Theorem create_node_configs_missing_template validator (a : args)
    (out : string) (w : world) :
  kv_get (path_join out "controlplane.yaml") (w_files w) = None
  ∨ kv_get (path_join out "worker.yaml") (w_files w) = None →
  let r := create_node_configs validator a out w in
  r.1 = Raised ∧ w_files r.2 = w_files w ∧ w_trace r.2 = w_trace w.
Proof.
  intros Hmiss. rewrite create_node_configs_unfold. simpl.
  destruct (yaml_load (path_join out "controlplane.yaml") w) as [o1 w1] eqn:H1.
  pose proof H1 as H1'. apply yaml_load_inv in H1' as (Hf1 & Ht1 & Ho1).
  destruct o1 as [x1| |c]; [|by erewrite P_bind_raised|done].
  erewrite P_bind_run; [|exact H1].
  destruct Ho1 as (t1 & Hget1 & _).
  destruct Hmiss as [Hmiss|Hmiss]; [congruence|].
  assert (yaml_load (path_join out "worker.yaml") w1 = (Raised, w1)) as H2.
  { unfold yaml_load. by rewrite Hf1, Hmiss. }
  erewrite P_bind_raised; [|exact H2]. done.
Qed.

Lemma create_node_configs_missing_template_witness :
  let r := create_node_configs always_valid ex_args "out" (World [] [] []) in
  r.1 = Raised ∧ w_files r.2 = [] ∧ w_trace r.2 = [].
Proof.
  apply (create_node_configs_missing_template always_valid ex_args "out"
           (World [] [] [])).
  left. reflexivity.
Defined.



(** ** validate_files *)



(** ** The comma-separated address lists *)

Lemma split_on_cons c s : ∃ p ps, split_on c s = p :: ps.
Proof.
  induction s as [|a r (p & ps & IH)]; simpl; [eauto|].
  case_decide; [eauto|]. rewrite IH. eauto.
Qed.

Lemma split_on_no_sep c s p : p ∈ split_on c s → has_char c p = false.
Proof.
  revert p. induction s as [|a r IH]; simpl; intros p.
  - by intros ->%list_elem_of_singleton.
  - case_decide as Hac.
    + intros [->|Hp]%elem_of_cons; [done|by apply IH].
    + destruct (split_on_cons c r) as (q & qs & Hq). rewrite Hq in *.
      intros [->|Hp]%elem_of_cons.
      * simpl. rewrite bool_decide_eq_false_2 by done. apply IH. set_solver.
      * apply IH. set_solver.
Qed.

Lemma split_on_app_no_sep c p s :
  has_char c p = false →
  split_on c (p +:+ String c s) = p :: split_on c s.
Proof.
  induction p as [|a p IH]; simpl.
  - intros _. by rewrite decide_True.
  - intros [Hac Hp]%orb_false_elim. apply bool_decide_eq_false in Hac.
    rewrite decide_False by done. by rewrite IH.
Qed.

Lemma split_on_whole c p : has_char c p = false → split_on c p = [p].
Proof.
  induction p as [|a p IH]; simpl; [done|].
  intros [Hac Hp]%orb_false_elim. apply bool_decide_eq_false in Hac.
  rewrite decide_False by done. by rewrite IH.
Qed.

(** Splitting what was joined gives the pieces back. *)
Lemma split_on_join c ps :
  ps ≠ [] → Forall (λ p, has_char c p = false) ps →
  split_on c (str_join (String c "") ps) = ps.
Proof.
  intros Hne Hall. induction Hall as [|p ps Hp Hall IH]; [done|].
  destruct ps as [|q ps].
  - simpl. by apply split_on_whole.
  - change (str_join (String c "") (p :: q :: ps))
      with (p +:+ String c (str_join (String c "") (q :: ps))).
    rewrite split_on_app_no_sep by done. f_equal. by apply IH.
Qed.

Lemma lstrip_first isspace s a :
  first_char (lstrip isspace s) = Some a → isspace a = false.
Proof.
  induction s as [|b r IH]; simpl; [done|].
  destruct (isspace b) eqn:Hb; [done|]. simpl. by intros [= <-].
Qed.

Lemma lstrip_has_char isspace c s :
  has_char c s = false → has_char c (lstrip isspace s) = false.
Proof.
  induction s as [|b r IH]; simpl; [done|].
  intros [Hb Hr]%orb_false_elim. destruct (isspace b); [by apply IH|].
  simpl. by rewrite Hb, Hr.
Qed.

Lemma lstrip_last isspace s a :
  (∀ b, last_char s = Some b → isspace b = false) →
  last_char (lstrip isspace s) = Some a → isspace a = false.
Proof.
  induction s as [|b r IH]; simpl; [done|].
  intros Hlast. destruct (isspace b) eqn:Hb.
  - apply IH. intros b' Hb'. apply Hlast. destruct r; [done|exact Hb'].
  - intros H. by apply Hlast.
Qed.

Lemma rstrip_last isspace s a :
  last_char (rstrip isspace s) = Some a → isspace a = false.
Proof.
  induction s as [|b r IH]; simpl; [done|].
  destruct (rstrip isspace r) as [|b' r'] eqn:Hr.
  - destruct (isspace b) eqn:Hb; [done|]. simpl. by intros [= <-].
  - intros H. apply IH. exact H.
Qed.

Lemma rstrip_has_char isspace c s :
  has_char c s = false → has_char c (rstrip isspace s) = false.
Proof.
  induction s as [|b r IH]; simpl; [done|].
  intros [Hb Hr]%orb_false_elim. specialize (IH Hr).
  destruct (rstrip isspace r) as [|b' r'].
  - destruct (isspace b); [done|]. simpl. by rewrite Hb.
  - simpl in *. by rewrite Hb, IH.
Qed.

Lemma lstrip_fixed isspace s :
  (∀ a, first_char s = Some a → isspace a = false) → lstrip isspace s = s.
Proof.
  destruct s as [|a r]; simpl; [done|]. intros H. by rewrite (H a).
Qed.

Lemma rstrip_fixed isspace s :
  (∀ a, last_char s = Some a → isspace a = false) → rstrip isspace s = s.
Proof.
  induction s as [|a r IH]; simpl; [done|]. intros H.
  destruct r as [|b r].
  - simpl. by rewrite (H a).
  - rewrite IH by done. done.
Qed.

Lemma strip_clean isspace s :
  has_char "," s = false → strip isspace s ≠ "" → clean_item isspace (strip isspace s).
Proof.
  intros Hc Hne. unfold strip in *. split_and!.
  - done.
  - by apply lstrip_has_char, rstrip_has_char.
  - intros a. apply lstrip_first.
  - intros a. apply lstrip_last. intros b. apply rstrip_last.
Qed.

Lemma strip_fixed isspace s : clean_item isspace s → strip isspace s = s.
Proof.
  intros (_ & _ & Hf & Hl). unfold strip.
  rewrite (rstrip_fixed _ _ Hl). by apply lstrip_fixed.
Qed.

(** Every item of the list is clean: leading and trailing whitespace is
    gone, empty items are dropped, and no item holds a comma. *)
Theorem csv_items_clean (isspace : ascii → bool) (x : string) :
  Forall (clean_item isspace) (csv_items isspace x).
Proof.
  unfold csv_items. apply Forall_forall. intros s.
  rewrite list_elem_of_filter, list_elem_of_fmap.
  intros [Hne (p & -> & Hp)]. apply strip_clean; [|done].
  by eapply split_on_no_sep.
Qed.

(** The list read from comma-separated pieces without commas is the
    pieces, each stripped, without the ones that strip to nothing. *)
Theorem csv_items_join (isspace : ascii → bool) (ps : list string) :
  Forall (λ p, has_char "," p = false) ps →
  csv_items isspace (str_join "," ps) = filter (λ s, s ≠ "") (strip isspace <$> ps).
Proof.
  intros Hps. unfold csv_items. destruct ps as [|p ps]; [done|].
  by rewrite split_on_join.
Qed.

Lemma csv_items_join_witness :
  csv_items (λ a, bool_decide (a = " "%char))
    (str_join "," [" 10.0.0.11"; " 10.0.0.12 "; ""; "10.0.0.13 "])
  = ["10.0.0.11"; "10.0.0.12"; "10.0.0.13"].
Proof.
  rewrite (csv_items_join (λ a, bool_decide (a = " "%char))
             [" 10.0.0.11"; " 10.0.0.12 "; ""; "10.0.0.13 "]).
  - vm_compute. reflexivity.
  - repeat constructor.
Defined.

(** Round trip: a list of clean items, joined with commas, reads back as
    itself. *)
Theorem csv_items_round_trip (isspace : ascii → bool) (l : list string) :
  Forall (clean_item isspace) l →
  csv_items isspace (str_join "," l) = l.
Proof.
  intros Hl. rewrite csv_items_join.
  - induction Hl as [|s l Hs Hl IH]; [done|].
    rewrite fmap_cons, (strip_fixed _ _ Hs), filter_cons_True by apply Hs.
    by rewrite IH.
  - eapply Forall_impl; [exact Hl|]. by intros s (_ & ? & _).
Qed.

Lemma csv_items_round_trip_witness :
  csv_items (λ a, bool_decide (a = " "%char))
    (str_join "," ["10.0.0.21"; "10.0.0.22"])
  = ["10.0.0.21"; "10.0.0.22"].
Proof.
  apply (csv_items_round_trip (λ a, bool_decide (a = " "%char))
           ["10.0.0.21"; "10.0.0.22"]).
  repeat constructor; try done; by intros a [= <-].
Defined.

(** ** The talosconfig made insecure (lines 97-106) *)

Lemma subscript_str r k h : subscript r (VScal (SStr k)) h = dict_getitem r k h.
Proof.
  destruct r as [s|l]; simpl.
  - by destruct s.
  - unfold dict_getitem, as_dict, mbind, M_bind, read.
    destruct (h !! l) as [[d|xs]|]; simpl; try done.
Qed.

Lemma updates_mark_one r k :
  updates (ctx ← dict_getitem r k; dict_setitem ctx "insecure" (vbool true)) r
          (t_getitem k (t_setitem "insecure" (tbool true))).
Proof.
  apply updates_getitem. intros ctx.
  exact (updates_setitem (mret (vbool true)) (tbool true) ctx "insecure"
           (builds_scal (SBool true))).
Qed.

Lemma mark_body_run h l0 dv lc k :
  h !! l0 = Some (ODict dv) → kv_get "contexts" dv = Some (VRef lc) →
  mark_body (VRef l0) (VScal (SStr k)) h
  = (ctx ← dict_getitem (VRef lc) k; dict_setitem ctx "insecure" (vbool true)) h.
Proof.
  intros Hl0 Hc. unfold mark_body.
  rewrite (bind_run _ _ _ _ _ (dict_getitem_run _ _ _ _ _ Hl0 Hc)).
  unfold mbind, M_bind. by rewrite subscript_str.
Qed.

Lemma kv_keys_length {A B} (d : list (string * A)) (d' : list (string * B)) :
  kv_keys d = kv_keys d' → length d = length d'.
Proof.
  unfold kv_keys. intros H. apply (f_equal length) in H.
  by rewrite !length_fmap in H.
Qed.

Lemma kv_keys_lookup {A} (d : list (string * A)) i k :
  kv_keys d !! i = Some k → ∃ v, d !! i = Some (k, v).
Proof.
  unfold kv_keys. rewrite list_lookup_fmap.
  destruct (d !! i) as [[k' v]|]; simpl; [|done]. intros [= ->]. eauto.
Qed.

Lemma t_getitem_keys k f d t' :
  t_getitem k f (TDict d) = Some t' → ∃ d', t' = TDict d' ∧ kv_keys d' = kv_keys d.
Proof.
  unfold t_getitem. simpl. destruct (kv_get k d) as [sub|] eqn:Hk; [|done]. simpl.
  destruct (f sub) as [sub'|]; [|done]. simpl. intros [= <-].
  eexists. split; [done|]. apply kv_keys_set_present.
  apply dec_stable. intros Hn. apply kv_get_None in Hn. congruence.
Qed.

(** The loop over the contexts, from a key on. *)
Lemma mark_loop l0 dv lc todo :
  ∀ done_ h cs F,
    h !! l0 = Some (ODict dv) → kv_get "contexts" dv = Some (VRef lc) →
    l0 ∉ F → repr h (VRef lc) (TDict cs) F → kv_keys cs = done_ ++ todo →
    match mark_keys todo (TDict cs) with
    | Some t' =>
        ∃ h' F',
          for_dict (length todo) lc (length cs) (length done_)
            (mark_body (VRef l0)) h = Some ((), h')
          ∧ repr h' (VRef lc) t' F'
          ∧ agree_off F h h'
          ∧ ∀ l, l ∈ F' → l ∈ F ∨ length h ≤ l
    | None =>
        for_dict (length todo) lc (length cs) (length done_)
          (mark_body (VRef l0)) h = None
    end.
Proof.
  induction todo as [|k todo IH]; intros done_ h cs F Hl0 Hc Hl0F Hr Hkeys.
  - simpl. exists h, F.
    pose proof Hr as Hr0.
    apply repr_dict_inv in Hr as (l & cv & F0 & [= <-] & Hlc & Hcv & _ & _).
    pose proof (repr_kvs_keys _ _ _ _ Hcv) as [Hk _].
    split_and!; [|done|apply agree_off_refl|auto].
    rewrite (bind_run _ _ _ _ _ (as_dict_run _ _ _ Hlc)).
    rewrite decide_True by by apply kv_keys_length.
    rewrite app_nil_r in Hkeys.
    rewrite lookup_ge_None_2; [done|].
    rewrite (kv_keys_length cv cs Hk). apply (f_equal length) in Hkeys.
    unfold kv_keys in Hkeys. rewrite length_fmap in Hkeys. lia.
  - pose proof Hr as Hr0.
    apply repr_dict_inv in Hr as (l & cv & F0 & [= <-] & Hlc & Hcv & _ & _).
    pose proof (repr_kvs_keys _ _ _ _ Hcv) as [Hk _].
    assert (∃ v, cv !! length done_ = Some (k, v)) as [v Hv].
    { apply kv_keys_lookup. rewrite Hk, Hkeys.
      by rewrite lookup_app_r, Nat.sub_diag by lia. }
    simpl for_dict.
    rewrite (bind_run _ _ _ _ _ (as_dict_run _ _ _ Hlc)).
    rewrite decide_True by by apply kv_keys_length.
    rewrite Hv.
    pose proof (updates_mark_one (VRef lc) k h (TDict cs) F Hr0) as Hone.
    simpl mark_keys.
    destruct (t_getitem k (t_setitem "insecure" (tbool true)) (TDict cs))
      as [t1|] eqn:Ht1; simpl.
    + destruct Hone as (h1 & F1 & Hrun1 & Hr1 & Hag1 & Hb1).
      destruct (t_getitem_keys _ _ _ _ Ht1) as (cs1 & -> & Hk1).
      assert (l0 < length h) as Hl0h by by eapply lookup_lt_Some.
      assert (h1 !! l0 = Some (ODict dv)) as Hl01.
      { destruct Hag1 as [_ Hag1]. by rewrite Hag1. }
      assert (l0 ∉ F1) as Hl0F1.
      { intros [Hin|Hin]%Hb1; [done|lia]. }
      assert (kv_keys cs1 = (done_ ++ [k]) ++ todo) as Hkeys1.
      { by rewrite Hk1, Hkeys, <- app_assoc. }
      pose proof (IH (done_ ++ [k]) h1 cs1 F1 Hl01 Hc Hl0F1 Hr1 Hkeys1) as Hrest.
      rewrite length_app in Hrest. simpl in Hrest.
      rewrite Nat.add_1_r in Hrest.
      rewrite (kv_keys_length cs1 cs Hk1) in Hrest.
      assert (mark_body (VRef l0) (VScal (SStr k)) h = Some ((), h1)) as Hstep.
      { by rewrite (mark_body_run _ _ _ _ _ Hl0 Hc). }
      rewrite (bind_run _ _ _ _ _ Hstep).
      destruct (mark_keys todo (TDict cs1)) as [t'|]; [|done].
      destruct Hrest as (h' & F' & Hrun' & Hr' & Hag' & Hb').
      exists h', F'. split_and!; [done|done| |].
      * by eapply agree_off_then.
      * intros l' [Hin|Hin]%Hb'; [by apply Hb1|].
        right. destruct Hag1 as [Hlen _]. lia.
    + apply bind_fail. by rewrite (mark_body_run _ _ _ _ _ Hl0 Hc).
Qed.

(** A dict whose value under [k] has been updated in place. *)
Lemma child_step h l d1 td1 k r sub Fr Frest h' sub' Fr' :
  h !! l = Some (ODict d1) → kv_get k d1 = Some r → kv_get k td1 = Some sub →
  repr h r sub Fr → repr_kvs h (kv_del k d1) (kv_del k td1) Frest →
  Fr ## Frest → l ∉ Fr ∪ Frest →
  kv_keys d1 = kv_keys td1 → NoDup (kv_keys d1) →
  repr h' r sub' Fr' → agree_off Fr h h' →
  (∀ l', l' ∈ Fr' → l' ∈ Fr ∨ length h ≤ l') →
  repr h' (VRef l) (TDict (kv_set k sub' td1)) ({[l]} ∪ (Fr' ∪ Frest)).
Proof.
  intros Hl Hk Hk' Hr Hrest Hdisj Hln Hkeys Hnd Hr' Hag Hb.
  assert (∀ l', l' ∈ Frest → l' < length h) as Hbr
    by (intros l' ?; by eapply repr_kvs_bound).
  assert (l < length h) as Hlh by by eapply lookup_lt_Some.
  eapply repr_dict; [| | |done].
  - destruct Hag as [_ Hag]. rewrite Hag; [done..|set_solver].
  - rewrite <- (kv_set_same k r d1) by done.
    apply repr_kvs_join; [done..| |].
    + by eapply repr_kvs_agree; [|done|].
    + intros l' [Hl1|Hl1]%Hb Hl2; [set_solver|]. apply Hbr in Hl2. lia.
  - intros [[Hin|Hin]%Hb|Hin]%elem_of_union; [set_solver|lia|set_solver].
Qed.

Lemma for_in_empty_dict h body :
  for_in (VRef (length h)) body (h ++ [ODict []]) = Some ((), h ++ [ODict []]).
Proof.
  unfold for_in, mbind, M_bind, read.
  rewrite lookup_app_r, Nat.sub_diag by lia. simpl.
  unfold mbind, M_bind, read. by rewrite lookup_app_r, Nat.sub_diag by lia.
Qed.

(** [mark_insecure] on a value that stands for a document without contexts,
    or with a mapping of contexts: the value then stands for
    [mark_insecure_tree] of the document, and the call raises when that is
    [None]. *)
Lemma mark_insecure_refines h config t F :
  repr h config t F → contexts_mapping t = true →
  match mark_insecure_tree t with
  | Some t' => ∃ h' F', mark_insecure config h = Some ((), h')
                        ∧ repr h' config t' F'
  | None => mark_insecure config h = None
  end.
Proof.
  intros Hr Hcm. destruct t as [s|d|ts]; [done| |done].
  pose proof Hr as Hr0.
  apply repr_dict_inv in Hr as (l0 & dv & F0 & -> & Hl0 & Hd & Hl0F & ->).
  pose proof (repr_kvs_keys _ _ _ _ Hd) as [Hkeys Hnd].
  unfold mark_insecure, mark_insecure_tree. simpl as_tdict. cbn [mbind option_bind].
  set (h1 := h ++ [ODict []]).
  assert (new_dict [] h = Some (VRef (length h), h1)) as Hnew by done.
  rewrite (bind_run _ _ _ _ _ Hnew).
  assert (h1 !! l0 = Some (ODict dv)) as Hl01.
  { unfold h1. rewrite lookup_app_l; [done|]. by eapply lookup_lt_Some. }
  rewrite (bind_run _ _ _ _ _ (dict_get_run _ _ _ "contexts" (VRef (length h)) Hl01)).
  assert (agree_off ∅ h h1) as Hag1 by apply agree_off_alloc.
  simpl in Hcm.
  destruct (kv_get "contexts" d) as [c|] eqn:Hc.
  - destruct c as [?|cs|?]; [done| |done].
    assert (∃ vc, kv_get "contexts" dv = Some vc) as [vc Hvc].
    { destruct (kv_get "contexts" dv) eqn:E; [eauto|].
      rewrite (repr_kvs_get_None _ _ _ _ _ Hd E) in Hc. done. }
    rewrite Hvc. simpl default.
    destruct (repr_kvs_split _ _ _ _ _ _ Hd Hvc)
      as (sub & Fc & Frest & Hsub & Hrc & Hrest & Hdisj & ->).
    rewrite Hc in Hsub. injection Hsub as <-.
    pose proof Hrc as Hrc0.
    apply repr_dict_inv in Hrc as (lc & cv & Fc0 & -> & Hlc & Hcv & _ & HFc).
    pose proof (repr_kvs_keys _ _ _ _ Hcv) as [Hkc _].
    assert (repr h1 (VRef lc) (TDict cs) Fc) as Hrc1.
    { eapply repr_agree; [exact Hrc0|exact Hag1|set_solver]. }
    assert (h1 !! lc = Some (ODict cv)) as Hlc1.
    { unfold h1. rewrite lookup_app_l; [done|]. by eapply lookup_lt_Some. }
    assert (l0 ∉ Fc) as Hl0Fc by set_solver.
    pose proof (mark_loop l0 dv lc (kv_keys cs) [] h1 cs Fc Hl01 Hvc Hl0Fc Hrc1 eq_refl)
      as Hloop.
    assert (length (kv_keys cs) = length cv) as Hlen.
    { unfold kv_keys. rewrite length_fmap. symmetry. by apply kv_keys_length. }
    assert (for_in (VRef lc) (mark_body (VRef l0)) h1
            = for_dict (length (kv_keys cs)) lc (length cs) 0
                (mark_body (VRef l0)) h1) as Hfor.
    { unfold for_in, mbind, M_bind, read. rewrite Hlc1. simpl.
      by rewrite Hlen, (kv_keys_length cv cs Hkc). }
    rewrite Hfor. simpl length in Hloop.
    unfold t_getitem. simpl as_tdict. cbn [mbind option_bind]. rewrite Hc.
    cbn [mbind option_bind].
    destruct (mark_keys (kv_keys cs) (TDict cs)) as [sub'|]; [|done].
    destruct Hloop as (h' & F' & Hrun & Hr' & Hag' & Hb'). simpl.
    exists h', ({[l0]} ∪ (F' ∪ Frest)). split; [done|].
    eapply (child_step h1 l0 dv d "contexts" (VRef lc) (TDict cs) Fc Frest);
      [done|done|done|done| |done|set_solver|done|done|done|done|done].
    eapply repr_kvs_agree; [exact Hrest|exact Hag1|set_solver].
  - assert (kv_get "contexts" dv = None) as Hvc.
    { apply kv_get_None. rewrite Hkeys. by apply kv_get_None. }
    rewrite Hvc. simpl default. unfold h1. rewrite for_in_empty_dict.
    eexists _, _. split; [done|].
    eapply repr_agree; [exact Hr0|exact Hag1|set_solver].
Qed.

(** *** The document after the loop *)

Lemma kv_get_app_absent {A} k (pre suf : list (string * A)) :
  k ∉ kv_keys pre → kv_get k (pre ++ suf) = kv_get k suf.
Proof.
  unfold kv_keys. induction pre as [|[k' v'] pre IH]; simpl; [done|].
  rewrite not_elem_of_cons. intros [Hne Hpre]. rewrite decide_False by done.
  by apply IH.
Qed.

Lemma kv_set_app_absent {A} k (v : A) (pre suf : list (string * A)) :
  k ∉ kv_keys pre → kv_set k v (pre ++ suf) = pre ++ kv_set k v suf.
Proof.
  unfold kv_keys. induction pre as [|[k' v'] pre IH]; simpl; [done|].
  rewrite not_elem_of_cons. intros [Hne Hpre]. rewrite decide_False by done.
  by rewrite IH.
Qed.

Lemma mark_keys_all pre suf :
  NoDup (kv_keys (pre ++ suf)) →
  mark_keys (kv_keys suf) (TDict (pre ++ suf))
  = (λ suf', TDict (pre ++ suf')) <$> mark_all suf.
Proof.
  revert pre. induction suf as [|[k c] suf IH]; intros pre Hnd.
  - simpl. by rewrite app_nil_r.
  - assert (k ∉ kv_keys pre) as Hk.
    { unfold kv_keys in *. rewrite fmap_app in Hnd. apply NoDup_app in Hnd as (_ & Hd & _).
      intros Hin. apply (Hd _ Hin). simpl. set_solver. }
    simpl mark_keys. unfold t_getitem at 1. simpl as_tdict. cbn [mbind option_bind].
    rewrite kv_get_app_absent by done. simpl kv_get. rewrite decide_True by done.
    cbn [mbind option_bind]. unfold t_setitem at 1, mark_all.
    simpl mapM. fold (mark_all suf).
    destruct c as [?|c|?]; simpl; [done| |done].
    rewrite kv_set_app_absent by done. simpl kv_set. rewrite decide_True by done.
    replace (pre ++ (k, TDict (kv_set "insecure" (tbool true) c)) :: suf)
      with ((pre ++ [(k, TDict (kv_set "insecure" (tbool true) c))]) ++ suf)
      by by rewrite <- app_assoc.
    rewrite IH.
    + destruct (mark_all suf) as [suf'|]; simpl; [|done].
      by rewrite <- app_assoc.
    + unfold kv_keys in *. rewrite <- app_assoc. simpl.
      by rewrite !fmap_app in *.
Qed.

Lemma mark_all_get cs cs' k :
  mark_all cs = Some cs' →
  kv_get k cs' = c ← kv_get k cs; c' ← as_tdict c;
                 Some (TDict (kv_set "insecure" (tbool true) c')).
Proof.
  revert cs'. unfold mark_all. induction cs as [|[k0 c0] cs IH]; intros cs'.
  - simpl. by intros [= <-].
  - simpl mapM.
    destruct (as_tdict c0) as [c0'|] eqn:E0; simpl; [|done].
    destruct (mapM _ cs) as [cs1|]; simpl; [|done]. intros [= <-]. simpl.
    case_decide; simpl; [by rewrite E0|]. by apply IH.
Qed.

Lemma mark_all_None cs :
  mark_all cs = None ↔ forallb (λ kc, is_tdict kc.2) cs = false.
Proof.
  unfold mark_all. induction cs as [|[k c] cs IH]; [done|].
  simpl mapM. simpl forallb.
  destruct c as [?|c|?]; simpl; [done| |done].
  destruct (mapM _ cs) as [cs'|]; simpl.
  - split; [done|]. intros H. apply IH in H. done.
  - split; [|done]. intros _. by apply IH.
Qed.

Lemma mark_insecure_tree_closed d :
  NoDup (kv_keys d) → wf_tree (TDict d) = true →
  contexts_mapping (TDict d) = true →
  mark_insecure_tree (TDict d)
  = match kv_get "contexts" d with
    | Some (TDict cs) =>
        (λ cs', TDict (kv_set "contexts" (TDict cs') d)) <$> mark_all cs
    | _ => Some (TDict d)
    end.
Proof.
  intros Hnd Hwf Hcm. unfold mark_insecure_tree. simpl.
  destruct (kv_get "contexts" d) as [[?|cs|?]|] eqn:Hc; try done.
  unfold t_getitem. simpl. rewrite Hc. simpl.
  assert (NoDup (kv_keys cs)) as Hndc.
  { apply kv_get_elem in Hc. simpl in Hwf.
    apply andb_prop in Hwf as [_ Hall].
    rewrite forallb_forall in Hall.
    apply list_elem_of_fmap in Hc as ([k0 c0] & Hc0 & Hin). simpl in Hc0. subst c0.
    apply list_elem_of_In in Hin. specialize (Hall _ Hin). simpl in Hall.
    apply andb_prop in Hall as [Hndc _]. by apply bool_decide_eq_true in Hndc. }
  pose proof (mark_keys_all [] cs Hndc) as Hall. simpl in Hall. rewrite Hall.
  by destruct (mark_all cs).
Qed.

(** ** gen_base_configs *)

Lemma mark_all_get_Some cs cs' k c :
  mark_all cs = Some cs' → kv_get k cs = Some c →
  ∃ c', c = TDict c'
        ∧ kv_get k cs' = Some (TDict (kv_set "insecure" (tbool true) c')).
Proof.
  intros Hall Hk. rewrite (mark_all_get _ _ k Hall), Hk. simpl.
  assert (forallb (λ kc, is_tdict kc.2) cs = true) as Hok.
  { destruct (forallb _ cs) eqn:E; [done|]. apply mark_all_None in E. congruence. }
  apply kv_get_elem, list_elem_of_fmap in Hk as ([k0 c0] & -> & Hin).
  rewrite forallb_forall in Hok. apply list_elem_of_In in Hin.
  specialize (Hok _ Hin). simpl in *. destruct c0 as [?|c'|?]; try done. eauto.
Qed.

Lemma mark_insecure_tree_props T T' :
  wf_tree T = true → contexts_mapping T = true →
  mark_insecure_tree T = Some T' →
  (∀ k c, tree_at T [Key "contexts"; Key k] = Some c →
          tree_at T' [Key "contexts"; Key k; Key "insecure"] = Some (tbool true))
  ∧ (∀ p, ¬ insecure_path p → ¬ context_path p → tree_at T' p = tree_at T p).
Proof.
  intros Hwf Hcm. destruct T as [?|d|?]; [done| |done].
  assert (NoDup (kv_keys d)) as Hnd.
  { simpl in Hwf. apply andb_prop in Hwf as [Hnd _]. by apply bool_decide_eq_true in Hnd. }
  rewrite (mark_insecure_tree_closed d Hnd Hwf Hcm).
  destruct (kv_get "contexts" d) as [[?|cs|?]|] eqn:Hc.
  - intros [= <-]. split; [|done]. intros k c. simpl. by rewrite Hc.
  - destruct (mark_all cs) as [cs'|] eqn:Hall; simpl; [|done]. intros [= <-]. split.
    + intros k c. simpl. rewrite Hc, kv_get_set_eq. simpl.
      destruct (kv_get k cs) as [c0|] eqn:Hk; simpl; [|done]. intros [= ->].
      destruct (mark_all_get_Some _ _ _ _ Hall Hk) as (c' & -> & ->). simpl.
      by rewrite kv_get_set_eq.
    + intros p Hins Hctx.
      destruct p as [|[k0|i] p]; [by destruct Hctx; left| |done]. simpl.
      destruct (decide (k0 = "contexts")) as [->|Hne];
        [|by rewrite kv_get_set_ne].
      rewrite kv_get_set_eq, Hc. simpl.
      destruct p as [|[k|i] p]; [by destruct Hctx; right; left| |done]. simpl.
      destruct (kv_get k cs) as [c0|] eqn:Hk.
      * destruct (mark_all_get_Some _ _ _ _ Hall Hk) as (c' & -> & ->). simpl.
        destruct p as [|[k2|i] p]; [destruct Hctx; right; right; eauto| |done].
        simpl. rewrite kv_get_set_ne; [done|]. intros <-.
        destruct Hins. by exists k, p.
      * rewrite (mark_all_get _ _ k Hall), Hk. done.
  - intros [= <-]. split; [|done]. intros k c. simpl. by rewrite Hc.
  - intros [= <-]. split; [|done]. intros k c. simpl. by rewrite Hc.
Qed.

Lemma mark_insecure_tree_None T :
  wf_tree T = true → contexts_mapping T = true →
  mark_insecure_tree T = None ↔ contexts_ok T = false.
Proof.
  intros Hwf Hcm. destruct T as [?|d|?]; [done| |done].
  assert (NoDup (kv_keys d)) as Hnd.
  { simpl in Hwf. apply andb_prop in Hwf as [Hnd _]. by apply bool_decide_eq_true in Hnd. }
  rewrite (mark_insecure_tree_closed d Hnd Hwf Hcm). simpl.
  destruct (kv_get "contexts" d) as [[?|cs|?]|] eqn:Hc; try done.
  rewrite <- mark_all_None. by destruct (mark_all cs).
Qed.

Lemma yaml_dump_run data p w t F :
  repr (w_heap w) data t F →
  yaml_dump data p w
  = (Ret (), World (w_heap w) (kv_set p t (w_files w)) (w_trace w ++ [EvDump p t])).
Proof.
  intros Hr. unfold yaml_dump.
  erewrite P_bind_run; [|unfold lift; by rewrite (dump_repr _ _ _ _ Hr)].
  done.
Qed.

(** The run up to the talosconfig, after a successful [talosctl]. *)
Lemma gen_base_configs_run talosctl a out bootstrap_phase w cmd files T :
  gen_config_cmd a out bootstrap_phase = Some cmd →
  talosctl cmd (w_files w) = (0%Z, files) →
  kv_get (path_join out "talosconfig") files = Some T →
  wf_tree T = true → contexts_mapping T = true →
  let r := gen_base_configs talosctl a out bootstrap_phase w in
  match mark_insecure_tree T with
  | Some T' =>
      r.1 = Ret ()
      ∧ w_files r.2
        = kv_set (path_join out "talosconfig.insecure") T'
            (kv_set (path_join out "talosconfig") T' files)
      ∧ w_trace r.2
        = w_trace w ++ [EvDump (path_join out "talosconfig") T';
                        EvDump (path_join out "talosconfig.insecure") T']
  | None => r.1 = Raised ∧ w_files r.2 = files ∧ w_trace r.2 = w_trace w
  end.
Proof.
  intros Hcmd Hrun Hfile Hwf Hcm. simpl. unfold gen_base_configs.
  rewrite Hcmd.
  erewrite P_bind_run; [|reflexivity].
  set (w1 := World (w_heap w) files (w_trace w)).
  assert (sh_gen talosctl cmd w = (Ret (), w1)) as Hsh.
  { unfold sh_gen. rewrite Hrun. done. }
  erewrite P_bind_run; [|exact Hsh].
  assert (file_exists (path_join out "talosconfig") w1 = (Ret true, w1)) as Hex.
  { unfold file_exists. simpl. rewrite Hfile. by rewrite bool_decide_eq_true_2. }
  erewrite P_bind_run; [|exact Hex].
  destruct (yaml_load_run (path_join out "talosconfig") w1 T Hfile Hwf)
    as (config & h1 & F & Hload & Hr & _).
  erewrite P_bind_run; [|exact Hload].
  pose proof (mark_insecure_refines h1 config T F Hr Hcm) as Hmark.
  destruct (mark_insecure_tree T) as [T'|].
  - destruct Hmark as (h2 & F' & Hm & Hr').
    erewrite P_bind_run; [|unfold lift; simpl; by rewrite Hm].
    set (w2 := World h2 files (w_trace w)).
    erewrite P_bind_run; [|exact (yaml_dump_run config _ w2 T' F' Hr')].
    erewrite yaml_dump_run; [|exact Hr'].
    simpl. split_and!; [done|done|]. by rewrite <- app_assoc.
  - erewrite P_bind_raised; [|unfold lift; simpl; by rewrite Hmark]. done.
Qed.

(** After a successful [talosctl gen config] that leaves a talosconfig whose
    contexts are mappings, gen_base_configs ends normally, having written
    the same document to talosconfig and to talosconfig.insecure and nothing
    else: the talosconfig with insecure: true in every context, and equal to
    it everywhere else (at every path that does not lead to or into an
    insecure flag). *)
Theorem gen_base_configs_insecure talosctl (a : args) (out : string)
    (bootstrap_phase : bool) (w : world) (cmd : list string)
    (files : list (string * tree)) (T : tree) :
  gen_config_cmd a out bootstrap_phase = Some cmd →
  talosctl cmd (w_files w) = (0%Z, files) →
  kv_get (path_join out "talosconfig") files = Some T →
  wf_tree T = true → contexts_mapping T = true → contexts_ok T = true →
  let r := gen_base_configs talosctl a out bootstrap_phase w in
  ∃ T',
    r.1 = Ret ()
    ∧ w_files r.2
      = kv_set (path_join out "talosconfig.insecure") T'
          (kv_set (path_join out "talosconfig") T' files)
    ∧ w_trace r.2
      = w_trace w ++ [EvDump (path_join out "talosconfig") T';
                      EvDump (path_join out "talosconfig.insecure") T']
    ∧ (∀ k c, tree_at T [Key "contexts"; Key k] = Some c →
              tree_at T' [Key "contexts"; Key k; Key "insecure"]
              = Some (tbool true))
    ∧ (∀ p, ¬ insecure_path p → ¬ context_path p →
            tree_at T' p = tree_at T p).
Proof.
  intros Hcmd Hrun Hfile Hwf Hcm Hok.
  pose proof (gen_base_configs_run talosctl a out bootstrap_phase w cmd files T
                Hcmd Hrun Hfile Hwf Hcm) as H.
  simpl in H. simpl.
  destruct (mark_insecure_tree T) as [T'|] eqn:HT.
  - destruct H as (Ho & Hfs & Htr).
    destruct (mark_insecure_tree_props T T' Hwf Hcm HT) as [Hset Hframe].
    exists T'. split_and!; done.
  - apply (mark_insecure_tree_None T Hwf Hcm) in HT. congruence.
Qed.

Lemma gen_base_configs_insecure_witness :
  let r := gen_base_configs ex_talosctl ex_args "out" true (World [] [] []) in
  ∃ T',
    r.1 = Ret ()
    ∧ kv_get "out/talosconfig" (w_files r.2) = Some T'
    ∧ kv_get "out/talosconfig.insecure" (w_files r.2) = Some T'
    ∧ tree_at T' [Key "contexts"; Key "my-k8s-cluster"; Key "insecure"]
      = Some (tbool true)
    ∧ tree_at T' [Key "contexts"; Key "my-k8s-cluster"; Key "ca"]
      = Some (TScal (SStr "LS0t")).
Proof.
  destruct (gen_base_configs_insecure ex_talosctl ex_args "out" true
              (World [] [] [])
              (default [] (gen_config_cmd ex_args "out" true))
              (ex_talosctl [] []).2 ex_talosconfig)
    as (T' & Ho & Hfs & _ & Hset & Hframe); try reflexivity.
  cbv zeta. exists T'. split_and!.
  - exact Ho.
  - rewrite Hfs. rewrite kv_get_set_ne by done. apply kv_get_set_eq.
  - rewrite Hfs. apply kv_get_set_eq.
  - eapply Hset. reflexivity.
  - rewrite Hframe; [reflexivity| |].
    + intros (k & rest & [=]).
    + intros [[=]|[[=]|(k & [=])]].
Defined.

(** When a context of the talosconfig is not a mapping, gen_base_configs
    raises, and has written nothing: the files are as [talosctl] left
    them. *)
Theorem gen_base_configs_bad_context talosctl (a : args) (out : string)
    (bootstrap_phase : bool) (w : world) (cmd : list string)
    (files : list (string * tree)) (T : tree) :
  gen_config_cmd a out bootstrap_phase = Some cmd →
  talosctl cmd (w_files w) = (0%Z, files) →
  kv_get (path_join out "talosconfig") files = Some T →
  wf_tree T = true → contexts_mapping T = true → contexts_ok T = false →
  let r := gen_base_configs talosctl a out bootstrap_phase w in
  r.1 = Raised ∧ w_files r.2 = files ∧ w_trace r.2 = w_trace w.
Proof.
  intros Hcmd Hrun Hfile Hwf Hcm Hok.
  pose proof (gen_base_configs_run talosctl a out bootstrap_phase w cmd files T
                Hcmd Hrun Hfile Hwf Hcm) as H.
  simpl in H. apply (mark_insecure_tree_None T Hwf Hcm) in Hok.
  by rewrite Hok in H.
Qed.

Lemma gen_base_configs_bad_context_witness :
  let r := gen_base_configs ex_bad_talosctl ex_args "out" true (World [] [] []) in
  r.1 = Raised
  ∧ w_files r.2 = [("out/talosconfig", ex_bad_talosconfig)]
  ∧ w_trace r.2 = [].
Proof.
  apply (gen_base_configs_bad_context ex_bad_talosctl ex_args "out" true
           (World [] [] [])
           (default [] (gen_config_cmd ex_args "out" true))
           (ex_bad_talosctl [] []).2 ex_bad_talosconfig); reflexivity.
Defined.

(** gen_base_configs without a talosconfig to rewrite. The command line
    cannot be built exactly in the Bootstrap phase with a VIP and no
    control-plane address ([a.control_planes[0]] raises): then [talosctl] is
    not run and nothing changes. When [talosctl] returns a non-zero code the
    run exits with that code, and when it leaves no talosconfig the run ends
    normally; in both cases the files are as [talosctl] left them and the
    script has written nothing. *)
Theorem gen_base_configs_no_write talosctl (a : args) (out : string)
    (bootstrap_phase : bool) (w : world) :
  let r := gen_base_configs talosctl a out bootstrap_phase w in
  (gen_config_cmd a out bootstrap_phase = None
   ↔ bootstrap_phase = true ∧ truthy_str (vip a) = true ∧ control_planes a = [])
  ∧ (gen_config_cmd a out bootstrap_phase = None → r = (Raised, w))
  ∧ (∀ cmd, gen_config_cmd a out bootstrap_phase = Some cmd →
       (talosctl cmd (w_files w)).1 ≠ 0%Z →
       r = (Exited (talosctl cmd (w_files w)).1,
            World (w_heap w) (talosctl cmd (w_files w)).2 (w_trace w)))
  ∧ (∀ cmd, gen_config_cmd a out bootstrap_phase = Some cmd →
       (talosctl cmd (w_files w)).1 = 0%Z →
       kv_get (path_join out "talosconfig") (talosctl cmd (w_files w)).2 = None →
       r = (Ret (), World (w_heap w) (talosctl cmd (w_files w)).2 (w_trace w))).
Proof.
  simpl. split_and!.
  - unfold gen_config_cmd, endpoint_url.
    destruct bootstrap_phase, (truthy_str (vip a)), (control_planes a);
      simpl; split; try done; by intros (? & ? & ?).
  - intros Hcmd. unfold gen_base_configs. by rewrite Hcmd.
  - intros cmd Hcmd Hcode. unfold gen_base_configs. rewrite Hcmd.
    erewrite P_bind_run; [|reflexivity].
    unfold mbind, P_bind, sh_gen. simpl. by rewrite decide_False.
  - intros cmd Hcmd Hcode Hfile. unfold gen_base_configs. rewrite Hcmd.
    erewrite P_bind_run; [|reflexivity].
    erewrite P_bind_run; [|unfold sh_gen; simpl; by rewrite decide_True].
    erewrite P_bind_run;
      [|unfold file_exists; simpl; rewrite Hfile; reflexivity].
    rewrite bool_decide_eq_false_2; [done|]. by intros [? ?].
Qed.

(** ** main *)

Lemma talosconfig_not_template out :
  path_join out "controlplane.yaml" ≠ path_join out "talosconfig"
  ∧ path_join out "controlplane.yaml" ≠ path_join out "talosconfig.insecure"
  ∧ path_join out "worker.yaml" ≠ path_join out "talosconfig"
  ∧ path_join out "worker.yaml" ≠ path_join out "talosconfig.insecure".
Proof. split_and!; by intros H%path_join_inj. Qed.

(** gen_base_configs with a [talosctl] that succeeds and leaves no
    talosconfig, or one that can be made insecure: the run goes on, and the
    other files are as [talosctl] left them. *)
Lemma gen_base_configs_ok talosctl a out bootstrap_phase w cmd files1 :
  gen_config_cmd a out bootstrap_phase = Some cmd →
  talosctl cmd (w_files w) = (0%Z, files1) →
  talosconfig_ok out files1 →
  ∃ w1,
    gen_base_configs talosctl a out bootstrap_phase w = (Ret (), w1)
    ∧ ∀ p, p ≠ path_join out "talosconfig" →
           p ≠ path_join out "talosconfig.insecure" →
           kv_get p (w_files w1) = kv_get p files1.
Proof.
  intros Hcmd Hrun Hok. unfold talosconfig_ok in Hok.
  destruct (kv_get (path_join out "talosconfig") files1) as [T|] eqn:Hfile.
  - destruct Hok as (Hwf & Hcm & Hcok).
    pose proof (gen_base_configs_run talosctl a out bootstrap_phase w cmd files1 T
                  Hcmd Hrun Hfile Hwf Hcm) as H.
    simpl in H.
    destruct (mark_insecure_tree T) as [T'|] eqn:HT.
    + destruct (gen_base_configs talosctl a out bootstrap_phase w) as [o1 w1].
      simpl in H. destruct H as (-> & Hfs & _). exists w1. split; [done|].
      intros p Hp1 Hp2. rewrite Hfs. by rewrite !kv_get_set_ne.
    + apply (mark_insecure_tree_None T Hwf Hcm) in HT. congruence.
  - exists (World (w_heap w) files1 (w_trace w)). split; [|done].
    unfold gen_base_configs. rewrite Hcmd.
    erewrite P_bind_run; [|reflexivity].
    erewrite P_bind_run; [|unfold sh_gen; rewrite Hrun; reflexivity].
    erewrite P_bind_run;
      [|unfold file_exists; simpl; rewrite Hfile; reflexivity].
    rewrite bool_decide_eq_false_2; [done|]. by intros [? ?].
Qed.

Lemma missing_args_nil c :
  missing_args c = []
  ↔ is_Some (c_endpoint c) ∧ is_Some (c_control_planes c)
    ∧ is_Some (c_workers c) ∧ is_Some (c_gateway c).
Proof.
  unfold missing_args.
  destruct (c_endpoint c), (c_control_planes c), (c_workers c), (c_gateway c);
    simpl; split; try done; intros (H1 & H2 & H3 & H4);
    try (by destruct H1); try (by destruct H2); try (by destruct H3);
    by destruct H4.
Qed.

(** main stops before touching anything when an argument is missing or the
    output directory is in the way: with one of --endpoint,
    --control-planes, --workers, --gateway not given it exits with status 2,
    and with all of them given, an existing output directory and no --force
    it exits with status 1; in both cases no file is removed or written and
    [talosctl] is not run. *)
Theorem main_early_exit (o : outer) (c : cli) (w : world) :
  (missing_args c = []
   ↔ is_Some (c_endpoint c) ∧ is_Some (c_control_planes c)
     ∧ is_Some (c_workers c) ∧ is_Some (c_gateway c))
  ∧ (missing_args c ≠ [] → main_run o c w = (Exited 2%Z, w))
  ∧ (missing_args c = [] →
     o_exists o (o_resolve o (c_out c)) = true → c_force c = false →
     main_run o c w = (Exited 1%Z, w)).
Proof.
  split_and!.
  - apply missing_args_nil.
  - intros Hm. unfold main_run.
    destruct (c_endpoint c) eqn:E1; [|done].
    destruct (c_control_planes c) eqn:E2; [|done].
    destruct (c_workers c) eqn:E3; [|done].
    destruct (c_gateway c) eqn:E4; [|done].
    destruct Hm. apply missing_args_nil. rewrite E1, E2, E3, E4. eauto.
  - intros Hm Hex Hforce. apply missing_args_nil in Hm as ([e E1] & [cps E2] & [wks E3] & [gw E4]).
    unfold main_run. rewrite E1, E2, E3, E4.
    unfold mbind at 1, P_bind, prepare_out. by rewrite Hex, Hforce.
Qed.

Lemma main_early_exit_witness :
  let o := {| o_isspace := o_isspace ex_outer; o_resolve := o_resolve ex_outer;
              o_exists := λ _, true; o_rmtree := o_rmtree ex_outer;
              o_talosctl := ex_talosctl; o_validator := always_valid |} in
  main_run o ex_cli ex_world = (Exited 1%Z, ex_world).
Proof.
  cbv zeta.
  apply (main_early_exit
           {| o_isspace := o_isspace ex_outer; o_resolve := o_resolve ex_outer;
              o_exists := λ _, true; o_rmtree := o_rmtree ex_outer;
              o_talosctl := ex_talosctl; o_validator := always_valid |}
           ex_cli ex_world); reflexivity.
Defined.

(** main from end to end. With the four required arguments given, the
    output directory absent or --force given, a [talosctl gen config] that
    succeeds and leaves the two templates (documents that can be patched)
    and no talosconfig or one that can be made insecure, and a validator
    that accepts every file: every node file holds the document patch_node
    returns for its address on the template of its role, and every node
    file has been validated. The run ends normally, except in the Bootstrap
    phase with an empty control-plane list, where it raises at the very end
    (the closing text reads [a.control_planes[0]]). *)
Theorem main_end_to_end (o : outer) (c : cli) (w : world)
    (endpoint cps wks gw : string) (cmd : list string)
    (files1 : list (string * tree)) (cp_tpl wk_tpl : tree) :
  let out := o_resolve o (c_out c) in
  let a := parsed_args o c endpoint cps wks gw in
  let files0 := if o_exists o out then o_rmtree o out (w_files w)
                else w_files w in
  let r := main_run o c w in
  c_endpoint c = Some endpoint → c_control_planes c = Some cps →
  c_workers c = Some wks → c_gateway c = Some gw →
  (o_exists o out = true → c_force c = true) →
  gen_config_cmd a out (phase_of c) = Some cmd →
  o_talosctl o cmd files0 = (0%Z, files1) →
  talosconfig_ok out files1 →
  kv_get (path_join out "controlplane.yaml") files1 = Some cp_tpl →
  kv_get (path_join out "worker.yaml") files1 = Some wk_tpl →
  wf_tree cp_tpl = true → wf_tree wk_tpl = true →
  patchable (c_enable_ccm c) cp_tpl = true →
  patchable (c_enable_ccm c) wk_tpl = true →
  (∀ p t, o_validator o p t = 0%Z) →
  r.1 = (if phase_of c && bool_decide (control_planes a = [])
         then Raised else Ret ())
  ∧ (∀ i ip, control_planes a !! i = Some ip →
       ∃ doc, patched_doc cp_tpl (cp_node a ip) = Some doc
              ∧ kv_get (cp_file out (S i)) (w_files r.2) = Some doc)
  ∧ (∀ i ip, workers a !! i = Some ip →
       ∃ doc, patched_doc wk_tpl (worker_node a ip) = Some doc
              ∧ kv_get (w_file out (S i)) (w_files r.2) = Some doc)
  ∧ (∀ p, p ∈ planned_files a out → EvValidate p ∈ w_trace r.2).
Proof.
  intros out a files0 r E1 E2 E3 E4 Hdir Hcmd Htalos Htc Hf1 Hf2 Hwf1 Hwf2
    Hp1 Hp2 Hvalid.
  subst r. unfold main_run. rewrite E1, E2, E3, E4.
  fold out. fold a.
  set (w0 := World (w_heap w) files0 (w_trace w)).
  assert (prepare_out o (c_force c) out w = (Ret (), w0)
          ∨ (prepare_out o (c_force c) out w = (Ret (), w) ∧ files0 = w_files w))
    as Hprep.
  { unfold prepare_out, w0, files0. destruct (o_exists o out) eqn:Hex.
    - left. by rewrite Hdir.
    - right. done. }
  assert (∃ w0', prepare_out o (c_force c) out w = (Ret (), w0')
                 ∧ w_files w0' = files0) as (w0' & Hprep' & Hfs0).
  { destruct Hprep as [H|[H1 H2]]; [by exists w0|by exists w]. }
  erewrite P_bind_run; [|exact Hprep'].
  rewrite <- Hfs0 in Htalos.
  destruct (gen_base_configs_ok (o_talosctl o) a out (phase_of c) w0' cmd files1
              Hcmd Htalos Htc) as (w1 & Hgen & Hkeep).
  erewrite P_bind_run; [|exact Hgen].
  destruct (talosconfig_not_template out) as (N1 & N2 & N3 & N4).
  assert (templates out w1 cp_tpl wk_tpl) as Htpl.
  { split_and!; [|  |done|done]; rewrite Hkeep; done. }
  destruct (create_node_configs_run (o_validator o) a out w1 cp_tpl wk_tpl Htpl)
    as (cp_docs & wk_docs & m & Htr & _ & _ & _ & Hout).
  pose proof (create_node_configs_files_all (o_validator o) a out w1 cp_tpl wk_tpl
                Htpl) as Hfiles.
  simpl in Htr, Hout, Hfiles.
  destruct (create_node_configs (o_validator o) a out w1) as [o2 w2] eqn:Hrun.
  simpl in Htr, Hout, Hfiles.
  destruct Hout as [(Hnr & Hlc & Hlw & Hm & Hexit)|[(_ & _ & _ & _ & Hbad)
                                                  |(_ & _ & _ & _ & Hbad)]];
    [|simpl in Hbad; congruence..].
  assert (o2 = Ret ()) as ->.
  { destruct o2 as [[]| |code]; [done|done|].
    destruct (Hexit code eq_refl) as (Hne & p & ->). by rewrite Hvalid in Hne. }
  destruct (Hfiles Hnr) as (Hcpf & Hwkf & _).
  erewrite P_bind_run; [|exact Hrun].
  assert (∀ p, p ∈ planned_files a out → EvValidate p ∈ w_trace w2) as Hval.
  { intros p Hp. rewrite Htr, (Hm eq_refl), firstn_all.
    rewrite !elem_of_app. right. right. right.
    apply list_elem_of_fmap. eauto. }
  assert (∀ b : bool,
            ((if b then _ ← lift_option (head (control_planes a)); mret ()
              else mret ()) : P unit) w2
            = (if b && bool_decide (control_planes a = [])
               then Raised else Ret (), w2)) as Hend.
  { intros [|]; [|done]. unfold andb.
    destruct (control_planes a) as [|cp0 cps']; reflexivity. }
  rewrite Hend. simpl. split_and!; [done| | |done].
  - intros i ip Hi. by apply Hcpf.
  - intros i ip Hi. by apply Hwkf.
Qed.

Lemma main_end_to_end_witness :
  let r := main_run ex_outer ex_cli (World [] [] []) in
  let a := parsed_args ex_outer ex_cli "10.0.0.11:6443"
             "10.0.0.11,10.0.0.12,10.0.0.13" "10.0.0.21, 10.0.0.22" "10.0.0.1" in
  r.1 = Ret ()
  ∧ (∃ doc, patched_doc ex_cp_template (cp_node a "10.0.0.11") = Some doc
            ∧ kv_get "out/cp1.yaml" (w_files r.2) = Some doc)
  ∧ (∃ doc, patched_doc ex_worker_template (worker_node a "10.0.0.22") = Some doc
            ∧ kv_get "out/w2.yaml" (w_files r.2) = Some doc)
  ∧ EvValidate "out/w2.yaml" ∈ w_trace r.2.
Proof.
  destruct (main_end_to_end ex_outer ex_cli (World [] [] [])
              "10.0.0.11:6443" "10.0.0.11,10.0.0.12,10.0.0.13"
              "10.0.0.21, 10.0.0.22" "10.0.0.1"
              (default [] (gen_config_cmd
                 (parsed_args ex_outer ex_cli "10.0.0.11:6443"
                    "10.0.0.11,10.0.0.12,10.0.0.13" "10.0.0.21, 10.0.0.22"
                    "10.0.0.1") "out" true))
              (ex_talosctl [] []).2 ex_cp_template ex_worker_template)
    as (Hout & Hcp & Hwk & Hval); try reflexivity.
  - discriminate.
  - vm_compute. auto.
  - cbv zeta. split_and!.
    + exact Hout.
    + apply (Hcp 0 "10.0.0.11"). reflexivity.
    + apply (Hwk 1 "10.0.0.22"). reflexivity.
    + apply Hval. vm_compute. repeat constructor.
Defined.
